(** * LiveCandles: the tick-to-candle aggregation of [src/app/page.tsx]

    A shallow embedding of the page component's two event handlers,
    [loadHistoricalData] (the historical snapshot) and [ws.onmessage] (the
    live tick feed), together with the helpers they call
    ([convertToLocalTime], [getCandleTimestamp]).

    React state ([useState]) and refs ([useRef]) become the fields of one
    record, [PageState], that every handler takes and returns.  The chart
    library is an external collaborator: each call the handlers make on a
    series is appended to a log kept in the state, so statements of the form
    "setData is never called" are statements about that log. *)

From Stdlib Require Import ZArith List String Ascii Bool Lia.
From Stdlib Require Import Sorted Permutation.
From Stdlib Require Import SpecFloat.
Import ListNotations.

Local Open Scope Z_scope.

(** ** The host language: the part of ECMAScript the handlers rely on *)

Module JS.

(** A JavaScript Number is an IEEE-754 binary64 value. *)
Definition number : Type := spec_float.

Definition prec : Z := 53.
Definition emax : Z := 1024.

Definition NaN : number := S754_nan.

(** The Number denoted by an integer literal. *)
Definition ofZ (z : Z) : number := binary_normalize prec emax z 0 false.

Definition isNaN (x : number) : bool :=
  match x with
  | S754_nan => true
  | _ => false
  end.

(** [x < y], [x <= y], [x >= y] on Numbers: false as soon as one side is
    NaN; the two zeros compare equal. *)
Definition lt (x y : number) : bool := SFltb x y.
Definition le (x y : number) : bool := SFleb x y.
Definition ge (x y : number) : bool := SFleb y x.

(** [Math.max(x, y)]: NaN if either argument is NaN; +0 is larger than -0;
    otherwise the first argument unless the second is strictly larger. *)
Definition Math_max (x y : number) : number :=
  if isNaN x || isNaN y then NaN
  else match x, y with
       | S754_zero true, S754_zero false => y
       | _, _ => if lt x y then y else x
       end.

(** [Math.min(x, y)]: NaN if either argument is NaN; -0 is smaller than
    +0; otherwise the first argument unless the second is strictly
    smaller. *)
Definition Math_min (x y : number) : number :=
  if isNaN x || isNaN y then NaN
  else match x, y with
       | S754_zero false, S754_zero true => y
       | _, _ => if lt y x then y else x
       end.

(** The integer an integral Number holds.  An infinity is kept as the
    magnitude 2^1024, which lies beyond every double. *)
Definition toZ (x : number) : Z :=
  match x with
  | S754_finite s m e =>
      cond_Zopp s (if 0 <=? e then Z.pos m * 2 ^ e else Z.pos m / 2 ^ (- e))
  | S754_infinity s => cond_Zopp s (2 ^ 1024)
  | _ => 0
  end.

(** [Math.floor(x)]: the largest integral Number not above [x].  A
    Number whose exponent is not negative is integral already; so are
    the two zeros, the infinities and NaN. *)
Definition Math_floor (x : number) : number :=
  match x with
  | S754_finite s m e =>
      if 0 <=? e then x else ofZ (cond_Zopp s (Z.pos m) / 2 ^ (- e))
  | _ => x
  end.

(** The double nearest to an integer, ties going to the even
    significand, held as an integer again.  Integers of magnitude up to
    2^53 are doubles themselves; above, only every second, fourth, ...
    integer is. *)
Definition rounded (z : Z) : Z := toZ (ofZ z).

(** [x - y] on integral Numbers.  The subtraction of IEEE-754 aligns
    the two significands and normalizes their exact difference, which
    rounds it once; on Numbers that hold integers this is the
    normalization of the difference of the integers. *)
Definition sub (x y : Z) : Z := rounded (x - y).

(** [x * y] on integral Numbers. *)
Definition mul (x y : Z) : Z := toZ (SFmul prec emax (ofZ x) (ofZ y)).

(** [Math.floor(x / d)] on integral Numbers: the quotient is the double
    that IEEE-754 division returns, and its floor is taken next. *)
Definition floor_div (x d : Z) : Z :=
  toZ (Math_floor (SFdiv prec emax (ofZ x) (ofZ d))).

(** Times are Numbers that are either NaN or integral.  They are kept as
    an optional integer, [None] standing for NaN; the arithmetic on
    them is that of doubles, so a result that needs more than 53
    significant bits is rounded. *)
Definition time : Type := option Z.

(** [a === b] on times: NaN is not equal to itself. *)
Definition time_seq (a b : time) : bool :=
  match a, b with
  | Some x, Some y => x =? y
  | _, _ => false
  end.

(** [a - b] on times. *)
Definition time_sub (a b : time) : time :=
  match a, b with
  | Some x, Some y => Some (sub x y)
  | _, _ => None
  end.

(** [Math.floor(a / d)] on a time [a] and a positive integer literal [d]. *)
Definition time_floor_div (a : time) (d : Z) : time :=
  match a with
  | Some x => Some (floor_div x d)
  | None => None
  end.

(** The values a field of the decoded response may hold, as far as the
    page inspects them. *)
Inductive any : Type :=
| Undefined
| Null
| Str (s : string)
| Num (n : Z).

(** ToBoolean. *)
Definition truthy (v : any) : bool :=
  match v with
  | Undefined | Null => false
  | Str s => negb (s =? "")%string
  | Num n => negb (n =? 0)
  end.

(** [a || b]. *)
Definition or (a b : any) : any := if truthy a then a else b.

Section Arrays.
Context {A : Type}.

(** [Array.prototype.findIndex]: the index of the first element that
    satisfies [p], or -1. *)
Fixpoint findIndex_from (p : A -> bool) (l : list A) (i : Z) : Z :=
  match l with
  | [] => -1
  | x :: l' => if p x then i else findIndex_from p l' (i + 1)
  end.

Definition findIndex (p : A -> bool) (l : list A) : Z :=
  findIndex_from p l 0.

(** [Array.prototype.filter] with the three-argument callback
    [(item, index, self)]. *)
Fixpoint filter_from (f : A -> Z -> list A -> bool)
         (self l : list A) (i : Z) : list A :=
  match l with
  | [] => []
  | x :: l' =>
      if f x i self then x :: filter_from f self l' (i + 1)
      else filter_from f self l' (i + 1)
  end.

Definition filter (f : A -> Z -> list A -> bool) (self : list A) : list A :=
  filter_from f self self 0.

(** [Array.prototype.sort(compareFn)].  A comparator result that is NaN
    counts as 0.  The language fixes the outcome only when the
    comparator is consistent, and then it is the stable sort; the
    model is the stable insertion sort, which yields that outcome.
    An element moves past the elements that compare strictly below
    it and stops at the first that does not. *)
Definition negative (v : time) : bool :=
  match v with
  | Some d => d <? 0
  | None => false
  end.

Fixpoint sort_insert (cmp : A -> A -> time) (x : A) (l : list A) : list A :=
  match l with
  | [] => [x]
  | y :: l' =>
      if negative (cmp y x) then y :: sort_insert cmp x l'
      else x :: y :: l'
  end.

Fixpoint sort (cmp : A -> A -> time) (l : list A) : list A :=
  match l with
  | [] => []
  | x :: l' => sort_insert cmp x (sort cmp l')
  end.
End Arrays.

End JS.

(** ** The host environment

    The built-ins whose result depends on the engine or on the machine the
    page runs on: [Date.parse] (milliseconds since the epoch, or NaN),
    [parseFloat], and [new Date().getTimezoneOffset()] (minutes; a zone
    is never a day or more away from UTC).

    The page reads the zone offset anew at every conversion.  A [Host]
    is the environment as one run of a handler finds it, and every
    handler takes the host of its own run: a load and a later tick, or
    two ticks, may be given hosts that differ in their offset. *)
Record Host : Type := {
  Date_parse : string -> JS.time;
  parseFloat : string -> JS.number;
  getTimezoneOffset : Z;
  offsetWithinDay : (Z.abs getTimezoneOffset <=? 1440) = true
}.

(** ** Data types of the page *)

Module TwelveDataCandle.
Record t : Type := mk {
  datetime : string;
  open : string;
  high : string;
  low : string;
  close : string;
  volume : string
}.
End TwelveDataCandle.

(** The decoded message of the feed.  Its [timestamp], like the
    timestamps of the candle held, is an integral Number, held as the
    integer it is. *)
Module PriceEvent.
Record t : Type := mk {
  event : string;
  symbol : string;
  currency : string;
  exchange : string;
  type : string;
  timestamp : Z;
  price : JS.number
}.
End PriceEvent.

Module CandleAggregator.
Record t : Type := mk {
  timestamp : Z;
  open : JS.number;
  high : JS.number;
  low : JS.number;
  close : JS.number;
  lastUpdate : Z
}.
End CandleAggregator.

(** [CandlestickData] and [HistogramData] of the chart library. *)
Module CandlestickData.
Record t : Type := mk {
  time : JS.time;
  open : JS.number;
  high : JS.number;
  low : JS.number;
  close : JS.number
}.
End CandlestickData.

Module HistogramData.
Record t : Type := mk {
  time : JS.time;
  value : JS.number;
  color : string
}.
End HistogramData.

(** The decoded body of the historical request, [data]. *)
Module TimeSeries.
Record t : Type := mk {
  values : option (list TwelveDataCandle.t);
  message : JS.any;
  code : JS.any
}.
End TimeSeries.

(** What [await fetch(..)] / [await response.json()] ends in: a decoded
    body, or a thrown value (an [Error] with its message, or anything
    else). *)
Inductive Fetched : Type :=
| Resolved (data : TimeSeries.t)
| ThrownError (message : string)
| ThrownOther.

(** A call made on one of the two chart series. *)
Inductive SinkCall : Type :=
| CandleSetData (candles : list CandlestickData.t)
| VolumeSetData (volumes : list HistogramData.t)
| CandleUpdate (candleData : CandlestickData.t).

(** The component's state and refs. *)
Record PageState : Type := mkState {
  currentCandleRef : option CandleAggregator.t;
  currentPrice : option JS.number;
  isHistoricalLoaded : bool;
  status : string;
  errorMessage : JS.any;
  sinkCalls : list SinkCall
}.

(** The state on mount. *)
Definition initialState : PageState :=
  {| currentCandleRef := None;
     currentPrice := None;
     isHistoricalLoaded := false;
     status := "Loading historical data...";
     errorMessage := JS.Null;
     sinkCalls := [] |}.

Definition setCurrentPrice (p : JS.number) (st : PageState) : PageState :=
  {| currentCandleRef := currentCandleRef st;
     currentPrice := Some p;
     isHistoricalLoaded := isHistoricalLoaded st;
     status := status st;
     errorMessage := errorMessage st;
     sinkCalls := sinkCalls st |}.

Definition setIsHistoricalLoaded (b : bool) (st : PageState) : PageState :=
  {| currentCandleRef := currentCandleRef st;
     currentPrice := currentPrice st;
     isHistoricalLoaded := b;
     status := status st;
     errorMessage := errorMessage st;
     sinkCalls := sinkCalls st |}.

Definition setStatus (s : string) (st : PageState) : PageState :=
  {| currentCandleRef := currentCandleRef st;
     currentPrice := currentPrice st;
     isHistoricalLoaded := isHistoricalLoaded st;
     status := s;
     errorMessage := errorMessage st;
     sinkCalls := sinkCalls st |}.

Definition setErrorMessage (m : JS.any) (st : PageState) : PageState :=
  {| currentCandleRef := currentCandleRef st;
     currentPrice := currentPrice st;
     isHistoricalLoaded := isHistoricalLoaded st;
     status := status st;
     errorMessage := m;
     sinkCalls := sinkCalls st |}.

Definition setCurrentCandle (c : CandleAggregator.t) (st : PageState) : PageState :=
  {| currentCandleRef := Some c;
     currentPrice := currentPrice st;
     isHistoricalLoaded := isHistoricalLoaded st;
     status := status st;
     errorMessage := errorMessage st;
     sinkCalls := sinkCalls st |}.

(** A call on a series, recorded after the calls made so far. *)
Definition call (c : SinkCall) (st : PageState) : PageState :=
  {| currentCandleRef := currentCandleRef st;
     currentPrice := currentPrice st;
     isHistoricalLoaded := isHistoricalLoaded st;
     status := status st;
     errorMessage := errorMessage st;
     sinkCalls := sinkCalls st ++ [c] |}.

(** ** Time bucketing *)

(** [convertToLocalTime]: the UTC timestamp minus the zone offset in
    seconds, the offset being the one [h] has at this call.  Product and
    difference are those of doubles. *)
Definition convertToLocalTime (h : Host) (utcTimestamp : JS.time) : JS.time :=
  let timezoneOffsetSeconds := JS.mul (getTimezoneOffset h) 60 in
  JS.time_sub utcTimestamp (Some timezoneOffsetSeconds).

(** Interval in seconds (60 = 1 minute candles). *)
Definition CANDLE_INTERVAL : Z := 60.

(** [getCandleTimestamp]: [Math.floor(timestamp / CANDLE_INTERVAL) *
    CANDLE_INTERVAL] on the Number that holds the integer [timestamp].
    Quotient and product are those of doubles, [SFdiv] and [SFmul]: the
    quotient is rounded before its floor is taken, and the product is
    rounded again. *)
Definition getCandleTimestamp (timestamp : Z) : Z :=
  JS.toZ
    (SFmul JS.prec JS.emax
           (JS.Math_floor
              (SFdiv JS.prec JS.emax
                     (JS.ofZ timestamp) (JS.ofZ CANDLE_INTERVAL)))
           (JS.ofZ CANDLE_INTERVAL)).

(** The bucketing contract in the specification's words:
    [floor(timestampSeconds / intervalSeconds) * intervalSeconds]. *)
Definition bucketStart (timestampSeconds intervalSeconds : Z) : Z :=
  timestampSeconds / intervalSeconds * intervalSeconds.

(** ** The live feed handler *)

(** The candle started by a tick that opens a bucket. *)
Definition newCandle (candleTime : Z) (price : JS.number) (timestamp : Z)
  : CandleAggregator.t :=
  {| CandleAggregator.timestamp := candleTime;
     CandleAggregator.open := price;
     CandleAggregator.high := price;
     CandleAggregator.low := price;
     CandleAggregator.close := price;
     CandleAggregator.lastUpdate := timestamp |}.

(** The held candle after a tick of its own bucket. *)
Definition updateCandle (c : CandleAggregator.t) (price : JS.number)
           (timestamp : Z) : CandleAggregator.t :=
  {| CandleAggregator.timestamp := CandleAggregator.timestamp c;
     CandleAggregator.open := CandleAggregator.open c;
     CandleAggregator.high := JS.Math_max (CandleAggregator.high c) price;
     CandleAggregator.low := JS.Math_min (CandleAggregator.low c) price;
     CandleAggregator.close := price;
     CandleAggregator.lastUpdate := timestamp |}.

(** The subscription test of [ws.onmessage]. *)
Definition accepted (data : PriceEvent.t) : bool :=
  (PriceEvent.event data =? "price")%string
  && (PriceEvent.symbol data =? "BTC/USD")%string.

(** [ws.onmessage], on the decoded event; [h] is the host as this run of
    the handler finds it. *)
Definition onmessage (h : Host) (data : PriceEvent.t) (st : PageState)
  : PageState :=
  if accepted data then
    let price := PriceEvent.price data in
    let timestamp := PriceEvent.timestamp data in
    let candleTime := getCandleTimestamp timestamp in
    let st := setCurrentPrice price st in
    let current :=
      match currentCandleRef st with
      | Some c =>
          if negb (CandleAggregator.timestamp c =? candleTime)
          then newCandle candleTime price timestamp
          else updateCandle c price timestamp
      | None => newCandle candleTime price timestamp
      end in
    let st := setCurrentCandle current st in
    let candleData :=
      {| CandlestickData.time := convertToLocalTime h (Some candleTime);
         CandlestickData.open := CandleAggregator.open current;
         CandlestickData.high := CandleAggregator.high current;
         CandlestickData.low := CandleAggregator.low current;
         CandlestickData.close := CandleAggregator.close current |} in
    call (CandleUpdate candleData) st
  else st.

(** A run of the feed during which the host stays as it is: the events
    are handled one at a time, in arrival order. *)
Definition feed (h : Host) (events : list PriceEvent.t) (st : PageState)
  : PageState :=
  fold_left (fun s e => onmessage h e s) events st.

(** ** The historical loader *)

Definition upColor : string := "rgba(38, 166, 154, 0.5)".
Definition downColor : string := "rgba(239, 83, 80, 0.5)".

(** The instant of a record: [Math.floor(Date.parse(v.datetime + "Z") / 1000)]. *)
Definition utcTimestampOf (h : Host) (v : TwelveDataCandle.t) : JS.time :=
  JS.time_floor_div (Date_parse h (TwelveDataCandle.datetime v ++ "Z")) 1000.

(** The callback of the first [data.values.map]. *)
Definition toCandle (h : Host) (v : TwelveDataCandle.t) : CandlestickData.t :=
  let utcTimestamp := utcTimestampOf h v in
  {| CandlestickData.time := convertToLocalTime h utcTimestamp;
     CandlestickData.open := parseFloat h (TwelveDataCandle.open v);
     CandlestickData.high := parseFloat h (TwelveDataCandle.high v);
     CandlestickData.low := parseFloat h (TwelveDataCandle.low v);
     CandlestickData.close := parseFloat h (TwelveDataCandle.close v) |}.

(** The callback of the second [data.values.map]. *)
Definition toVolume (h : Host) (v : TwelveDataCandle.t) : HistogramData.t :=
  let utcTimestamp := utcTimestampOf h v in
  let open := parseFloat h (TwelveDataCandle.open v) in
  let close := parseFloat h (TwelveDataCandle.close v) in
  {| HistogramData.time := convertToLocalTime h utcTimestamp;
     HistogramData.value := parseFloat h (TwelveDataCandle.volume v);
     HistogramData.color := if JS.ge close open then upColor else downColor |}.

(** The comparator [(a, b) => a.time - b.time]. *)
Definition byTime {A : Type} (time : A -> JS.time) (a b : A) : JS.time :=
  JS.time_sub (time a) (time b).

(** The filter callback
    [(item, index, self) => index === self.findIndex((t) => t.time === item.time)]. *)
Definition firstOfItsTime {A : Type} (time : A -> JS.time)
           (item : A) (index : Z) (self : list A) : bool :=
  index =? JS.findIndex (fun t => JS.time_seq (time t) (time item)) self.

(** Sort by time, then keep the first entry of each time. *)
Definition sortAndDedupe {A : Type} (time : A -> JS.time) (l : list A) : list A :=
  JS.filter (firstOfItsTime time) (JS.sort (byTime time) l).

(** [candles] and [volumes] as they stand when [setData] is reached. *)
Definition normalizedCandles (h : Host) (values : list TwelveDataCandle.t)
  : list CandlestickData.t :=
  sortAndDedupe CandlestickData.time (map (toCandle h) values).

Definition normalizedVolumes (h : Host) (values : list TwelveDataCandle.t)
  : list HistogramData.t :=
  sortAndDedupe HistogramData.time (map (toVolume h) values).

(** [!data.values || data.values.length === 0]. *)
Definition noValues (data : TimeSeries.t) : bool :=
  match TimeSeries.values data with
  | None => true
  | Some [] => true
  | Some (_ :: _) => false
  end.

(** [data.message || data.code || "No data available"]. *)
Definition errorMsgOf (data : TimeSeries.t) : JS.any :=
  JS.or (JS.or (TimeSeries.message data) (TimeSeries.code data))
        (JS.Str "No data available").

(** [loadHistoricalData], from the outcome of the request on.  The call
    [volumeSeries.setData(volumes)] is commented out in the source, so
    [volumes] is computed and dropped. *)
Definition loadHistoricalData (h : Host) (fetched : Fetched) (st : PageState)
  : PageState :=
  let st := setStatus "Loading historical data..." st in
  match fetched with
  | Resolved data =>
      if noValues data then
        let errorMsg := errorMsgOf data in
        let st := setStatus "Error" st in
        setErrorMessage errorMsg st
      else
        let values := match TimeSeries.values data with
                      | Some vs => vs
                      | None => []
                      end in
        let st := setErrorMessage JS.Null st in
        let candles := normalizedCandles h values in
        let volumes := normalizedVolumes h values in
        let st := call (CandleSetData candles) st in
        let st := setIsHistoricalLoaded true st in
        let st := setStatus "Connecting to live data..." st in
        match last (map Some candles) None with
        | Some c => setCurrentPrice (CandlestickData.close c) st
        | None => st
        end
  | ThrownError message =>
      let st := setStatus "Error" st in
      setErrorMessage (JS.Str message) st
  | ThrownOther =>
      let st := setStatus "Error" st in
      setErrorMessage (JS.Str "Network error") st
  end.

(** ** The Series Sink *)

(** Modelled from the spec: the chart series behind [candleSeries] belongs
    to the charting library and is not part of the sources.  Section 4.4
    gives it two operations.  [replaceAll] is the wholesale replacement
    of the series. *)
Definition replaceAll (series : list CandlestickData.t)
  : list CandlestickData.t -> list CandlestickData.t :=
  fun _ => series.

(** Modelled from the spec: [upsertLast] of section 4.4, the other
    operation of the series of the charting library.  If the series is not
    empty and its last entry is of the candle's bucket, that entry is
    overwritten; otherwise the candle is appended. *)
Definition upsertLast (candle : CandlestickData.t)
           (series : list CandlestickData.t) : list CandlestickData.t :=
  match rev series with
  | lastEntry :: front =>
      if JS.time_seq (CandlestickData.time lastEntry) (CandlestickData.time candle)
      then rev front ++ [candle]
      else series ++ [candle]
  | [] => [candle]
  end.

(** Modelled from the spec: the calls the page makes on the candle series
    of the charting library are the two operations of section 6,
    [setData] the full replacement and [update] the upsert; a call on the
    volume series leaves the candle series alone. *)
Definition applyCall (series : list CandlestickData.t) (c : SinkCall)
  : list CandlestickData.t :=
  match c with
  | CandleSetData candles => replaceAll candles series
  | VolumeSetData _ => series
  | CandleUpdate candleData => upsertLast candleData series
  end.

(** The candle series after a log of calls, from the empty series. *)
Definition candleSeriesOf (calls : list SinkCall) : list CandlestickData.t :=
  fold_left applyCall calls [].

(** Modelled from the spec: the volume series of the charting library,
    replaced as a whole by its [setData] and touched by no other call. *)
Definition volumeSeriesOf (calls : list SinkCall) : list HistogramData.t :=
  fold_left (fun series c =>
               match c with
               | VolumeSetData volumes => volumes
               | _ => series
               end) calls [].

(** ** A reference engine

    A concrete [Host], used to run the handlers on payloads as the upstream
    sends them.  [Date.parse] is given on the one format the historical
    source emits once the page has appended its "Z",
    [YYYY-MM-DD HH:MM:SSZ] (or with [T] for the blank), and is NaN on
    every other string; [parseFloat] follows the language definition on
    ASCII input: leading blanks are skipped and the longest prefix that is
    a decimal literal is converted, rounding to nearest, ties to even. *)
Module Engine.

Definition digit (c : ascii) : option Z :=
  let n := Z.of_nat (nat_of_ascii c) in
  if (48 <=? n) && (n <=? 57) then Some (n - 48) else None.

(** The leading decimal digits of [l], most significant first, and what
    follows them. *)
Fixpoint span_digits (l : list ascii) : list Z * list ascii :=
  match l with
  | [] => ([], [])
  | c :: l' =>
      match digit c with
      | Some d => let (ds, rest) := span_digits l' in (d :: ds, rest)
      | None => ([], l)
      end
  end.

Definition decimal (ds : list Z) : Z :=
  fold_left (fun acc d => 10 * acc + d) ds 0.

(** *** [Date.parse] *)

Definition isLeap (y : Z) : bool :=
  ((y mod 4 =? 0) && negb (y mod 100 =? 0)) || (y mod 400 =? 0).

Definition daysInMonth (y m : Z) : Z :=
  if m =? 2 then (if isLeap y then 29 else 28)
  else if (m =? 4) || (m =? 6) || (m =? 9) || (m =? 11) then 30
  else 31.

(** Days from 1970-01-01 to the given date of the proleptic Gregorian
    calendar. *)
Definition daysFromCivil (y m d : Z) : Z :=
  let y' := if m <=? 2 then y - 1 else y in
  let era := y' / 400 in
  let yoe := y' - era * 400 in
  let mp := if m <=? 2 then m + 9 else m - 3 in
  let doy := (153 * mp + 2) / 5 + d - 1 in
  let doe := yoe * 365 + yoe / 4 - yoe / 100 + doy in
  era * 146097 + doe - 719468.

Definition two (a b : ascii) : option Z :=
  match digit a, digit b with
  | Some x, Some y => Some (10 * x + y)
  | _, _ => None
  end.

Definition four (a b c d : ascii) : option Z :=
  match two a b, two c d with
  | Some x, Some y => Some (100 * x + y)
  | _, _ => None
  end.

Definition Date_parse (s : string) : JS.time :=
  match list_ascii_of_string s with
  | [y1; y2; y3; y4; d1; m1; m2; d2; a1; a2; sep; h1; h2; c1; i1; i2; c2; s1; s2; z] =>
      if (d1 =? "-")%char && (d2 =? "-")%char
         && ((sep =? " ")%char || (sep =? "T")%char)
         && (c1 =? ":")%char && (c2 =? ":")%char && (z =? "Z")%char
      then
        match four y1 y2 y3 y4, two m1 m2, two a1 a2,
              two h1 h2, two i1 i2, two s1 s2 with
        | Some y, Some m, Some d, Some hh, Some mm, Some ss =>
            if (1 <=? m) && (m <=? 12) && (1 <=? d) && (d <=? daysInMonth y m)
               && (hh <=? 23) && (mm <=? 59) && (ss <=? 59)
            then Some ((daysFromCivil y m d * 86400
                        + hh * 3600 + mm * 60 + ss) * 1000)
            else None
        | _, _, _, _, _, _ => None
        end
      else None
  | _ => None
  end.

(** *** [parseFloat] *)

Definition isBlank (c : ascii) : bool :=
  let n := nat_of_ascii c in
  (Nat.eqb n 32) || ((Nat.leb 9 n) && (Nat.leb n 13)).

Fixpoint skipBlanks (l : list ascii) : list ascii :=
  match l with
  | c :: l' => if isBlank c then skipBlanks l' else l
  | [] => []
  end.

Fixpoint startsWith (p l : list ascii) : bool :=
  match p, l with
  | [], _ => true
  | a :: p', b :: l' => (a =? b)%char && startsWith p' l'
  | _ :: _, [] => false
  end.

(** The exponent part at the head of [l], if a complete one is there. *)
Definition exponentPart (l : list ascii) : Z :=
  match l with
  | e :: l' =>
      if (e =? "e")%char || (e =? "E")%char then
        let (neg, l'') :=
          match l' with
          | s :: t => if (s =? "-")%char then (true, t)
                      else if (s =? "+")%char then (false, t)
                      else (false, l')
          | [] => (false, l')
          end in
        match fst (span_digits l'') with
        | [] => 0
        | ds => if neg then - decimal ds else decimal ds
        end
      else 0
  | [] => 0
  end.

(** The Number nearest to [m * 10^k], for the sign [s]. *)
Definition scaled (s : bool) (m k : Z) : JS.number :=
  match m with
  | Zpos p =>
      match k with
      | Zneg _ =>
          SFdiv JS.prec JS.emax (S754_finite s p 0)
                (S754_finite false (Z.to_pos (10 ^ (- k))) 0)
      | _ => binary_round JS.prec JS.emax s (Z.to_pos (m * 10 ^ k)) 0
      end
  | _ => S754_zero s
  end.

Definition parseFloat (str : string) : JS.number :=
  let l := skipBlanks (list_ascii_of_string str) in
  let (s, l) :=
    match l with
    | c :: t => if (c =? "-")%char then (true, t)
                else if (c =? "+")%char then (false, t)
                else (false, l)
    | [] => (false, l)
    end in
  if startsWith (list_ascii_of_string "Infinity") l then S754_infinity s
  else
    let (ip, r1) := span_digits l in
    let (fp, r2) :=
      match r1 with
      | c :: t => if (c =? ".")%char then span_digits t else ([], r1)
      | [] => ([], r1)
      end in
    match ip, fp with
    | [], [] => JS.NaN
    | _, _ =>
        scaled s (decimal (ip ++ fp))
               (exponentPart r2 - Z.of_nat (List.length fp))
    end.

(** The engine in the zone whose offset is [offset] minutes; asked for
    an offset of more than a day, the engine is in UTC. *)
Definition host (offset : Z) : Host :=
  match Z.abs offset <=? 1440 as b
        return (Z.abs offset <=? 1440) = b -> Host with
  | true => fun within => Build_Host Date_parse parseFloat offset within
  | false => fun _ => Build_Host Date_parse parseFloat 0 eq_refl
  end eq_refl.

End Engine.

(** ** Predicates of the specification *)

(** The candle invariant of the data model, with the minimum and maximum
    of the language: [low <= min(open, close) <= max(open, close) <= high],
    and the bucket start a multiple of the interval. *)
Definition ohlcOrdered (c : CandleAggregator.t) : Prop :=
  JS.le (CandleAggregator.low c)
        (JS.Math_min (CandleAggregator.open c) (CandleAggregator.close c)) = true
  /\ JS.le (JS.Math_min (CandleAggregator.open c) (CandleAggregator.close c))
           (JS.Math_max (CandleAggregator.open c) (CandleAggregator.close c)) = true
  /\ JS.le (JS.Math_max (CandleAggregator.open c) (CandleAggregator.close c))
           (CandleAggregator.high c) = true.

Definition candleInvariant (c : CandleAggregator.t) : Prop :=
  ohlcOrdered c /\ (CANDLE_INTERVAL | CandleAggregator.timestamp c).

(** The invariant of the aggregator: the held candle, if any, is sound. *)
Definition stateInvariant (st : PageState) : Prop :=
  match currentCandleRef st with
  | Some c => candleInvariant c
  | None => True
  end.

(** A price as the feed's JSON can carry it: any Number but NaN. *)
Definition jsonPrice (data : PriceEvent.t) : Prop :=
  JS.isNaN (PriceEvent.price data) = false.

(** An error payload in the sense of the interface: a message or a code
    in place of the values. *)
Definition errorPayload (data : TimeSeries.t) : Prop :=
  TimeSeries.values data = None
  /\ (TimeSeries.message data <> JS.Undefined
      \/ TimeSeries.code data <> JS.Undefined).

(** Strictly earlier, and not later, on times; NaN is related to nothing. *)
Definition time_lt (a b : JS.time) : Prop :=
  match a, b with
  | Some x, Some y => x < y
  | _, _ => False
  end.

Definition time_le (a b : JS.time) : Prop :=
  match a, b with
  | Some x, Some y => x <= y
  | _, _ => False
  end.

Definition increasing {A : Type} (time : A -> JS.time) (l : list A) : Prop :=
  StronglySorted (fun a b => time_lt (time a) (time b)) l.

Definition nondecreasing {A : Type} (time : A -> JS.time) (l : list A) : Prop :=
  StronglySorted (fun a b => time_le (time a) (time b)) l.

(** The entries of [l] at the instant [t], in order. *)
Definition atTime {A : Type} (time : A -> JS.time) (t : Z) (l : list A) : list A :=
  List.filter (fun a => JS.time_seq (time a) (Some t)) l.

(** The first entry of [l] at the instant [t], as a list of at most one. *)
Definition firstAtTime {A : Type} (time : A -> JS.time) (t : Z) (l : list A)
  : list A :=
  match find (fun a => JS.time_seq (time a) (Some t)) l with
  | Some a => [a]
  | None => []
  end.

(** Whether the datetime of a record parses on the host. *)
Definition datetimeParses (h : Host) (v : TwelveDataCandle.t) : Prop :=
  Date_parse h (TwelveDataCandle.datetime v ++ "Z") <> None.

(** The deduplicating filter, told by what precedes an entry: an entry is
    kept when its time equals itself and no earlier entry has its time. *)
Fixpoint dedupeAfter {A : Type} (time : A -> JS.time) (pre l : list A) : list A :=
  match l with
  | [] => []
  | x :: l' =>
      if JS.time_seq (time x) (time x)
         && negb (existsb (fun y => JS.time_seq (time y) (time x)) pre)
      then x :: dedupeAfter time (pre ++ [x]) l'
      else dedupeAfter time (pre ++ [x]) l'
  end.

(** ** Sample payloads *)

Module Sample.

(** A price event of the subscribed symbol. *)
Definition tick (timestamp : Z) (price : JS.number) : PriceEvent.t :=
  {| PriceEvent.event := "price";
     PriceEvent.symbol := "BTC/USD";
     PriceEvent.currency := "USD";
     PriceEvent.exchange := "Coinbase Pro";
     PriceEvent.type := "Digital Currency";
     PriceEvent.timestamp := timestamp;
     PriceEvent.price := price |}.

(** The same event for another symbol, and a non-price event. *)
Definition otherSymbol (timestamp : Z) (price : JS.number) : PriceEvent.t :=
  {| PriceEvent.event := "price";
     PriceEvent.symbol := "ETH/USD";
     PriceEvent.currency := "USD";
     PriceEvent.exchange := "Coinbase Pro";
     PriceEvent.type := "Digital Currency";
     PriceEvent.timestamp := timestamp;
     PriceEvent.price := price |}.

Definition heartbeat : PriceEvent.t :=
  {| PriceEvent.event := "heartbeat";
     PriceEvent.symbol := "";
     PriceEvent.currency := "";
     PriceEvent.exchange := "";
     PriceEvent.type := "";
     PriceEvent.timestamp := 0;
     PriceEvent.price := JS.ofZ 0 |}.

(** The ticks of the aggregation scenario. *)
Definition firstMinute : list PriceEvent.t :=
  [tick 0 (JS.ofZ 100); tick 30 (JS.ofZ 110); tick 59 (JS.ofZ 90)].

(** Historical records. *)
Definition record (datetime open high low close volume : string)
  : TwelveDataCandle.t :=
  TwelveDataCandle.mk datetime open high low close volume.

Definition tenOClock : TwelveDataCandle.t :=
  record "2024-01-01 10:00:00" "42000.5" "42100" "41950.25" "42050" "12".

Definition tenOClockAgain : TwelveDataCandle.t :=
  record "2024-01-01 10:00:00" "1" "2" "0.5" "1.5" "7".

Definition oneMinutePast : TwelveDataCandle.t :=
  record "2024-01-01 10:01:00" "42050" "42075" "42000" "42010" "9".

(** Records the upstream could send by its type but that do not parse. *)
Definition noDate : TwelveDataCandle.t :=
  record "n/a" "42000.5" "42100" "41950.25" "42050" "12".

Definition noDateAgain : TwelveDataCandle.t :=
  record "n/a" "1" "2" "0.5" "1.5" "7".

Definition noOpen : TwelveDataCandle.t :=
  record "2024-01-01 10:02:00" "n/a" "42100" "41950.25" "42050" "12".

Definition body (values : list TwelveDataCandle.t) : TimeSeries.t :=
  {| TimeSeries.values := Some values;
     TimeSeries.message := JS.Undefined;
     TimeSeries.code := JS.Undefined |}.

(** The error payloads of the interface. *)
Definition badRequest : TimeSeries.t :=
  {| TimeSeries.values := None;
     TimeSeries.message := JS.Undefined;
     TimeSeries.code := JS.Str "400" |}.

Definition emptyValues : TimeSeries.t :=
  {| TimeSeries.values := Some [];
     TimeSeries.message := JS.Undefined;
     TimeSeries.code := JS.Undefined |}.

End Sample.

(** ** What the page renders *)

(** ToBoolean on a Number: false on the two zeros and on NaN. *)
Definition numberTruthy (x : JS.number) : bool :=
  match x with
  | S754_zero _ => false
  | S754_nan => false
  | _ => true
  end.

(** The text beside "Current Price:", the expression
    [currentPrice ? `$${currentPrice.toFixed(2)}` : "Loading..."]: the
    price, formatted, or the placeholder. *)
Inductive PriceLabel : Type :=
| Dollars (amount : JS.number)
| LoadingLabel.

Definition priceLabel (st : PageState) : PriceLabel :=
  match currentPrice st with
  | Some p => if numberTruthy p then Dollars p else LoadingLabel
  | None => LoadingLabel
  end.

(** The error panel over the chart, [errorMessage && (...)]: shown, with
    the message as its text, when the message is truthy. *)
Definition errorOverlay (st : PageState) : option JS.any :=
  if JS.truthy (errorMessage st) then Some (errorMessage st) else None.

(** The badge is green when [status === "Live"] and yellow otherwise. *)
Definition badgeIsLive (st : PageState) : bool :=
  (status st =? "Live")%string.

(** ** The live connection *)

(** [WebSocket.readyState]. *)
Inductive ReadyState : Type :=
| CONNECTING
| OPEN
| CLOSING
| CLOSED.

(** The commands the page sends, each a [JSON.stringify] of an object:
    [{action: "subscribe", params: {symbols}}] and [{action: "heartbeat"}]. *)
Inductive Command : Type :=
| Subscribe (symbols : string)
| Heartbeat.

(** One run of the second effect: the page, the socket [ws] with what was
    sent on it, the variable [heartbeatInterval], and the intervals the
    host keeps running, with the identifier the next [setInterval]
    returns.  Identifiers are positive, hence truthy. *)
Record Session : Type := mkSession {
  page : PageState;
  readyState : ReadyState;
  sent : list Command;
  heartbeatInterval : option positive;
  intervals : list positive;
  nextInterval : positive
}.

Definition withPage (f : PageState -> PageState) (s : Session) : Session :=
  {| page := f (page s);
     readyState := readyState s;
     sent := sent s;
     heartbeatInterval := heartbeatInterval s;
     intervals := intervals s;
     nextInterval := nextInterval s |}.

(** [ws.send(c)] on an open socket; on a closing or closed one the data
    is discarded.  (On a connecting one it throws: see [onopen].) *)
Definition wsSend (c : Command) (s : Session) : Session :=
  {| page := page s;
     readyState := readyState s;
     sent := match readyState s with
             | OPEN => sent s ++ [c]
             | _ => sent s
             end;
     heartbeatInterval := heartbeatInterval s;
     intervals := intervals s;
     nextInterval := nextInterval s |}.

(** [heartbeatInterval = setInterval(.., 10000)]. *)
Definition setHeartbeatInterval (s : Session) : Session :=
  {| page := page s;
     readyState := readyState s;
     sent := sent s;
     heartbeatInterval := Some (nextInterval s);
     intervals := nextInterval s :: intervals s;
     nextInterval := Pos.succ (nextInterval s) |}.

(** [if (heartbeatInterval) clearInterval(heartbeatInterval)]: the
    interval stops; the variable keeps its value. *)
Definition clearHeartbeatInterval (s : Session) : Session :=
  match heartbeatInterval s with
  | Some id =>
      {| page := page s;
         readyState := readyState s;
         sent := sent s;
         heartbeatInterval := heartbeatInterval s;
         intervals := List.filter (fun i => negb (Pos.eqb i id)) (intervals s);
         nextInterval := nextInterval s |}
  | None => s
  end.

(** [ws.close()]: a socket not yet closed starts closing. *)
Definition wsClose (s : Session) : Session :=
  {| page := page s;
     readyState := match readyState s with
                   | CLOSED => CLOSED
                   | _ => CLOSING
                   end;
     sent := sent s;
     heartbeatInterval := heartbeatInterval s;
     intervals := intervals s;
     nextInterval := nextInterval s |}.

(** The guard and the first lines of the effect:
    [if (!isHistoricalLoaded || !candleSeriesRef.current) return;] then a
    new socket.  The first effect has stored the series in the ref before
    this one runs. *)
Definition attach (st : PageState) : option Session :=
  if isHistoricalLoaded st then
    Some {| page := st;
            readyState := CONNECTING;
            sent := [];
            heartbeatInterval := None;
            intervals := [];
            nextInterval := 1%positive |}
  else None.

(** [ws.onopen].  Were the socket still connecting, [send] would throw
    and the handler would stop after the status change. *)
Definition onopen (s : Session) : Session :=
  let s := withPage (setStatus "Live") s in
  match readyState s with
  | CONNECTING => s
  | _ =>
      let s := wsSend (Subscribe "BTC/USD") s in
      setHeartbeatInterval s
  end.

(** The callback of the interval. *)
Definition heartbeat (s : Session) : Session :=
  match readyState s with
  | OPEN => wsSend Heartbeat s
  | _ => s
  end.

(** [ws.onclose]. *)
Definition onclose (s : Session) : Session :=
  let s := clearHeartbeatInterval s in
  withPage (setStatus "Disconnected") s.

(** [ws.onerror]. *)
Definition onerror (s : Session) : Session :=
  withPage (setStatus "Connection error") s.

(** The cleanup of the effect. *)
Definition cleanup (s : Session) : Session :=
  let s := clearHeartbeatInterval s in
  wsClose s.

(** What the host can do to a session: the socket opens, delivers a
    message, reports an error, starts closing at the peer's request,
    closes; an interval fires; the effect is cleaned up. *)
Inductive HostEvent : Type :=
| SocketOpens
| SocketDelivers (data : PriceEvent.t)
| SocketFails
| SocketStartsClosing
| SocketCloses
| IntervalFires (id : positive)
| EffectCleanedUp.

Definition setReadyState (r : ReadyState) (s : Session) : Session :=
  {| page := page s;
     readyState := r;
     sent := sent s;
     heartbeatInterval := heartbeatInterval s;
     intervals := intervals s;
     nextInterval := nextInterval s |}.

(** One event, when the host can raise it: a socket opens once, from
    connecting; it delivers messages only while open; it closes once; an
    interval fires only while it runs.  The host moves [readyState] before
    it calls the handler. *)
Definition step (h : Host) (e : HostEvent) (s : Session) : option Session :=
  match e with
  | SocketOpens =>
      match readyState s with
      | CONNECTING => Some (onopen (setReadyState OPEN s))
      | _ => None
      end
  | SocketDelivers data =>
      match readyState s with
      | OPEN => Some (withPage (onmessage h data) s)
      | _ => None
      end
  | SocketFails =>
      match readyState s with
      | CLOSED => None
      | _ => Some (onerror s)
      end
  | SocketStartsClosing =>
      match readyState s with
      | OPEN => Some (setReadyState CLOSING s)
      | _ => None
      end
  | SocketCloses =>
      match readyState s with
      | CLOSED => None
      | _ => Some (onclose (setReadyState CLOSED s))
      end
  | IntervalFires id =>
      if existsb (Pos.eqb id) (intervals s) then Some (heartbeat s) else None
  | EffectCleanedUp => Some (cleanup s)
  end.

(** A run of events, in order; [None] when the host cannot raise one. *)
Fixpoint run (h : Host) (events : list HostEvent) (s : Session)
  : option Session :=
  match events with
  | [] => Some s
  | e :: events' =>
      match step h e s with
      | Some s' => run h events' s'
      | None => None
      end
  end.

(** The price events a run delivers, in order. *)
Fixpoint delivered (events : list HostEvent) : list PriceEvent.t :=
  match events with
  | [] => []
  | SocketDelivers data :: events' => data :: delivered events'
  | _ :: events' => delivered events'
  end.

(** ** Summaries of a bucket *)

(** The highest and the lowest of a first price and those after it, as the
    handler accumulates them. *)
Definition highest (first : JS.number) (rest : list JS.number) : JS.number :=
  fold_left JS.Math_max rest first.

Definition lowest (first : JS.number) (rest : list JS.number) : JS.number :=
  fold_left JS.Math_min rest first.

(** The number of events of a run that pass the subscription test. *)
Definition acceptedCount (events : list PriceEvent.t) : nat :=
  List.length (List.filter accepted events).

(** A call is an update of the candle series. *)
Definition isUpdate (c : SinkCall) : bool :=
  match c with
  | CandleUpdate _ => true
  | _ => false
  end.

(** ** Predicates on sessions *)

(** What holds of a session as long as it runs: while the socket is
    connecting nothing was sent and no interval runs; at most one interval
    runs, the one the variable names, and only on a socket that is open or
    closing; what was sent is empty, on a socket that is not open, or the
    subscription followed by heartbeats. *)
Definition sessionInvariant (s : Session) : Prop :=
  (readyState s = CONNECTING ->
   sent s = [] /\ intervals s = [] /\ heartbeatInterval s = None)
  /\ (intervals s = []
      \/ exists id, intervals s = [id] /\ heartbeatInterval s = Some id
                    /\ (readyState s = OPEN \/ readyState s = CLOSING))
  /\ ((sent s = [] /\ readyState s <> OPEN)
      \/ exists n, sent s = Subscribe "BTC/USD" :: repeat Heartbeat n).

(** A session gone quiet: no interval runs and the socket is closing or
    closed. *)
Definition quiet (s : Session) : Prop :=
  intervals s = []
  /\ (readyState s = CLOSING \/ readyState s = CLOSED).

(** Two page states that differ in the status at most. *)
Definition sameButStatus (a b : PageState) : Prop :=
  currentCandleRef a = currentCandleRef b
  /\ currentPrice a = currentPrice b
  /\ isHistoricalLoaded a = isHistoricalLoaded b
  /\ errorMessage a = errorMessage b
  /\ sinkCalls a = sinkCalls b.

(** ** Notions used in the study of rounding *)

(** A shifted significand from which no set bit was shifted out. *)
Definition noBitLost (mrs : shr_record) : Prop :=
  shr_r mrs = false /\ shr_s mrs = false.

(** The double of significand [M] and exponent [E], or the infinity if
    the exponent is beyond the format. *)
Definition finiteOr (s : bool) (M : positive) (E : Z) : spec_float :=
  if E <=? 971 then S754_finite s M E else S754_infinity s.

(** The double that holds the integer [k], from 1 up to 2^53, with sign
    [s]: its significand has 53 digits. *)
Definition canonical (s : bool) (k : Z) : spec_float :=
  S754_finite s (Z.to_pos (k * 2 ^ (53 - Zdigits2 k))) (Zdigits2 k - 53).

(** The timestamps on which the arithmetic of the bucketing is exact:
    the integers from 0 up to 2^52, seconds of the epoch included for
    the next hundred million years. *)
Definition exactSeconds (t : Z) : Prop := 0 <= t < 2 ^ 52.

(** A tick whose timestamp lies in that range. *)
Definition exactTick (data : PriceEvent.t) : Prop :=
  exactSeconds (PriceEvent.timestamp data).

(** The first half of the invariant alone: the prices of the held candle,
    if any, are ordered. *)
Definition heldOrdered (st : PageState) : Prop :=
  match currentCandleRef st with
  | Some c => ohlcOrdered c
  | None => True
  end.

(** * Properties *)

(** ** The order on Numbers *)

Module NumberFacts.
Import JS.

Lemma compare_cont_Eq (m1 m2 : positive) :
  Pos.compare_cont Eq m1 m2 = (m1 ?= m2)%positive.
Proof. reflexivity. Qed.

Ltac order_cases :=
  repeat match goal with
         | |- context [ (?a ?= ?b)%positive ] =>
             destruct (Pos.compare_spec a b); simpl
         | |- context [ ?a ?= ?b ] =>
             destruct (Z.compare_spec a b); simpl
         | H : context [ (?a ?= ?b)%positive ] |- _ =>
             destruct (Pos.compare_spec a b); simpl in H
         | H : context [ ?a ?= ?b ] |- _ =>
             destruct (Z.compare_spec a b); simpl in H
         end;
  try reflexivity; try discriminate; try lia.

Lemma le_not_NaN (x y : number) :
  le x y = true -> isNaN x = false /\ isNaN y = false.
Proof.
  destruct x, y; simpl; intros H; try discriminate H; split; reflexivity.
Qed.

Lemma le_refl (x : number) : isNaN x = false -> le x x = true.
Proof.
  destruct x as [s|s| |s m e]; simpl; intros H; try discriminate H;
    unfold le, SFleb; simpl; try (destruct s; reflexivity).
  rewrite compare_cont_Eq.
  destruct s; rewrite Z.compare_refl, Pos.compare_refl; reflexivity.
Qed.

Lemma lt_le (x y : number) : lt x y = true -> le x y = true.
Proof.
  unfold lt, le, SFltb, SFleb.
  destruct (SFcompare x y) as [[ | | ]|]; intros H;
    try discriminate H; reflexivity.
Qed.

(** Two Numbers of which neither is NaN are comparable. *)
Lemma not_lt_le (x y : number) :
  isNaN x = false -> isNaN y = false -> lt x y = false -> le y x = true.
Proof.
  destruct x as [sx|sx| |sx mx ex], y as [sy|sy| |sy my ey];
    simpl; intros Hx Hy; try discriminate Hx; try discriminate Hy;
    unfold lt, le, SFltb, SFleb; simpl;
    repeat match goal with
           | s : bool |- _ => destruct s
           end;
    simpl; intros H; try discriminate H; try reflexivity;
    rewrite ?compare_cont_Eq in *;
    revert H; order_cases.
Qed.

Lemma le_trans (x y z : number) :
  le x y = true -> le y z = true -> le x z = true.
Proof.
  destruct x as [sx|sx| |sx mx ex], y as [sy|sy| |sy my ey],
           z as [sz|sz| |sz mz ez];
    unfold le, SFleb; simpl; intros H1 H2;
    try discriminate H1; try discriminate H2; try reflexivity;
    repeat match goal with
           | s : bool |- _ => destruct s
           end;
    simpl in *; try discriminate H1; try discriminate H2; try reflexivity;
    rewrite ?compare_cont_Eq in *;
    revert H1 H2; order_cases.
Qed.

Lemma max_spec (x y : number) :
  isNaN x = false -> isNaN y = false ->
  le x (Math_max x y) = true /\ le y (Math_max x y) = true
  /\ (Math_max x y = x \/ Math_max x y = y).
Proof.
  intros Hx Hy. unfold Math_max. rewrite Hx, Hy. simpl.
  assert (G : le x (if lt x y then y else x) = true
              /\ le y (if lt x y then y else x) = true
              /\ ((if lt x y then y else x) = x
                  \/ (if lt x y then y else x) = y)).
  { destruct (lt x y) eqn:E.
    - repeat split; auto using lt_le, le_refl.
    - repeat split; auto using not_lt_le, le_refl. }
  destruct x as [[|]| | |], y as [[|]| | |]; try exact G;
    repeat split; auto.
Qed.

Lemma min_spec (x y : number) :
  isNaN x = false -> isNaN y = false ->
  le (Math_min x y) x = true /\ le (Math_min x y) y = true
  /\ (Math_min x y = x \/ Math_min x y = y).
Proof.
  intros Hx Hy. unfold Math_min. rewrite Hx, Hy. simpl.
  assert (G : le (if lt y x then y else x) x = true
              /\ le (if lt y x then y else x) y = true
              /\ ((if lt y x then y else x) = x
                  \/ (if lt y x then y else x) = y)).
  { destruct (lt y x) eqn:E.
    - repeat split; auto using lt_le, le_refl.
    - repeat split; auto using not_lt_le, le_refl. }
  destruct x as [[|]| | |], y as [[|]| | |]; try exact G;
    repeat split; auto.
Qed.

End NumberFacts.

(** ** Doubles that hold integers

    What the rounding of [binary_round_aux] does to a significand of 53
    digits or more, and from it: integers below 2^53 are doubles, the
    rounding of an integer keeps its sign, the floor of a quotient by 60
    is the integer quotient as long as the dividend is below 2^52, and
    [SFsub] and [SFmul] return the exact difference and product of
    integers as long as these are below 2^53. *)

Module DoubleFacts.

Lemma digits_bounds (p : positive) :
  2 ^ (Z.pos (digits2_pos p) - 1) <= Z.pos p < 2 ^ Z.pos (digits2_pos p).
Proof.
  induction p as [p IH|p IH|]; cbn [digits2_pos].
  - rewrite Pos2Z.inj_succ.
    replace (Z.succ (Z.pos (digits2_pos p)) - 1)
      with (Z.succ (Z.pos (digits2_pos p) - 1)) by lia.
    rewrite !Z.pow_succ_r by lia. lia.
  - rewrite Pos2Z.inj_succ.
    replace (Z.succ (Z.pos (digits2_pos p)) - 1)
      with (Z.succ (Z.pos (digits2_pos p) - 1)) by lia.
    rewrite !Z.pow_succ_r by lia. lia.
  - simpl. lia.
Qed.

Lemma digits_unique (p : positive) (d : Z) :
  2 ^ (d - 1) <= Z.pos p < 2 ^ d -> Z.pos (digits2_pos p) = d.
Proof.
  intros [L U]. destruct (digits_bounds p) as [L' U'].
  set (d' := Z.pos (digits2_pos p)) in *.
  assert (0 < d).
  { destruct (Z.ltb_spec 0 d); [assumption|]. exfalso.
    destruct (Z.eq_dec d 0) as [->|N]; [simpl in U; lia|].
    rewrite Z.pow_neg_r in U by lia. lia. }
  destruct (Z.lt_trichotomy d' d) as [C|[C|C]]; [|exact C|].
  - assert (2 ^ d' <= 2 ^ (d - 1)) by (apply Z.pow_le_mono_r; lia). lia.
  - assert (2 ^ d <= 2 ^ (d' - 1)) by (apply Z.pow_le_mono_r; lia). lia.
Qed.

Lemma shr_1_m (mrs : shr_record) :
  0 <= shr_m mrs -> shr_m (shr_1 mrs) = shr_m mrs / 2.
Proof.
  destruct mrs as [m r s]. cbn [shr_m]. intros H.
  destruct m as [|[p|p|]|p]; cbn [shr_1 shr_m]; try lia.
  - reflexivity.
  - rewrite Pos2Z.inj_xI. apply Z.div_unique with 1; lia.
  - change (Z.pos p~0) with (2 * Z.pos p). apply Z.div_unique with 0; lia.
  - reflexivity.
Qed.

Lemma iter_shr_m (p : positive) :
  forall mrs, 0 <= shr_m mrs ->
  shr_m (iter_pos shr_1 p mrs) = shr_m mrs / 2 ^ Z.pos p.
Proof.
  induction p as [p IH|p IH|]; intros mrs H; cbn [iter_pos].
  - assert (H1 : 0 <= shr_m (shr_1 mrs)).
    { rewrite shr_1_m by assumption. apply Z.div_pos; lia. }
    assert (H2 : 0 <= shr_m (iter_pos shr_1 p (shr_1 mrs))).
    { rewrite IH by assumption. apply Z.div_pos; lia. }
    rewrite IH, IH, shr_1_m by assumption.
    rewrite !Z.div_div by lia.
    f_equal. rewrite Pos2Z.inj_xI.
    replace (2 * Z.pos p + 1) with (1 + Z.pos p + Z.pos p) by lia.
    rewrite !Z.pow_add_r by lia. change (2 ^ 1) with 2. ring.
  - assert (H2 : 0 <= shr_m (iter_pos shr_1 p mrs)).
    { rewrite IH by assumption. apply Z.div_pos; lia. }
    rewrite IH, IH by assumption.
    rewrite !Z.div_div by lia.
    f_equal. change (Z.pos p~0) with (2 * Z.pos p).
    replace (2 * Z.pos p) with (Z.pos p + Z.pos p) by lia.
    rewrite !Z.pow_add_r by lia. ring.
  - rewrite shr_1_m by assumption. reflexivity.
Qed.

Lemma shr_1_exact (mrs : shr_record) :
  0 <= shr_m mrs -> (2 | shr_m mrs) -> noBitLost mrs -> noBitLost (shr_1 mrs).
Proof.
  destruct mrs as [m r s]. unfold noBitLost. cbn [shr_m shr_r shr_s].
  intros H [k Hk] [-> ->].
  destruct m as [|[p|p|]|p]; cbn; try lia; auto.
Qed.

Lemma iter_shr_exact (p : positive) :
  forall mrs, 0 <= shr_m mrs -> (2 ^ Z.pos p | shr_m mrs) -> noBitLost mrs ->
  noBitLost (iter_pos shr_1 p mrs).
Proof.
  induction p as [p IH|p IH|]; intros mrs H [k Hk] E; cbn [iter_pos].
  - rewrite Pos2Z.inj_xI in Hk.
    replace (2 * Z.pos p + 1) with (1 + Z.pos p + Z.pos p) in Hk by lia.
    rewrite !Z.pow_add_r in Hk by lia. change (2 ^ 1) with 2 in Hk.
    assert (H1 : shr_m (shr_1 mrs) = k * 2 ^ Z.pos p * 2 ^ Z.pos p).
    { rewrite shr_1_m by assumption. rewrite Hk.
      replace (k * (2 * 2 ^ Z.pos p * 2 ^ Z.pos p))
        with (k * 2 ^ Z.pos p * 2 ^ Z.pos p * 2) by ring.
      apply Z.div_mul. lia. }
    assert (P : 0 < 2 ^ Z.pos p) by (apply Z.pow_pos_nonneg; lia).
    assert (H0 : 0 <= shr_m (shr_1 mrs)).
    { rewrite shr_1_m by assumption. apply Z.div_pos; lia. }
    assert (H2 : shr_m (iter_pos shr_1 p (shr_1 mrs)) = k * 2 ^ Z.pos p).
    { rewrite iter_shr_m by assumption. rewrite H1. apply Z.div_mul. lia. }
    apply IH.
    + rewrite H2. rewrite H1 in H0. nia.
    + rewrite H2. exists k. reflexivity.
    + apply IH.
      * exact H0.
      * rewrite H1. exists (k * 2 ^ Z.pos p). reflexivity.
      * apply shr_1_exact; [assumption| |assumption].
        exists (k * 2 ^ Z.pos p * 2 ^ Z.pos p). rewrite Hk. ring.
  - change (Z.pos p~0) with (2 * Z.pos p) in Hk.
    replace (2 * Z.pos p) with (Z.pos p + Z.pos p) in Hk by lia.
    rewrite !Z.pow_add_r in Hk by lia.
    assert (P : 0 < 2 ^ Z.pos p) by (apply Z.pow_pos_nonneg; lia).
    assert (H2 : shr_m (iter_pos shr_1 p mrs) = k * 2 ^ Z.pos p).
    { rewrite iter_shr_m by assumption. rewrite Hk.
      rewrite Z.mul_assoc. apply Z.div_mul. lia. }
    apply IH.
    + rewrite H2. nia.
    + rewrite H2. exists k. reflexivity.
    + apply IH; [assumption| |assumption].
      exists (k * 2 ^ Z.pos p). rewrite Hk. ring.
  - apply shr_1_exact; [assumption|exists k; exact Hk|assumption].
Qed.

Lemma record_of_loc_m (m : Z) (l : location) :
  shr_m (shr_record_of_loc m l) = m.
Proof. destruct l as [|[]]; reflexivity. Qed.

Lemma loc_of_record_of_loc (m : Z) (l : location) :
  loc_of_shr_record (shr_record_of_loc m l) = l.
Proof. destruct l as [|[]]; reflexivity. Qed.

Lemma loc_of_exact (mrs : shr_record) :
  noBitLost mrs -> loc_of_shr_record mrs = loc_Exact.
Proof. destruct mrs as [m r s]. intros [H1 H2]. cbn in *. subst. reflexivity. Qed.

Lemma round_nearest_even_bounds (m : Z) (l : location) :
  m <= round_nearest_even m l <= m + 1.
Proof.
  destruct l as [|[]]; cbn [round_nearest_even]; try lia.
  destruct (Z.even m); lia.
Qed.

(** The first shift of [binary_round_aux]: a mantissa of [53 + p] digits
    loses its [p] low digits. *)
Lemma shr_fexp_long (m : positive) (e : Z) (l : location) :
  let d := Z.pos (digits2_pos m) in
  53 <= d -> -1074 <= e + (d - 53) ->
  exists mrs,
    shr_fexp 53 1024 (Z.pos m) e l = (mrs, e + (d - 53))
    /\ shr_m mrs = Z.pos m / 2 ^ (d - 53)
    /\ (l = loc_Exact -> (2 ^ (d - 53) | Z.pos m) -> noBitLost mrs).
Proof.
  intros d Hd He. unfold shr_fexp. cbn [Zdigits2]. fold d.
  unfold fexp, emin. rewrite Z.max_l by lia.
  replace (d + e - 53 - e) with (d - 53) by lia.
  destruct (d - 53) as [|p|p] eqn:P; try lia.
  - cbn [shr]. eexists. split; [rewrite Z.add_0_r; reflexivity|].
    split.
    + rewrite record_of_loc_m. simpl. rewrite Z.div_1_r. reflexivity.
    + intros -> _. split; reflexivity.
  - cbn [shr]. eexists. split; [reflexivity|]. split.
    + rewrite iter_shr_m; rewrite record_of_loc_m; [reflexivity|lia].
    + intros -> Hdiv. apply iter_shr_exact; cbn; [lia|assumption|split; reflexivity].
Qed.

Lemma shr_fexp_53 (m : positive) (e : Z) :
  Z.pos (digits2_pos m) = 53 -> -1074 <= e ->
  shr_fexp 53 1024 (Z.pos m) e loc_Exact
  = ({| shr_m := Z.pos m; shr_r := false; shr_s := false |}, e).
Proof.
  intros Hd He. unfold shr_fexp. cbn [Zdigits2]. rewrite Hd.
  unfold fexp, emin. rewrite Z.max_l by lia.
  replace (53 + e - 53 - e) with 0 by lia. reflexivity.
Qed.

Lemma binary_round_aux_long (s : bool) (m : positive) (e : Z) (l : location) :
  let d := Z.pos (digits2_pos m) in
  53 <= d -> -1074 <= e + (d - 53) ->
  exists M1 : positive,
    Z.pos m / 2 ^ (d - 53) <= Z.pos M1 <= Z.pos m / 2 ^ (d - 53) + 1
    /\ (l = loc_Exact -> (2 ^ (d - 53) | Z.pos m) ->
        Z.pos M1 = Z.pos m / 2 ^ (d - 53))
    /\ binary_round_aux 53 1024 s (Z.pos m) e l
       = if Z.pos M1 <? 2 ^ 53 then finiteOr s M1 (e + (d - 53))
         else finiteOr s (2 ^ 52)%positive (e + (d - 53) + 1).
Proof.
  intros d Hd He.
  destruct (shr_fexp_long m e l Hd He) as (mrs & E1 & Hm & Hex). fold d in E1, Hm, Hex.
  destruct (digits_bounds m) as [L U]. fold d in L, U.
  assert (P : 0 < 2 ^ (d - 53)) by (apply Z.pow_pos_nonneg; lia).
  assert (B : 2 ^ 52 <= Z.pos m / 2 ^ (d - 53) < 2 ^ 53).
  { split.
    - apply Z.div_le_lower_bound; [assumption|].
      rewrite <- Z.pow_add_r by lia. replace (d - 53 + 52) with (d - 1) by lia. exact L.
    - apply Z.div_lt_upper_bound; [assumption|].
      rewrite <- Z.pow_add_r by lia. replace (d - 53 + 53) with d by lia. exact U. }
  set (m0 := Z.pos m / 2 ^ (d - 53)) in *.
  pose proof (round_nearest_even_bounds (shr_m mrs) (loc_of_shr_record mrs)) as R.
  remember (round_nearest_even (shr_m mrs) (loc_of_shr_record mrs)) as r eqn:EM.
  rewrite Hm in R.
  destruct r as [|M|M]; try lia.
  exists M. split; [exact R|]. split.
  { intros Hl Hdiv. specialize (Hex Hl Hdiv).
    rewrite EM, (loc_of_exact _ Hex). cbn [round_nearest_even]. exact Hm. }
  unfold binary_round_aux. rewrite E1. rewrite <- EM.
  destruct (Z.ltb_spec (Z.pos M) (2 ^ 53)) as [C|C].
  - rewrite shr_fexp_53; [|apply digits_unique; lia|lia].
    cbn [shr_m]. reflexivity.
  - assert (E53 : M = (2 ^ 53)%positive) by lia. rewrite E53.
    unfold shr_fexp. cbn [Zdigits2].
    replace (Z.pos (digits2_pos (2 ^ 53))) with 54 by reflexivity.
    unfold fexp, emin. rewrite Z.max_l by lia.
    replace (54 + (e + (d - 53)) - 53 - (e + (d - 53))) with 1 by lia.
    cbn [shr shr_record_of_loc iter_pos shr_1 shr_m].
    reflexivity.
Qed.

Lemma iter_xO (k m : positive) :
  Z.pos (Pos.iter xO m k) = Z.pos m * 2 ^ Z.pos k.
Proof.
  induction k as [|k IH] using Pos.peano_ind.
  - cbn [Pos.iter]. change (Z.pos m~0) with (2 * Z.pos m). simpl (2 ^ 1). lia.
  - rewrite Pos.iter_succ, Pos2Z.inj_succ, Z.pow_succ_r by lia.
    change (Z.pos (Pos.iter xO m k)~0) with (2 * Z.pos (Pos.iter xO m k)).
    rewrite IH. ring.
Qed.

Lemma toZ_scaled (s : bool) (M : positive) (E V p j : Z) :
  0 <= p -> 0 <= j -> E = p - j -> Z.pos M * 2 ^ p = V * 2 ^ j ->
  JS.toZ (S754_finite s M E) = cond_Zopp s V.
Proof.
  intros Hp Hj -> H. cbn [JS.toZ]. f_equal.
  assert (J : 0 < 2 ^ j) by (apply Z.pow_pos_nonneg; lia).
  destruct (Z.leb_spec 0 (p - j)) as [C|C].
  - replace p with (p - j + j) in H by lia.
    rewrite Z.pow_add_r in H by lia.
    rewrite Z.mul_assoc in H. apply Z.mul_reg_r in H; lia.
  - replace j with (- (p - j) + p) in H by lia.
    rewrite Z.pow_add_r in H by lia.
    rewrite Z.mul_assoc in H.
    assert (P : 0 < 2 ^ p) by (apply Z.pow_pos_nonneg; lia).
    apply Z.mul_reg_r in H; [|lia].
    rewrite H. apply Z.div_mul.
    assert (0 < 2 ^ (- (p - j))) by (apply Z.pow_pos_nonneg; lia). lia.
Qed.

Lemma binary_round_short (s : bool) (m : positive) :
  let d := Z.pos (digits2_pos m) in
  d < 53 ->
  binary_round 53 1024 s m 0
  = S754_finite s (Pos.iter xO m (Z.to_pos (53 - d))) (d - 53).
Proof.
  intros d Hd. unfold binary_round. fold d.
  unfold fexp, emin. rewrite Z.max_l by lia.
  unfold shl_align.
  replace (d + 0 - 53 - 0) with (- (53 - d)) by lia.
  destruct (53 - d) as [|k|k] eqn:K; try lia.
  cbn [Z.opp Z.to_pos].
  assert (D : Z.pos (digits2_pos (Pos.iter xO m k)) = 53).
  { apply digits_unique. rewrite iter_xO.
    destruct (digits_bounds m) as [L U]. fold d in L, U.
    assert (P : 0 < 2 ^ Z.pos k) by (apply Z.pow_pos_nonneg; lia).
    replace (2 ^ (53 - 1)) with (2 ^ (d - 1) * 2 ^ Z.pos k)
      by (rewrite <- Z.pow_add_r by lia; f_equal; lia).
    replace (2 ^ 53) with (2 ^ d * 2 ^ Z.pos k)
      by (rewrite <- Z.pow_add_r by lia; f_equal; lia).
    nia. }
  unfold binary_round_aux.
  rewrite shr_fexp_53 by (assumption || lia).
  cbn [shr_m round_nearest_even loc_of_shr_record].
  rewrite shr_fexp_53 by (assumption || lia).
  cbn [shr_m].
  replace (d + 0 - 53) with (d - 53) by lia.
  destruct (Z.leb_spec (d - 53) (1024 - 53)); [reflexivity|lia].
Qed.

Lemma binary_round_long (s : bool) (m : positive) :
  53 <= Z.pos (digits2_pos m) ->
  binary_round 53 1024 s m 0
  = binary_round_aux 53 1024 s (Z.pos m) 0 loc_Exact.
Proof.
  intros Hd. unfold binary_round.
  unfold fexp, emin. rewrite Z.max_l by lia.
  unfold shl_align.
  destruct (Z.pos (digits2_pos m) + 0 - 53 - 0) eqn:K; try lia; reflexivity.
Qed.

(** What [binary_round] makes of an integer: the integer itself below
    2^53, and above it a value of the same sign. *)
Lemma toZ_binary_round (s : bool) (m : positive) :
  exists V, JS.toZ (binary_round 53 1024 s m 0) = cond_Zopp s V
            /\ 0 < V /\ (Z.pos m < 2 ^ 53 -> V = Z.pos m).
Proof.
  destruct (digits_bounds m) as [L U].
  set (d := Z.pos (digits2_pos m)) in *.
  destruct (Z.ltb_spec d 53) as [C|C].
  - exists (Z.pos m). rewrite binary_round_short by exact C. fold d.
    split; [|split; [lia|reflexivity]].
    apply (toZ_scaled _ _ _ _ 0 (53 - d)); try lia.
    rewrite iter_xO. rewrite Z2Pos.id by lia. simpl (2 ^ 0). ring.
  - rewrite binary_round_long by exact C.
    destruct (binary_round_aux_long s m 0 loc_Exact) as (M1 & B & X & ->);
      fold d; try lia.
    fold d in B, X.
    assert (P : 0 < 2 ^ (d - 53)) by (apply Z.pow_pos_nonneg; lia).
    assert (small : Z.pos m < 2 ^ 53 -> d = 53).
    { intros S. destruct (Z.eq_dec d 53) as [|N]; [assumption|]. exfalso.
      assert (2 ^ 53 <= 2 ^ (d - 1)) by (apply Z.pow_le_mono_r; lia). lia. }
    destruct (Z.ltb_spec (Z.pos M1) (2 ^ 53)) as [C1|C1]; unfold finiteOr.
    + destruct (Z.leb_spec (0 + (d - 53)) 971) as [C2|C2].
      * exists (Z.pos M1 * 2 ^ (d - 53)). split; [|split].
        -- cbn [JS.toZ]. destruct (Z.leb_spec 0 (0 + (d - 53))); [|lia].
           rewrite Z.add_0_l. reflexivity.
        -- nia.
        -- intros S. rewrite (small S) in *. simpl (2 ^ (53 - 53)) in *.
           rewrite X; [rewrite Z.div_1_r; ring|reflexivity|apply Z.divide_1_l].
      * exists (2 ^ 1024). split; [reflexivity|]. split; [reflexivity|].
        intros S. rewrite (small S) in C2. simpl in C2. lia.
    + destruct (Z.leb_spec (0 + (d - 53) + 1) 971) as [C2|C2].
      * exists (2 ^ 52 * 2 ^ (d - 53 + 1)). split; [|split].
        -- cbn [JS.toZ]. destruct (Z.leb_spec 0 (0 + (d - 53) + 1)); [|lia].
           rewrite Z.add_0_l. reflexivity.
        -- assert (0 < 2 ^ (d - 53 + 1)) by (apply Z.pow_pos_nonneg; lia). nia.
        -- intros S. exfalso. rewrite (small S) in *. simpl (2 ^ (53 - 53)) in *.
           rewrite X in C1; [|reflexivity|apply Z.divide_1_l].
           rewrite Z.div_1_r in C1. lia.
      * exists (2 ^ 1024). split; [reflexivity|]. split; [reflexivity|].
        intros S. rewrite (small S) in C2. simpl in C2. lia.
Qed.

Lemma rounded_exact (z : Z) : Z.abs z < 2 ^ 53 -> JS.rounded z = z.
Proof.
  intros H. unfold JS.rounded, JS.ofZ, binary_normalize, JS.prec, JS.emax.
  destruct z as [|m|m].
  - reflexivity.
  - destruct (toZ_binary_round false m) as (V & -> & _ & E).
    cbn [cond_Zopp]. apply E. exact H.
  - destruct (toZ_binary_round true m) as (V & -> & _ & E).
    cbn [cond_Zopp]. rewrite E; [reflexivity|exact H].
Qed.

Lemma rounded_sign (z : Z) : (JS.rounded z <? 0) = (z <? 0).
Proof.
  unfold JS.rounded, JS.ofZ, binary_normalize, JS.prec, JS.emax.
  destruct z as [|m|m].
  - reflexivity.
  - destruct (toZ_binary_round false m) as (V & -> & P & _).
    cbn [cond_Zopp]. destruct (Z.ltb_spec V 0); [lia|reflexivity].
  - destruct (toZ_binary_round true m) as (V & -> & P & _).
    cbn [cond_Zopp]. destruct (Z.ltb_spec (- V) 0); [reflexivity|lia].
Qed.

Lemma ofZ_60 : JS.ofZ 60 = S754_finite false 8444249301319680 (-47).
Proof. vm_compute. reflexivity. Qed.

Lemma div_core_60 (M : positive) (e : Z) :
  Z.pos (digits2_pos M) = 53 -> -1000 <= e ->
  exists l,
    SFdiv_core_binary 53 1024 (Z.pos M) e 8444249301319680 (-47)
    = (Z.pos M * 16 / 15, e - 6, l).
Proof.
  intros Hd He. unfold SFdiv_core_binary. cbn [Zdigits2]. rewrite Hd.
  change (Z.pos (digits2_pos 8444249301319680)) with 53.
  unfold fexp, emin. rewrite Z.max_l by lia. rewrite Z.min_l by lia.
  replace (e - -47 - (53 + e - (53 + -47) - 53)) with 53 by lia.
  rewrite Z.shiftl_mul_pow2 by lia.
  destruct (Z.div_eucl (Z.pos M * 2 ^ 53) 8444249301319680) as [q r] eqn:E.
  exists (new_location 8444249301319680 r). f_equal. f_equal; [|lia].
  assert (Q : q = Z.pos M * 2 ^ 53 / 8444249301319680).
  { unfold Z.div. rewrite E. reflexivity. }
  rewrite Q.
  change (2 ^ 53) with (16 * 562949953421312).
  change 8444249301319680 with (15 * 562949953421312).
  rewrite Z.mul_assoc. apply Z.div_mul_cancel_r; lia.
Qed.

Lemma Math_floor_div_60 (t : Z) :
  0 <= t < 2 ^ 52 ->
  JS.Math_floor (SFdiv JS.prec JS.emax (JS.ofZ t) (JS.ofZ 60)) = JS.ofZ (t / 60).
Proof.
  intros [H0 H1]. rewrite ofZ_60.
  destruct t as [|m|m]; [reflexivity| |lia].
  destruct (digits_bounds m) as [L U].
  set (d := Z.pos (digits2_pos m)) in *.
  assert (Hd : d <= 52).
  { destruct (Z.leb_spec d 52); [assumption|]. exfalso.
    assert (2 ^ 52 <= 2 ^ (d - 1)) by (apply Z.pow_le_mono_r; lia). lia. }
  assert (Hd1 : 1 <= d) by (unfold d; lia).
  unfold JS.ofZ at 1. unfold binary_normalize, JS.prec, JS.emax.
  rewrite binary_round_short by (fold d; lia). fold d.
  set (k := 53 - d) in *.
  set (M := Pos.iter xO m (Z.to_pos k)).
  assert (EM : Z.pos M = Z.pos m * 2 ^ k).
  { unfold M. rewrite iter_xO, Z2Pos.id by lia. reflexivity. }
  assert (K : 0 < 2 ^ k) by (apply Z.pow_pos_nonneg; lia).
  assert (BM : 2 ^ 52 <= Z.pos M < 2 ^ 53).
  { rewrite EM.
    replace (2 ^ 52) with (2 ^ (d - 1) * 2 ^ k)
      by (rewrite <- Z.pow_add_r by lia; f_equal; lia).
    replace (2 ^ 53) with (2 ^ d * 2 ^ k)
      by (rewrite <- Z.pow_add_r by lia; f_equal; lia).
    nia. }
  assert (DM : Z.pos (digits2_pos M) = 53) by (apply digits_unique; exact BM).
  cbn [SFdiv xorb].
  destruct (div_core_60 M (d - 53) DM) as [l ->]; [lia|].
  assert (BQ : 2 ^ 52 <= Z.pos M * 16 / 15 < 2 ^ 54).
  { split.
    - apply Z.div_le_lower_bound; lia.
    - apply Z.div_lt_upper_bound; lia. }
  destruct (Z.pos M * 16 / 15) as [|Q|Q] eqn:EQ; try lia.
  destruct (digits_bounds Q) as [LQ UQ].
  set (dq := Z.pos (digits2_pos Q)) in *.
  assert (Hq : 53 <= dq <= 54).
  { split.
    - destruct (Z.leb_spec 53 dq); [assumption|]. exfalso.
      assert (2 ^ dq <= 2 ^ 52) by (apply Z.pow_le_mono_r; lia). lia.
    - destruct (Z.leb_spec dq 54); [assumption|]. exfalso.
      assert (2 ^ 54 <= 2 ^ (dq - 1)) by (apply Z.pow_le_mono_r; lia). lia. }
  destruct (binary_round_aux_long false Q (d - 53 - 6) l) as (M1 & B & _ & ->);
    fold dq; try lia.
  fold dq in B.
  set (p := dq - 53) in *.
  set (g := k + 6 - p).
  assert (Hg : 6 <= g) by (unfold g, p, k; lia).
  replace (d - 53 - 6 + p) with (- g) by (unfold g, k; lia).
  (* the floor of the quotient, whichever way it was rounded *)
  assert (F : JS.Math_floor
                (if Z.pos M1 <? 2 ^ 53 then finiteOr false M1 (- g)
                 else finiteOr false (2 ^ 52) (- g + 1))
              = JS.ofZ (Z.pos M1 / 2 ^ g)).
  { assert (G : 0 < 2 ^ g) by (apply Z.pow_pos_nonneg; lia).
    destruct (Z.ltb_spec (Z.pos M1) (2 ^ 53)) as [C|C]; unfold finiteOr.
    - destruct (Z.leb_spec (- g) 971); [|lia].
      cbn [JS.Math_floor]. destruct (Z.leb_spec 0 (- g)); [lia|].
      cbn [cond_Zopp]. rewrite Z.opp_involutive. reflexivity.
    - assert (Z.pos M1 = 2 ^ 53).
      { assert (Z.pos Q / 2 ^ p < 2 ^ 53).
        { apply Z.div_lt_upper_bound; [apply Z.pow_pos_nonneg; unfold p; lia|].
          rewrite <- Z.pow_add_r by (unfold p; lia).
          replace (p + 53) with dq by (unfold p; lia). exact UQ. }
        lia. }
      destruct (Z.leb_spec (- g + 1) 971); [|lia].
      cbn [JS.Math_floor]. destruct (Z.leb_spec 0 (- g + 1)); [lia|].
      cbn [cond_Zopp].
      replace (- (- g + 1)) with (g - 1) by lia.
      assert (G1 : 0 < 2 ^ (g - 1)) by (apply Z.pow_pos_nonneg; lia).
      f_equal. rewrite H.
      change (2 ^ 53) with (2 ^ 52 * 2).
      replace (2 ^ g) with (2 ^ (g - 1) * 2)
        by (rewrite Z.mul_comm, <- Z.pow_succ_r by lia; f_equal; lia).
      rewrite Z.div_mul_cancel_r by lia. reflexivity. }
  transitivity (JS.ofZ (Z.pos M1 / 2 ^ g)); [exact F|]. clear F.
  f_equal.
  (* arithmetic: the kept digits determine the floor *)
  set (H := 2 ^ (g - 2)).
  assert (HH : 16 <= H).
  { unfold H. change 16 with (2 ^ 4). apply Z.pow_le_mono_r; lia. }
  assert (G4 : 2 ^ g = 4 * H).
  { unfold H. change 4 with (2 ^ 2). rewrite <- Z.pow_add_r by lia.
    f_equal. lia. }
  assert (P : 0 < 2 ^ p) by (apply Z.pow_pos_nonneg; unfold p; lia).
  assert (E0 : Z.pos Q / 2 ^ p = Z.pos m * H / 15).
  { rewrite <- EQ, EM. rewrite Z.div_div by lia.
    replace (Z.pos m * 2 ^ k * 16) with (Z.pos m * H * 2 ^ p).
    - rewrite Z.div_mul_cancel_r by lia. reflexivity.
    - unfold H. rewrite <- !Z.mul_assoc. f_equal.
      change 16 with (2 ^ 4). rewrite <- !Z.pow_add_r by (unfold p; lia).
      f_equal. unfold g. lia. }
  rewrite E0 in B. rewrite G4.
  pose proof (Z.div_mod (Z.pos m) 60 ltac:(lia)) as DM60.
  pose proof (Z.mod_pos_bound (Z.pos m) 60 ltac:(lia)) as R60.
  set (q60 := Z.pos m / 60) in *. set (r60 := Z.pos m mod 60) in *.
  assert (E1 : Z.pos m * H / 15 = 4 * H * q60 + r60 * H / 15).
  { rewrite DM60.
    replace ((60 * q60 + r60) * H) with (r60 * H + (4 * H * q60) * 15) by ring.
    rewrite Z.div_add by lia. ring. }
  rewrite E1 in B.
  assert (W : 0 <= r60 * H / 15 <= 4 * H - 2).
  { split; [apply Z.div_pos; nia|].
    assert (r60 * H / 15 < 4 * H - 1); [|lia].
    apply Z.div_lt_upper_bound; nia. }
  symmetry. apply Z.div_unique with (Z.pos M1 - 4 * H * q60); lia.
Qed.

Lemma floor_div_60 (t : Z) : 0 <= t < 2 ^ 52 -> JS.floor_div t 60 = t / 60.
Proof.
  intros H. unfold JS.floor_div. rewrite (Math_floor_div_60 t H).
  apply rounded_exact.
  assert (0 <= t / 60) by (apply Z.div_pos; lia).
  assert (t / 60 <= t) by (apply Z.div_le_upper_bound; lia).
  assert (2 ^ 52 < 2 ^ 53) by reflexivity.
  rewrite Z.abs_eq; lia.
Qed.

(** *** Exact results *)

Lemma Zdigits2_bounds (k : Z) :
  0 < k -> 2 ^ (Zdigits2 k - 1) <= k < 2 ^ Zdigits2 k.
Proof. destruct k as [|p|p]; try lia. intros _. apply digits_bounds. Qed.

Lemma Zdigits2_unique (k d : Z) :
  0 < k -> 2 ^ (d - 1) <= k < 2 ^ d -> Zdigits2 k = d.
Proof. destruct k as [|p|p]; try lia. intros _. apply digits_unique. Qed.

Lemma Zdigits2_shift (k j : Z) :
  0 < k -> 0 <= j -> Zdigits2 (k * 2 ^ j) = Zdigits2 k + j.
Proof.
  intros Hk Hj. destruct (Zdigits2_bounds k Hk) as [L U].
  assert (J : 0 < 2 ^ j) by (apply Z.pow_pos_nonneg; lia).
  assert (D : 0 < Zdigits2 k) by (destruct k; simpl; lia).
  apply Zdigits2_unique; [nia|].
  replace (Zdigits2 k + j - 1) with (Zdigits2 k - 1 + j) by lia.
  rewrite !Z.pow_add_r by lia. nia.
Qed.

Lemma Zdigits2_le (k : Z) (n : Z) :
  0 < k -> k < 2 ^ n -> Zdigits2 k <= n.
Proof.
  intros Hk Hn. destruct (Zdigits2_bounds k Hk) as [L _].
  destruct (Z.leb_spec (Zdigits2 k) n); [assumption|]. exfalso.
  assert (2 ^ n <= 2 ^ (Zdigits2 k - 1)) by (apply Z.pow_le_mono_r; lia). lia.
Qed.

Lemma Zdigits2_pos (k : Z) : 0 < k -> 1 <= Zdigits2 k.
Proof. destruct k; simpl; lia. Qed.

(** A significand that is [k] followed by zeros, [k] below 2^53, is
    rounded to [k] exactly. *)
Lemma binary_round_aux_exact (s : bool) (m : positive) (e k j : Z) :
  0 < k < 2 ^ 53 -> 0 <= j -> Z.pos m = k * 2 ^ j ->
  53 <= Zdigits2 k + j ->
  -1074 <= e + j + Zdigits2 k - 53 <= 971 ->
  binary_round_aux 53 1024 s (Z.pos m) e loc_Exact
  = S754_finite s (Z.to_pos (k * 2 ^ (53 - Zdigits2 k)))
                (e + j + Zdigits2 k - 53).
Proof.
  intros [Hk0 Hk1] Hj Em Hd He.
  pose proof (Zdigits2_shift k j Hk0 Hj) as Dm. rewrite <- Em in Dm.
  cbn [Zdigits2] in Dm.
  pose proof (Zdigits2_le k 53 Hk0 Hk1) as Dk.
  pose proof (Zdigits2_pos k Hk0) as Dk1.
  destruct (Zdigits2_bounds k Hk0) as [L U].
  set (dk := Zdigits2 k) in *.
  destruct (binary_round_aux_long s m e loc_Exact) as (M1 & _ & X & ->);
    rewrite ?Dm; try lia.
  rewrite Dm in X.
  set (p := dk + j - 53) in *.
  assert (P : 0 < 2 ^ p) by (apply Z.pow_pos_nonneg; unfold p; lia).
  assert (Es : Z.pos m = k * 2 ^ (53 - dk) * 2 ^ p).
  { rewrite Em, <- Z.mul_assoc, <- Z.pow_add_r by (unfold p; lia).
    do 2 f_equal. unfold p. lia. }
  assert (E1 : Z.pos M1 = k * 2 ^ (53 - dk)).
  { rewrite X; [|reflexivity|exists (k * 2 ^ (53 - dk)); exact Es].
    rewrite Es. apply Z.div_mul. lia. }
  assert (B : Z.pos M1 < 2 ^ 53).
  { rewrite E1.
    replace (2 ^ 53) with (2 ^ dk * 2 ^ (53 - dk))
      by (rewrite <- Z.pow_add_r by lia; f_equal; lia).
    assert (0 < 2 ^ (53 - dk)) by (apply Z.pow_pos_nonneg; lia). nia. }
  destruct (Z.ltb_spec (Z.pos M1) (2 ^ 53)); [|lia].
  unfold finiteOr. replace (e + p) with (e + j + dk - 53) by (unfold p; lia).
  destruct (Z.leb_spec (e + j + dk - 53) 971); [|lia].
  rewrite <- E1. reflexivity.
Qed.

Lemma binary_round_exact (s : bool) (m : positive) (k j : Z) :
  0 < k < 2 ^ 53 -> 0 <= j -> Z.pos m = k * 2 ^ j ->
  binary_round 53 1024 s m (- j) = canonical s k.
Proof.
  intros [Hk0 Hk1] Hj Em.
  pose proof (Zdigits2_shift k j Hk0 Hj) as Dm. rewrite <- Em in Dm.
  cbn [Zdigits2] in Dm.
  pose proof (Zdigits2_le k 53 Hk0 Hk1) as Dk.
  pose proof (Zdigits2_pos k Hk0) as Dk1.
  unfold binary_round, canonical. rewrite Dm.
  set (dk := Zdigits2 k) in *.
  unfold fexp, emin. rewrite Z.max_l by lia.
  unfold shl_align.
  replace (dk + j + - j - 53 - - j) with (dk + j - 53) by lia.
  destruct (dk + j - 53) as [|q|q] eqn:Q.
  - rewrite (binary_round_aux_exact s m (- j) k j); try lia.
    f_equal. fold dk. lia.
  - rewrite (binary_round_aux_exact s m (- j) k j); try lia.
    f_equal. fold dk. lia.
  - rewrite (binary_round_aux_exact s _ (dk + j + - j - 53) k (53 - dk));
      fold dk; try lia.
    + f_equal. lia.
    + rewrite iter_xO, Em, <- Z.mul_assoc, <- Z.pow_add_r by lia.
      do 2 f_equal. lia.
Qed.

Lemma ofZ_canonical (z : Z) :
  z <> 0 -> Z.abs z < 2 ^ 53 -> JS.ofZ z = canonical (z <? 0) (Z.abs z).
Proof.
  intros Hz Hb. unfold JS.ofZ, binary_normalize, JS.prec, JS.emax.
  destruct z as [|m|m]; [congruence| |].
  - apply (binary_round_exact false m (Z.pos m) 0); simpl in *; lia.
  - apply (binary_round_exact true m (Z.pos m) 0); simpl in *; lia.
Qed.

Lemma canonical_value (s : bool) (k : Z) :
  0 < k < 2 ^ 53 -> JS.toZ (canonical s k) = cond_Zopp s k.
Proof.
  intros [Hk0 Hk1]. unfold canonical.
  pose proof (Zdigits2_le k 53 Hk0 Hk1) as Dk.
  assert (P : 0 < 2 ^ (53 - Zdigits2 k)) by (apply Z.pow_pos_nonneg; lia).
  apply (toZ_scaled _ _ _ _ 0 (53 - Zdigits2 k)); [lia|lia|lia|].
  rewrite Z2Pos.id by nia. simpl (2 ^ 0). ring.
Qed.

(** The significand of a canonical double, as an integer. *)
Lemma canonical_significand (k : Z) :
  0 < k < 2 ^ 53 ->
  Z.pos (Z.to_pos (k * 2 ^ (53 - Zdigits2 k))) = k * 2 ^ (53 - Zdigits2 k).
Proof.
  intros [Hk0 Hk1].
  pose proof (Zdigits2_le k 53 Hk0 Hk1) as Dk.
  assert (P : 0 < 2 ^ (53 - Zdigits2 k)) by (apply Z.pow_pos_nonneg; lia).
  apply Z2Pos.id. nia.
Qed.

(** [SFsub] on integers below 2^52 in magnitude is the exact
    difference. *)
Lemma SFsub_exact (x y : Z) :
  Z.abs x < 2 ^ 52 -> Z.abs y < 2 ^ 52 ->
  SFsub JS.prec JS.emax (JS.ofZ x) (JS.ofZ y) = JS.ofZ (x - y).
Proof.
  intros Hx Hy.
  assert (B52 : 2 ^ 52 = 4503599627370496) by reflexivity.
  assert (B53 : 2 ^ 53 = 9007199254740992) by reflexivity.
  destruct (Z.eq_dec y 0) as [->|Ny].
  { rewrite Z.sub_0_r. change (JS.ofZ 0) with (S754_zero false).
    destruct (Z.eq_dec x 0) as [->|Nx]; [reflexivity|].
    rewrite ofZ_canonical by lia. reflexivity. }
  destruct (Z.eq_dec x 0) as [->|Nx].
  { change (JS.ofZ 0) with (S754_zero false).
    rewrite !ofZ_canonical by lia. cbn [SFsub canonical].
    rewrite Z.abs_opp. f_equal.
    destruct (Z.ltb_spec y 0), (Z.ltb_spec (0 - y) 0); try reflexivity; lia. }
  rewrite (ofZ_canonical x), (ofZ_canonical y) by lia.
  unfold canonical. cbn [SFsub].
  set (ax := Z.abs x) in *. set (ay := Z.abs y) in *.
  assert (Hax : 0 < ax < 2 ^ 53) by (unfold ax; lia).
  assert (Hay : 0 < ay < 2 ^ 53) by (unfold ay; lia).
  pose proof (Zdigits2_le ax 53 (proj1 Hax) (proj2 Hax)) as Dx.
  pose proof (Zdigits2_le ay 53 (proj1 Hay) (proj2 Hay)) as Dy.
  pose proof (Zdigits2_pos ax (proj1 Hax)) as Dx1.
  pose proof (Zdigits2_pos ay (proj1 Hay)) as Dy1.
  set (jx := 53 - Zdigits2 ax) in *. set (jy := 53 - Zdigits2 ay) in *.
  replace (Zdigits2 ax - 53) with (- jx) by (unfold jx; lia).
  replace (Zdigits2 ay - 53) with (- jy) by (unfold jy; lia).
  set (J := Z.max jx jy).
  replace (Z.min (- jx) (- jy)) with (- J) by (unfold J; lia).
  assert (Ax : forall a j, 0 < a < 2 ^ 53 -> 0 <= j <= J ->
               Z.pos (fst (shl_align (Z.to_pos (a * 2 ^ j)) (- j) (- J)))
               = a * 2 ^ J).
  { intros a j Ha Hj. unfold shl_align.
    assert (Pj : 0 < 2 ^ j) by (apply Z.pow_pos_nonneg; lia).
    destruct (- J - - j) as [|q|q] eqn:Q; cbn [fst].
    - rewrite Z2Pos.id by nia. do 2 f_equal. lia.
    - lia.
    - rewrite iter_xO, Z2Pos.id by nia.
      rewrite <- Z.mul_assoc, <- Z.pow_add_r by lia. do 2 f_equal. lia. }
  rewrite (Ax ax jx Hax), (Ax ay jy Hay) by (unfold J, jx, jy; lia).
  assert (PJ : 0 < 2 ^ J) by (apply Z.pow_pos_nonneg; unfold J, jx; lia).
  assert (ED : cond_Zopp (x <? 0) (ax * 2 ^ J) - cond_Zopp (y <? 0) (ay * 2 ^ J)
               = (x - y) * 2 ^ J).
  { unfold ax, ay.
    destruct (Z.ltb_spec x 0), (Z.ltb_spec y 0); cbn [cond_Zopp]; nia. }
  rewrite ED.
  destruct (Z.eq_dec x y) as [->|Nxy].
  { rewrite Z.sub_diag. reflexivity. }
  rewrite (ofZ_canonical (x - y)) by lia.
  unfold binary_normalize, JS.prec, JS.emax.
  destruct ((x - y) * 2 ^ J) as [|m|m] eqn:Em.
  - nia.
  - assert (0 < x - y) by nia.
    rewrite (binary_round_exact false m (x - y) J);
      [|lia|unfold J, jx; lia|symmetry; exact Em].
    rewrite Z.abs_eq by lia.
    destruct (Z.ltb_spec (x - y) 0); [lia|reflexivity].
  - assert (x - y < 0) by nia.
    rewrite (binary_round_exact true m (- (x - y)) J);
      [|lia|unfold J, jx; lia|lia].
    rewrite Z.abs_neq by lia.
    destruct (Z.ltb_spec (x - y) 0); [reflexivity|lia].
Qed.

(** [SFmul] on integers whose product is below 2^53 in magnitude is the
    exact product, up to the sign of a zero. *)
Lemma SFmul_exact (x y : Z) :
  Z.abs x < 2 ^ 53 -> Z.abs y < 2 ^ 53 -> Z.abs (x * y) < 2 ^ 53 ->
  JS.toZ (SFmul JS.prec JS.emax (JS.ofZ x) (JS.ofZ y)) = x * y.
Proof.
  intros Hx Hy Hxy.
  destruct (Z.eq_dec x 0) as [->|Nx].
  { change (JS.ofZ 0) with (S754_zero false).
    destruct (Z.eq_dec y 0) as [->|Ny]; [reflexivity|].
    rewrite ofZ_canonical by assumption. reflexivity. }
  destruct (Z.eq_dec y 0) as [->|Ny].
  { change (JS.ofZ 0) with (S754_zero false).
    rewrite ofZ_canonical by assumption. rewrite Z.mul_0_r. reflexivity. }
  rewrite (ofZ_canonical x), (ofZ_canonical y) by assumption.
  unfold canonical. cbn [SFmul].
  set (ax := Z.abs x) in *. set (ay := Z.abs y) in *.
  assert (Hax : 0 < ax < 2 ^ 53) by (unfold ax; lia).
  assert (Hay : 0 < ay < 2 ^ 53) by (unfold ay; lia).
  assert (Hk : 0 < ax * ay < 2 ^ 53).
  { unfold ax, ay. rewrite <- Z.abs_mul. lia. }
  pose proof (Zdigits2_le ax 53 (proj1 Hax) (proj2 Hax)) as Dx.
  pose proof (Zdigits2_le ay 53 (proj1 Hay) (proj2 Hay)) as Dy.
  pose proof (Zdigits2_le (ax * ay) 53 (proj1 Hk) (proj2 Hk)) as Dk.
  destruct (Zdigits2_bounds ax (proj1 Hax)) as [Lx Ux].
  destruct (Zdigits2_bounds ay (proj1 Hay)) as [Ly Uy].
  destruct (Zdigits2_bounds (ax * ay) (proj1 Hk)) as [Lk Uk].
  pose proof (Zdigits2_pos ax (proj1 Hax)) as Dx1.
  pose proof (Zdigits2_pos ay (proj1 Hay)) as Dy1.
  set (dx := Zdigits2 ax) in *. set (dy := Zdigits2 ay) in *.
  set (dk := Zdigits2 (ax * ay)) in *.
  assert (Dlow : dx + dy - 1 <= dk).
  { destruct (Z.leb_spec (dx + dy - 1) dk); [assumption|]. exfalso.
    assert (2 ^ dk <= 2 ^ (dx - 1 + (dy - 1)))
      by (apply Z.pow_le_mono_r; lia).
    rewrite Z.pow_add_r in H0 by lia.
    assert (0 < 2 ^ (dx - 1)) by (apply Z.pow_pos_nonneg; lia).
    assert (0 < 2 ^ (dy - 1)) by (apply Z.pow_pos_nonneg; lia).
    nia. }
  assert (Px : 0 < 2 ^ (53 - dx)) by (apply Z.pow_pos_nonneg; lia).
  assert (Py : 0 < 2 ^ (53 - dy)) by (apply Z.pow_pos_nonneg; lia).
  rewrite (binary_round_aux_exact _ _ _ (ax * ay) (53 - dx + (53 - dy)));
    fold dk; try lia.
  - rewrite (toZ_scaled _ _ _ (ax * ay) 0 (53 - dk)); [|lia|lia|lia|].
    + unfold ax, ay.
      destruct (Z.ltb_spec x 0), (Z.ltb_spec y 0); cbn [xorb cond_Zopp]; nia.
    + pose proof (canonical_significand (ax * ay) Hk) as Es. fold dk in Es.
      rewrite Es. simpl (2 ^ 0). ring.
  - rewrite Pos2Z.inj_mul, !Z2Pos.id by nia.
    rewrite Z.pow_add_r by lia. ring.
Qed.
End DoubleFacts.

(** ** Time bucketing *)

Lemma bucketStart_multiple (t I : Z) : (I | bucketStart t I).
Proof. unfold bucketStart. exists (t / I). reflexivity. Qed.

Lemma bucketStart_bounds (t I : Z) :
  0 < I -> bucketStart t I <= t < bucketStart t I + I.
Proof.
  intros HI. unfold bucketStart.
  pose proof (Z.div_mod t I) as E.
  pose proof (Z.mod_pos_bound t I HI) as B.
  lia.
Qed.

(** Differences and products below 2^53 are exact. *)
Lemma sub_exact (x y : Z) : Z.abs (x - y) < 2 ^ 53 -> JS.sub x y = x - y.
Proof. apply DoubleFacts.rounded_exact. Qed.

Lemma mul_exact (x y : Z) :
  Z.abs x < 2 ^ 53 -> Z.abs y < 2 ^ 53 -> Z.abs (x * y) < 2 ^ 53 ->
  JS.mul x y = x * y.
Proof. apply DoubleFacts.SFmul_exact. Qed.

(** On integers below 2^52 in magnitude the difference is the one
    [SFsub] returns. *)
Lemma sub_is_SFsub (x y : Z) :
  Z.abs x < 2 ^ 52 -> Z.abs y < 2 ^ 52 ->
  JS.toZ (SFsub JS.prec JS.emax (JS.ofZ x) (JS.ofZ y)) = JS.sub x y.
Proof.
  intros Hx Hy. rewrite DoubleFacts.SFsub_exact by assumption. reflexivity.
Qed.

(** A difference is negative exactly if the first Number is below the
    second, rounded or not. *)
Lemma sub_negative (x y : Z) : (JS.sub x y <? 0) = (x <? y).
Proof.
  unfold JS.sub. rewrite DoubleFacts.rounded_sign.
  destruct (Z.ltb_spec (x - y) 0), (Z.ltb_spec x y); lia || reflexivity.
Qed.

Lemma sub_diag (x : Z) : JS.sub x x = 0.
Proof. unfold JS.sub. rewrite Z.sub_diag. reflexivity. Qed.

Lemma exactSeconds_check (t : Z) :
  (0 <=? t) && (t <? 2 ^ 52) = true -> exactSeconds t.
Proof.
  intros H. apply andb_true_iff in H. destruct H as [H0 H1].
  apply Z.leb_le in H0. apply Z.ltb_lt in H1. split; assumption.
Qed.

(** On the exact range the bucket is the one of the contract. *)
Lemma getCandleTimestamp_exact (t : Z) :
  exactSeconds t -> getCandleTimestamp t = bucketStart t CANDLE_INTERVAL.
Proof.
  intros [H0 H1]. unfold getCandleTimestamp, bucketStart, CANDLE_INTERVAL.
  rewrite DoubleFacts.Math_floor_div_60 by (split; assumption).
  pose proof (bucketStart_bounds t 60 ltac:(lia)) as B. unfold bucketStart in B.
  assert (0 <= t / 60) by (apply Z.div_pos; lia).
  assert (2 ^ 52 < 2 ^ 53) by reflexivity.
  apply DoubleFacts.SFmul_exact; rewrite Z.abs_eq by lia; lia.
Qed.

Lemma getCandleTimestamp_multiple (t : Z) :
  exactSeconds t -> (CANDLE_INTERVAL | getCandleTimestamp t).
Proof.
  intros H. rewrite (getCandleTimestamp_exact t H).
  apply bucketStart_multiple.
Qed.

Lemma getCandleTimestamp_range (t : Z) :
  exactSeconds t -> exactSeconds (getCandleTimestamp t).
Proof.
  intros H. rewrite (getCandleTimestamp_exact t H).
  destruct H as [H0 H1]. unfold exactSeconds.
  pose proof (bucketStart_bounds t CANDLE_INTERVAL eq_refl) as B.
  assert (0 <= bucketStart t CANDLE_INTERVAL).
  { unfold bucketStart, CANDLE_INTERVAL.
    assert (0 <= t / 60) by (apply Z.div_pos; lia). lia. }
  lia.
Qed.

(** C2, as amended.  For every integer timestamp [t] from 0 up to 2^52,
    the page's bucketing function is [floor(t / I) * I] at its interval
    [I = 60], the function of the contract: it is the multiple [q * I] of
    the one integer [q] with [q * I <= t < (q + 1) * I]; it is a multiple
    of [I], and [bucketStart <= t < bucketStart + I].  Being a function of
    its argument defined on all integers, it is deterministic, pure and
    total. *)
Theorem getCandleTimestamp_floor (t : Z) (Ht : exactSeconds t) :
  getCandleTimestamp t = bucketStart t CANDLE_INTERVAL
  /\ getCandleTimestamp t = t / CANDLE_INTERVAL * CANDLE_INTERVAL
  /\ (forall q, q * CANDLE_INTERVAL <= t < (q + 1) * CANDLE_INTERVAL ->
      getCandleTimestamp t = q * CANDLE_INTERVAL)
  /\ (CANDLE_INTERVAL | getCandleTimestamp t)
  /\ getCandleTimestamp t <= t < getCandleTimestamp t + CANDLE_INTERVAL
  /\ 0 <= getCandleTimestamp t.
Proof.
  pose proof (getCandleTimestamp_exact t Ht) as E.
  pose proof (bucketStart_bounds t CANDLE_INTERVAL eq_refl) as B.
  pose proof (getCandleTimestamp_range t Ht) as [R _].
  rewrite <- E in B.
  split; [exact E|]. split; [exact E|]. split.
  { intros q Hq. rewrite E. unfold bucketStart, CANDLE_INTERVAL in *.
    f_equal. nia. }
  split; [apply getCandleTimestamp_multiple; exact Ht|].
  split; [exact B|exact R].
Qed.

Lemma getCandleTimestamp_floor_witness :
  exactSeconds 125 /\ getCandleTimestamp 125 = 120
  /\ (CANDLE_INTERVAL | getCandleTimestamp 125).
Proof.
  assert (H : exactSeconds 125) by (unfold exactSeconds; split; [lia|reflexivity]).
  destruct (getCandleTimestamp_floor 125 H) as (_ & _ & Hq & Hd & _ & _).
  split; [exact H|]. split; [apply (Hq 2); unfold CANDLE_INTERVAL; lia | exact Hd].
Defined.

(** Above that range too the difference is the one [SFsub] returns, as
    at the times studied below. *)
Example sub_is_SFsub_above :
  JS.toZ (SFsub JS.prec JS.emax (JS.ofZ (60 * 2 ^ 53)) (JS.ofZ (-3600)))
  = JS.sub (60 * 2 ^ 53) (-3600)
  /\ JS.toZ (SFsub JS.prec JS.emax (JS.ofZ (2 ^ 55)) (JS.ofZ (-60)))
     = JS.sub (2 ^ 55) (-60)
  /\ JS.toZ (SFsub JS.prec JS.emax (JS.ofZ (2 ^ 55 + 8)) (JS.ofZ (-60)))
     = JS.sub (2 ^ 55 + 8) (-60)
  /\ JS.toZ (SFsub JS.prec JS.emax (JS.ofZ (2 ^ 58)) (JS.ofZ 3600))
     = JS.sub (2 ^ 58) 3600
  /\ JS.toZ (SFsub JS.prec JS.emax (JS.ofZ (2 ^ 53)) (JS.ofZ (2 ^ 53 + 2)))
     = JS.sub (2 ^ 53) (2 ^ 53 + 2).
Proof. vm_compute. repeat split. Qed.

(** C2, the claim as it stands: beyond the integers that doubles hold
    exactly the quotient and the product are rounded.  At 2^58 the
    function returns its argument, which is no multiple of 60 and not the
    bucket of the contract; at 2^58 - 32 it returns 2^58, which lies
    above the timestamp. *)
Lemma getCandleTimestamp_beyond_doubles :
  0 <= 2 ^ 58
  /\ getCandleTimestamp (2 ^ 58) = 2 ^ 58
  /\ getCandleTimestamp (2 ^ 58) <> bucketStart (2 ^ 58) CANDLE_INTERVAL
  /\ ~ (CANDLE_INTERVAL | getCandleTimestamp (2 ^ 58))
  /\ 0 <= 2 ^ 58 - 32 < getCandleTimestamp (2 ^ 58 - 32).
Proof.
  assert (E : getCandleTimestamp (2 ^ 58) = 2 ^ 58) by (vm_compute; reflexivity).
  assert (F : getCandleTimestamp (2 ^ 58 - 32) = 2 ^ 58)
    by (vm_compute; reflexivity).
  rewrite E, F.
  split; [vm_compute; discriminate|]. split; [reflexivity|].
  split; [vm_compute; discriminate|]. split.
  - intros [k Hk]. unfold CANDLE_INTERVAL in Hk.
    assert (M : 2 ^ 58 mod 60 = 0) by (rewrite Hk; apply Z.mod_mul; lia).
    vm_compute in M. discriminate.
  - split; [vm_compute; discriminate|reflexivity].
Qed.

(** ** The live aggregator *)

Lemma accepted_true (data : PriceEvent.t) :
  accepted data = true <->
  PriceEvent.event data = "price"%string
  /\ PriceEvent.symbol data = "BTC/USD"%string.
Proof.
  unfold accepted. rewrite andb_true_iff, !String.eqb_eq. reflexivity.
Qed.

Lemma accepted_false (data : PriceEvent.t) :
  accepted data = false <->
  PriceEvent.event data <> "price"%string
  \/ PriceEvent.symbol data <> "BTC/USD"%string.
Proof.
  unfold accepted. rewrite andb_false_iff, !String.eqb_neq. reflexivity.
Qed.

(** The candle held after an accepted tick. *)
Lemma onmessage_candle (h : Host) (data : PriceEvent.t) (st : PageState) :
  accepted data = true ->
  currentCandleRef (onmessage h data st) =
  Some match currentCandleRef st with
       | Some c =>
           if negb (CandleAggregator.timestamp c
                    =? getCandleTimestamp (PriceEvent.timestamp data))
           then newCandle (getCandleTimestamp (PriceEvent.timestamp data))
                          (PriceEvent.price data) (PriceEvent.timestamp data)
           else updateCandle c (PriceEvent.price data)
                             (PriceEvent.timestamp data)
       | None => newCandle (getCandleTimestamp (PriceEvent.timestamp data))
                           (PriceEvent.price data) (PriceEvent.timestamp data)
       end.
Proof. intros H. unfold onmessage. rewrite H. reflexivity. Qed.

(** C1.  For every accepted tick, with [bucket] the tick's bucket: if no
    candle is held, or the held candle is of another bucket, be that
    bucket older or newer than the tick's, the held candle becomes a fresh
    one whose open, high, low and close are the tick's price and whose
    bucket start is [bucket]; otherwise the held candle keeps its open and
    bucket start, its high becomes [max(high, price)], its low
    [min(low, price)] and its close the price. *)
Theorem onmessage_ingest (h : Host) (data : PriceEvent.t) (st : PageState)
        (Hacc : accepted data = true) :
  let price := PriceEvent.price data in
  let bucket := getCandleTimestamp (PriceEvent.timestamp data) in
  let fresh :=
    {| CandleAggregator.timestamp := bucket;
       CandleAggregator.open := price;
       CandleAggregator.high := price;
       CandleAggregator.low := price;
       CandleAggregator.close := price;
       CandleAggregator.lastUpdate := PriceEvent.timestamp data |} in
  (currentCandleRef st = None ->
   currentCandleRef (onmessage h data st) = Some fresh)
  /\ (forall c, currentCandleRef st = Some c ->
                CandleAggregator.timestamp c < bucket ->
                currentCandleRef (onmessage h data st) = Some fresh)
  /\ (forall c, currentCandleRef st = Some c ->
                bucket < CandleAggregator.timestamp c ->
                currentCandleRef (onmessage h data st) = Some fresh)
  /\ (forall c, currentCandleRef st = Some c ->
                CandleAggregator.timestamp c = bucket ->
                currentCandleRef (onmessage h data st) =
                Some {| CandleAggregator.timestamp := bucket;
                        CandleAggregator.open := CandleAggregator.open c;
                        CandleAggregator.high :=
                          JS.Math_max (CandleAggregator.high c) price;
                        CandleAggregator.low :=
                          JS.Math_min (CandleAggregator.low c) price;
                        CandleAggregator.close := price;
                        CandleAggregator.lastUpdate :=
                          PriceEvent.timestamp data |}).
Proof.
  intros price bucket fresh.
  rewrite (onmessage_candle h data st Hacc).
  fold bucket price.
  repeat split.
  - intros ->. reflexivity.
  - intros c -> Hlt.
    destruct (Z.eqb_spec (CandleAggregator.timestamp c) bucket); [lia|].
    reflexivity.
  - intros c -> Hgt.
    destruct (Z.eqb_spec (CandleAggregator.timestamp c) bucket); [lia|].
    reflexivity.
  - intros c -> Heq.
    destruct (Z.eqb_spec (CandleAggregator.timestamp c) bucket); [|lia].
    simpl. unfold updateCandle. rewrite Heq. reflexivity.
Qed.

Lemma onmessage_ingest_witness :
  currentCandleRef
    (feed (Engine.host 0)
          [Sample.tick 0 (JS.ofZ 100); Sample.tick 30 (JS.ofZ 110)]
          initialState)
  = Some {| CandleAggregator.timestamp := 0;
            CandleAggregator.open := JS.ofZ 100;
            CandleAggregator.high := JS.ofZ 110;
            CandleAggregator.low := JS.ofZ 100;
            CandleAggregator.close := JS.ofZ 110;
            CandleAggregator.lastUpdate := 30 |}.
Proof.
  pose proof (onmessage_ingest
                (Engine.host 0) (Sample.tick 30 (JS.ofZ 110))
                (onmessage (Engine.host 0) (Sample.tick 0 (JS.ofZ 100))
                           initialState)
                eq_refl) as (_ & _ & _ & H).
  exact (H _ eq_refl eq_refl).
Defined.

(** C9.  An event whose tag is not "price", or whose symbol is not the
    subscribed one, changes nothing: the state after it is the state
    before it, so the held candle with its open, high, low, close, bucket
    start and last update keeps its value, and no call is made on the
    series. *)
Theorem onmessage_ignores (h : Host) (data : PriceEvent.t) (st : PageState)
        (Hother : PriceEvent.event data <> "price"%string
                  \/ PriceEvent.symbol data <> "BTC/USD"%string) :
  onmessage h data st = st
  /\ currentCandleRef (onmessage h data st) = currentCandleRef st
  /\ sinkCalls (onmessage h data st) = sinkCalls st.
Proof.
  apply accepted_false in Hother.
  unfold onmessage. rewrite Hother. repeat split.
Qed.

Lemma onmessage_ignores_witness :
  let st := feed (Engine.host 0) Sample.firstMinute initialState in
  onmessage (Engine.host 0) (Sample.otherSymbol 60 (JS.ofZ 95)) st = st
  /\ onmessage (Engine.host 0) Sample.heartbeat st = st.
Proof.
  split.
  - apply (onmessage_ignores (Engine.host 0)
                             (Sample.otherSymbol 60 (JS.ofZ 95))).
    right. discriminate.
  - apply (onmessage_ignores (Engine.host 0) Sample.heartbeat).
    left. discriminate.
Defined.

(** The call an accepted tick makes on the candle series. *)
Lemma onmessage_call (h : Host) (data : PriceEvent.t) (st : PageState) :
  accepted data = true ->
  exists c,
    currentCandleRef (onmessage h data st) = Some c
    /\ sinkCalls (onmessage h data st) =
       sinkCalls st ++
       [CandleUpdate
          {| CandlestickData.time :=
               convertToLocalTime
                 h (Some (getCandleTimestamp (PriceEvent.timestamp data)));
             CandlestickData.open := CandleAggregator.open c;
             CandlestickData.high := CandleAggregator.high c;
             CandlestickData.low := CandleAggregator.low c;
             CandlestickData.close := CandleAggregator.close c |}].
Proof.
  intros H. unfold onmessage. rewrite H. simpl.
  eexists. split; reflexivity.
Qed.

(** The zone offset in seconds is exact, and so is the local time of a
    timestamp below 2^52 in magnitude. *)
Lemma timezoneOffsetSeconds_exact (h : Host) :
  JS.mul (getTimezoneOffset h) 60 = getTimezoneOffset h * 60
  /\ Z.abs (getTimezoneOffset h) <= 1440.
Proof.
  pose proof (offsetWithinDay h) as B. apply Z.leb_le in B.
  assert (2 ^ 53 = 9007199254740992) by reflexivity.
  split; [|exact B]. apply mul_exact; lia.
Qed.

Lemma convertToLocalTime_exact (h : Host) (t : Z) :
  Z.abs t < 2 ^ 52 ->
  convertToLocalTime h (Some t) = Some (t - getTimezoneOffset h * 60).
Proof.
  intros Ht. unfold convertToLocalTime. cbn [JS.time_sub].
  destruct (timezoneOffsetSeconds_exact h) as [-> B].
  rewrite sub_exact; [reflexivity|].
  assert (2 ^ 52 = 4503599627370496) by reflexivity.
  assert (2 ^ 53 = 9007199254740992) by reflexivity. lia.
Qed.

Lemma convertToLocalTime_multiple (h : Host) (t : Z) :
  (60 | t) -> Z.abs t < 2 ^ 52 ->
  exists t', convertToLocalTime h (Some t) = Some t' /\ (60 | t').
Proof.
  intros [k Hk] Ht. exists (t - getTimezoneOffset h * 60). split.
  - apply convertToLocalTime_exact. exact Ht.
  - exists (k - getTimezoneOffset h). lia.
Qed.

(** C10, as amended.  The zone offset is a whole number of minutes, so
    the local time of a UTC timestamp that is a multiple of 60 and below
    2^52 in magnitude is again a multiple of 60; hence the time of every
    candle the live handler passes to the chart for a tick whose timestamp
    lies from 0 up to 2^52 is aligned to the 60-second interval. *)
Theorem convertToLocalTime_aligned (h : Host) (t : Z)
        (Ht : (60 | t)) (Hrange : Z.abs t < 2 ^ 52) :
  (exists t', convertToLocalTime h (Some t) = Some t' /\ (60 | t'))
  /\ (forall data st candleData,
         exactTick data ->
         In (CandleUpdate candleData) (sinkCalls (onmessage h data st)) ->
         ~ In (CandleUpdate candleData) (sinkCalls st) ->
         exists t', CandlestickData.time candleData = Some t'
                    /\ (CANDLE_INTERVAL | t')).
Proof.
  split; [apply convertToLocalTime_multiple; assumption|].
  intros data st candleData Hexact Hin Hnew.
  destruct (accepted data) eqn:E.
  - destruct (onmessage_call h data st E) as (c & _ & Hcalls).
    rewrite Hcalls in Hin. apply in_app_or in Hin.
    destruct Hin as [Hin | [Hin | []]]; [contradiction|].
    inversion Hin; subst; simpl.
    apply convertToLocalTime_multiple.
    + apply getCandleTimestamp_multiple. exact Hexact.
    + destruct (getCandleTimestamp_range _ Hexact) as [R0 R1].
      rewrite Z.abs_eq by exact R0. exact R1.
  - unfold onmessage in Hin. rewrite E in Hin. contradiction.
Qed.

Lemma convertToLocalTime_aligned_witness :
  convertToLocalTime (Engine.host (-330)) (Some 1704103200) = Some 1704123000
  /\ (60 | 1704123000).
Proof.
  destruct (convertToLocalTime_aligned (Engine.host (-330)) 1704103200)
    as [(t' & Ht' & Hd) _].
  - exists 28401720. reflexivity.
  - reflexivity.
  - assert (E : convertToLocalTime (Engine.host (-330)) (Some 1704103200)
                = Some 1704123000) by (vm_compute; reflexivity).
    rewrite E in Ht'. injection Ht' as <-. split; [reflexivity | exact Hd].
Defined.

(** C10, the claim as it stands: the difference is the one of doubles.
    One hour east of UTC, the multiple of 60 that is 60 * 2^53 has for
    local time a Number 3584 above it, and not the one 3600 above it,
    which no double holds; the result is no multiple of 60.  And a tick
    at 2^58 sends the chart the time 2^58, no multiple of 60 either. *)
Lemma convertToLocalTime_beyond_doubles :
  (60 | 60 * 2 ^ 53)
  /\ convertToLocalTime (Engine.host (-60)) (Some (60 * 2 ^ 53))
     = Some (60 * 2 ^ 53 + 3584)
  /\ ~ (60 | 60 * 2 ^ 53 + 3584)
  /\ (exists candleData,
        sinkCalls (onmessage (Engine.host 0)
                             (Sample.tick (2 ^ 58) (JS.ofZ 100)) initialState)
        = [CandleUpdate candleData]
        /\ CandlestickData.time candleData = Some (2 ^ 58)
        /\ ~ (CANDLE_INTERVAL | 2 ^ 58)).
Proof.
  assert (N : forall z, z mod 60 <> 0 -> ~ (60 | z)).
  { intros z Hz [k Hk]. apply Hz. rewrite Hk. apply Z.mod_mul. lia. }
  split; [exists (2 ^ 53); ring|].
  split; [vm_compute; reflexivity|].
  split; [apply N; vm_compute; discriminate|].
  eexists. split; [vm_compute; reflexivity|].
  split; [reflexivity|]. apply N. vm_compute. discriminate.
Qed.

(** ** The candle invariant *)

Lemma min_not_NaN (x y : JS.number) :
  JS.isNaN (JS.Math_min x y) = false ->
  JS.isNaN x = false /\ JS.isNaN y = false.
Proof.
  unfold JS.Math_min.
  destruct (JS.isNaN x), (JS.isNaN y); simpl; intros H;
    try discriminate H; split; reflexivity.
Qed.

(** The invariant, inequality by inequality. *)
Lemma ohlcOrdered_iff (c : CandleAggregator.t) :
  ohlcOrdered c <->
  JS.le (CandleAggregator.low c) (CandleAggregator.open c) = true
  /\ JS.le (CandleAggregator.low c) (CandleAggregator.close c) = true
  /\ JS.le (CandleAggregator.open c) (CandleAggregator.high c) = true
  /\ JS.le (CandleAggregator.close c) (CandleAggregator.high c) = true.
Proof.
  unfold ohlcOrdered.
  destruct c as [ts o hi lo cl lu]; simpl.
  split.
  - intros (H1 & H2 & H3).
    destruct (NumberFacts.le_not_NaN _ _ H1) as [_ Hm].
    destruct (min_not_NaN _ _ Hm) as [Ho Hc].
    destruct (NumberFacts.min_spec o cl Ho Hc) as (M1 & M2 & _).
    destruct (NumberFacts.max_spec o cl Ho Hc) as (X1 & X2 & _).
    repeat split.
    + exact (NumberFacts.le_trans _ _ _ H1 M1).
    + exact (NumberFacts.le_trans _ _ _ H1 M2).
    + exact (NumberFacts.le_trans _ _ _ X1 H3).
    + exact (NumberFacts.le_trans _ _ _ X2 H3).
  - intros (H1 & H2 & H3 & H4).
    destruct (NumberFacts.le_not_NaN _ _ H1) as [_ Ho].
    destruct (NumberFacts.le_not_NaN _ _ H2) as [_ Hc].
    destruct (NumberFacts.min_spec o cl Ho Hc) as (M1 & M2 & M3).
    destruct (NumberFacts.max_spec o cl Ho Hc) as (X1 & X2 & X3).
    repeat split.
    + destruct M3 as [-> | ->]; assumption.
    + exact (NumberFacts.le_trans _ _ _ M1 X1).
    + destruct X3 as [-> | ->]; assumption.
Qed.

Lemma newCandle_ordered (bucket timestamp : Z) (price : JS.number) :
  JS.isNaN price = false ->
  ohlcOrdered (newCandle bucket price timestamp).
Proof.
  intros Hp. apply ohlcOrdered_iff. simpl.
  repeat split; apply NumberFacts.le_refl; exact Hp.
Qed.

Lemma newCandle_invariant (timestamp : Z) (price : JS.number) :
  JS.isNaN price = false -> exactSeconds timestamp ->
  candleInvariant (newCandle (getCandleTimestamp timestamp) price timestamp).
Proof.
  intros Hp Ht. split.
  - apply newCandle_ordered. exact Hp.
  - apply getCandleTimestamp_multiple. exact Ht.
Qed.

Lemma updateCandle_ordered (c : CandleAggregator.t) (price : JS.number)
      (timestamp : Z) :
  JS.isNaN price = false ->
  ohlcOrdered c -> ohlcOrdered (updateCandle c price timestamp).
Proof.
  intros Hp Ho.
  apply ohlcOrdered_iff in Ho. destruct Ho as (H1 & H2 & H3 & H4).
  apply ohlcOrdered_iff. simpl.
  destruct (NumberFacts.le_not_NaN _ _ H1) as [Hlo _].
  destruct (NumberFacts.le_not_NaN _ _ H3) as [_ Hhi].
  destruct (NumberFacts.min_spec (CandleAggregator.low c) price Hlo Hp)
    as (M1 & M2 & _).
  destruct (NumberFacts.max_spec (CandleAggregator.high c) price Hhi Hp)
    as (X1 & X2 & _).
  repeat split.
  - exact (NumberFacts.le_trans _ _ _ M1 H1).
  - exact M2.
  - exact (NumberFacts.le_trans _ _ _ H3 X1).
  - exact X2.
Qed.

Lemma updateCandle_invariant (c : CandleAggregator.t) (price : JS.number)
      (timestamp : Z) :
  JS.isNaN price = false ->
  candleInvariant c -> candleInvariant (updateCandle c price timestamp).
Proof.
  intros Hp [Ho Hd]. split; [|exact Hd].
  apply updateCandle_ordered; assumption.
Qed.

Lemma onmessage_ordered (h : Host) (data : PriceEvent.t) (st : PageState) :
  jsonPrice data -> heldOrdered st -> heldOrdered (onmessage h data st).
Proof.
  intros Hp Hinv. destruct (accepted data) eqn:E.
  - unfold heldOrdered. rewrite (onmessage_candle h data st E).
    unfold heldOrdered in Hinv.
    destruct (currentCandleRef st) as [c|].
    + destruct (negb _).
      * apply newCandle_ordered, Hp.
      * apply updateCandle_ordered; assumption.
    + apply newCandle_ordered, Hp.
  - unfold onmessage. rewrite E. exact Hinv.
Qed.

Lemma feed_ordered (h : Host) (events : list PriceEvent.t) :
  Forall jsonPrice events ->
  forall st, heldOrdered st -> heldOrdered (feed h events st).
Proof.
  induction 1 as [|e events He _ IH]; intros st Hst.
  - exact Hst.
  - apply IH. apply onmessage_ordered; assumption.
Qed.

Lemma onmessage_invariant (h : Host) (data : PriceEvent.t) (st : PageState) :
  jsonPrice data -> exactTick data ->
  stateInvariant st -> stateInvariant (onmessage h data st).
Proof.
  intros Hp Ht Hinv. destruct (accepted data) eqn:E.
  - unfold stateInvariant. rewrite (onmessage_candle h data st E).
    unfold stateInvariant in Hinv.
    destruct (currentCandleRef st) as [c|].
    + destruct (negb _).
      * apply newCandle_invariant; assumption.
      * apply updateCandle_invariant; assumption.
    + apply newCandle_invariant; assumption.
  - unfold onmessage. rewrite E. exact Hinv.
Qed.

Lemma feed_invariant (h : Host) (events : list PriceEvent.t) :
  Forall jsonPrice events -> Forall exactTick events ->
  forall st, stateInvariant st -> stateInvariant (feed h events st).
Proof.
  induction 1 as [|e events He _ IH]; intros Ht st Hst.
  - exact Hst.
  - inversion Ht; subst. apply IH; [assumption|].
    apply onmessage_invariant; assumption.
Qed.

Lemma loadHistoricalData_candle (h : Host) (fetched : Fetched) (st : PageState) :
  currentCandleRef (loadHistoricalData h fetched st) = currentCandleRef st.
Proof.
  unfold loadHistoricalData.
  destruct fetched as [data| |]; try reflexivity.
  destruct (noValues data); [reflexivity|].
  destruct (last _ _); reflexivity.
Qed.

(** C3, as amended.  The candle the aggregator holds satisfies
    [low <= min(open, close) <= max(open, close) <= high], whatever the
    timestamps of the ticks; and where the timestamps of the ticks lie
    from 0 up to 2^52 its bucket start is a multiple of the interval as
    well: the invariant holds as soon as a first tick creates the candle,
    every later event preserves it, and so it holds after any run of the
    feed from the state on mount, whatever the historical load did
    before.  The prices are those the feed's JSON can carry, that is, any
    Number but NaN. *)
Theorem held_candle_invariant (h : Host) (events : list PriceEvent.t)
        (Hprices : Forall jsonPrice events) :
  (forall st, heldOrdered st -> heldOrdered (feed h events st))
  /\ (Forall exactTick events ->
      (forall data st,
          In data events -> accepted data = true ->
          currentCandleRef st = None ->
          exists c, currentCandleRef (onmessage h data st) = Some c
                    /\ candleInvariant c)
      /\ (forall data st,
             In data events -> stateInvariant st ->
             stateInvariant (onmessage h data st))
      /\ stateInvariant (feed h events initialState)
      /\ (forall fetched,
             stateInvariant
               (feed h events (loadHistoricalData h fetched initialState)))).
Proof.
  split; [apply feed_ordered; exact Hprices|].
  intros Hticks.
  pose proof Hprices as Hp. pose proof Hticks as Ht.
  rewrite Forall_forall in Hp, Ht.
  repeat split.
  - intros data st Hin Hacc Hnone.
    rewrite (onmessage_candle h data st Hacc), Hnone.
    eexists. split; [reflexivity|].
    apply newCandle_invariant; [apply Hp, Hin|apply Ht, Hin].
  - intros data st Hin Hinv. apply onmessage_invariant; auto.
  - apply feed_invariant; [assumption|assumption|exact I].
  - intros fetched. apply feed_invariant; [assumption|assumption|].
    unfold stateInvariant. rewrite loadHistoricalData_candle. exact I.
Qed.

(** The hypothesis on prices cannot be dropped: NaN, which no JSON text
    denotes, is below nothing, itself included. *)
Example NaN_price_unordered :
  ~ ohlcOrdered (newCandle (getCandleTimestamp 0) JS.NaN 0).
Proof. intros (H & _). discriminate H. Qed.

Lemma held_candle_invariant_witness :
  stateInvariant (feed (Engine.host 0) Sample.firstMinute initialState).
Proof.
  assert (Hprices : Forall jsonPrice Sample.firstMinute)
    by (repeat (apply Forall_cons; [reflexivity|]); apply Forall_nil).
  assert (Hticks : Forall exactTick Sample.firstMinute)
    by (repeat (apply Forall_cons;
                [split; [vm_compute; discriminate|reflexivity]|]);
        apply Forall_nil).
  destruct (held_candle_invariant (Engine.host 0) Sample.firstMinute Hprices)
    as (_ & H).
  destruct (H Hticks) as (_ & _ & H' & _).
  exact H'.
Defined.

(** C3, the claim as it stands: a tick whose timestamp is 2^58 creates a
    candle whose bucket start is 2^58, which is no multiple of the
    interval, although its price is an ordinary one. *)
Lemma held_candle_beyond_doubles :
  jsonPrice (Sample.tick (2 ^ 58) (JS.ofZ 100))
  /\ accepted (Sample.tick (2 ^ 58) (JS.ofZ 100)) = true
  /\ (exists c,
        currentCandleRef (onmessage (Engine.host 0)
                                    (Sample.tick (2 ^ 58) (JS.ofZ 100))
                                    initialState) = Some c
        /\ CandleAggregator.timestamp c = 2 ^ 58
        /\ ~ (CANDLE_INTERVAL | CandleAggregator.timestamp c))
  /\ ~ stateInvariant (onmessage (Engine.host 0)
                                 (Sample.tick (2 ^ 58) (JS.ofZ 100))
                                 initialState).
Proof.
  assert (N : ~ (CANDLE_INTERVAL | 2 ^ 58)).
  { intros [k Hk]. unfold CANDLE_INTERVAL in Hk.
    assert (M : 2 ^ 58 mod 60 = 0) by (rewrite Hk; apply Z.mod_mul; lia).
    vm_compute in M. discriminate. }
  assert (E : currentCandleRef (onmessage (Engine.host 0)
                                          (Sample.tick (2 ^ 58) (JS.ofZ 100))
                                          initialState)
              = Some (newCandle (2 ^ 58) (JS.ofZ 100) (2 ^ 58)))
    by (vm_compute; reflexivity).
  split; [reflexivity|]. split; [reflexivity|]. split.
  - eexists. split; [exact E|]. split; [reflexivity|exact N].
  - unfold stateInvariant. rewrite E. intros [_ D]. exact (N D).
Qed.

(** ** The aggregation scenario *)

Lemma time_seq_local (h : Host) (a b : Z) :
  Z.abs a < 2 ^ 52 -> Z.abs b < 2 ^ 52 ->
  JS.time_seq (convertToLocalTime h (Some a)) (convertToLocalTime h (Some b))
  = (a =? b).
Proof.
  intros Ha Hb. rewrite !convertToLocalTime_exact by assumption. simpl.
  destruct (Z.eqb_spec a b), (Z.eqb_spec (a - getTimezoneOffset h * 60)
                                         (b - getTimezoneOffset h * 60));
    try reflexivity; lia.
Qed.

Lemma upsertLast_nil (candle : CandlestickData.t) :
  upsertLast candle [] = [candle].
Proof. reflexivity. Qed.

Lemma upsertLast_snoc (candle lastEntry : CandlestickData.t)
      (front : list CandlestickData.t) :
  upsertLast candle (front ++ [lastEntry]) =
  if JS.time_seq (CandlestickData.time lastEntry) (CandlestickData.time candle)
  then front ++ [candle]
  else front ++ [lastEntry; candle].
Proof.
  unfold upsertLast. rewrite rev_unit, rev_involutive.
  destruct (JS.time_seq _ _); [reflexivity|].
  rewrite <- app_assoc. reflexivity.
Qed.

Lemma upsertLast_one (candle lastEntry : CandlestickData.t) :
  upsertLast candle [lastEntry] =
  if JS.time_seq (CandlestickData.time lastEntry) (CandlestickData.time candle)
  then [candle]
  else [lastEntry; candle].
Proof. exact (upsertLast_snoc candle lastEntry []). Qed.

Lemma upsertLast_two (candle first lastEntry : CandlestickData.t) :
  upsertLast candle [first; lastEntry] =
  if JS.time_seq (CandlestickData.time lastEntry) (CandlestickData.time candle)
  then [first; candle]
  else [first; lastEntry; candle].
Proof. exact (upsertLast_snoc candle lastEntry [first]). Qed.

Lemma candleSeriesOf_snoc (calls : list SinkCall) (c : SinkCall) :
  candleSeriesOf (calls ++ [c]) = applyCall (candleSeriesOf calls) c.
Proof. unfold candleSeriesOf. rewrite fold_left_app. reflexivity. Qed.

(** The series after an accepted tick: the upsert of the held candle. *)
Lemma onmessage_series (h : Host) (data : PriceEvent.t) (st : PageState)
      (c : CandleAggregator.t) :
  accepted data = true ->
  currentCandleRef (onmessage h data st) = Some c ->
  candleSeriesOf (sinkCalls (onmessage h data st)) =
  upsertLast
    {| CandlestickData.time :=
         convertToLocalTime
           h (Some (getCandleTimestamp (PriceEvent.timestamp data)));
       CandlestickData.open := CandleAggregator.open c;
       CandlestickData.high := CandleAggregator.high c;
       CandlestickData.low := CandleAggregator.low c;
       CandlestickData.close := CandleAggregator.close c |}
    (candleSeriesOf (sinkCalls st)).
Proof.
  intros Hacc Hc.
  destruct (onmessage_call h data st Hacc) as (c' & Hc' & Hcalls).
  rewrite Hc in Hc'. injection Hc' as <-.
  rewrite Hcalls, candleSeriesOf_snoc. reflexivity.
Qed.

(** The calls after an accepted tick: one update more. *)
Lemma onmessage_calls (h : Host) (data : PriceEvent.t) (st : PageState)
      (c : CandleAggregator.t) :
  accepted data = true ->
  currentCandleRef (onmessage h data st) = Some c ->
  sinkCalls (onmessage h data st) =
  sinkCalls st ++
  [CandleUpdate
     {| CandlestickData.time :=
          convertToLocalTime
            h (Some (getCandleTimestamp (PriceEvent.timestamp data)));
        CandlestickData.open := CandleAggregator.open c;
        CandlestickData.high := CandleAggregator.high c;
        CandlestickData.low := CandleAggregator.low c;
        CandlestickData.close := CandleAggregator.close c |}].
Proof.
  intros Hacc Hc.
  destruct (onmessage_call h data st Hacc) as (c' & Hc' & Hcalls).
  rewrite Hc in Hc'. injection Hc' as <-. exact Hcalls.
Qed.

(** C7.  From a state with no held candle and an empty series, the ticks
    (0, 100), (30, 110), (59, 90) leave the single held candle
    [{open: 100, high: 110, low: 90, close: 90}] of bucket 0 and a series
    of that one entry; the tick (60, 95) then makes the held candle
    [{open: 95, high: 95, low: 95, close: 95}] of bucket 60; one update
    is issued per tick, and the series, with the upsert of section 4.4
    for the chart's update, has two entries.  Bucket 0 is frozen and bucket 60 is the tail that moves:
    any further tick of bucket 60 rewrites the second entry only. *)
Theorem aggregation_scenario (h : Host) :
  let st3 := feed h Sample.firstMinute initialState in
  let st4 := onmessage h (Sample.tick 60 (JS.ofZ 95)) st3 in
  let entry0 :=
    {| CandlestickData.time := convertToLocalTime h (Some 0);
       CandlestickData.open := JS.ofZ 100;
       CandlestickData.high := JS.ofZ 110;
       CandlestickData.low := JS.ofZ 90;
       CandlestickData.close := JS.ofZ 90 |} in
  let entry60 :=
    {| CandlestickData.time := convertToLocalTime h (Some 60);
       CandlestickData.open := JS.ofZ 95;
       CandlestickData.high := JS.ofZ 95;
       CandlestickData.low := JS.ofZ 95;
       CandlestickData.close := JS.ofZ 95 |} in
  currentCandleRef st3 =
    Some {| CandleAggregator.timestamp := 0;
            CandleAggregator.open := JS.ofZ 100;
            CandleAggregator.high := JS.ofZ 110;
            CandleAggregator.low := JS.ofZ 90;
            CandleAggregator.close := JS.ofZ 90;
            CandleAggregator.lastUpdate := 59 |}
  /\ candleSeriesOf (sinkCalls st3) = [entry0]
  /\ currentCandleRef st4 =
       Some {| CandleAggregator.timestamp := 60;
               CandleAggregator.open := JS.ofZ 95;
               CandleAggregator.high := JS.ofZ 95;
               CandleAggregator.low := JS.ofZ 95;
               CandleAggregator.close := JS.ofZ 95;
               CandleAggregator.lastUpdate := 60 |}
  /\ sinkCalls st4 =
     [CandleUpdate
        {| CandlestickData.time := convertToLocalTime h (Some 0);
           CandlestickData.open := JS.ofZ 100;
           CandlestickData.high := JS.ofZ 100;
           CandlestickData.low := JS.ofZ 100;
           CandlestickData.close := JS.ofZ 100 |};
      CandleUpdate
        {| CandlestickData.time := convertToLocalTime h (Some 0);
           CandlestickData.open := JS.ofZ 100;
           CandlestickData.high := JS.ofZ 110;
           CandlestickData.low := JS.ofZ 100;
           CandlestickData.close := JS.ofZ 110 |};
      CandleUpdate entry0;
      CandleUpdate entry60]
  /\ candleSeriesOf (sinkCalls st4) = [entry0; entry60]
  /\ (forall t p,
         getCandleTimestamp t = 60 ->
         candleSeriesOf (sinkCalls (onmessage h (Sample.tick t p) st4)) =
         [entry0;
          {| CandlestickData.time := convertToLocalTime h (Some 60);
             CandlestickData.open := JS.ofZ 95;
             CandlestickData.high := JS.Math_max (JS.ofZ 95) p;
             CandlestickData.low := JS.Math_min (JS.ofZ 95) p;
             CandlestickData.close := p |}]).
Proof.
  intros st3 st4 entry0 entry60.
  set (st1 := onmessage h (Sample.tick 0 (JS.ofZ 100)) initialState).
  set (st2 := onmessage h (Sample.tick 30 (JS.ofZ 110)) st1).
  assert (E3 : st3 = onmessage h (Sample.tick 59 (JS.ofZ 90)) st2)
    by reflexivity.
  assert (S1 : candleSeriesOf (sinkCalls st1) =
               [ {| CandlestickData.time := convertToLocalTime h (Some 0);
                    CandlestickData.open := JS.ofZ 100;
                    CandlestickData.high := JS.ofZ 100;
                    CandlestickData.low := JS.ofZ 100;
                    CandlestickData.close := JS.ofZ 100 |} ]).
  { unfold st1.
    rewrite (onmessage_series h _ _ (newCandle 0 (JS.ofZ 100) 0))
      by (vm_compute; reflexivity).
    reflexivity. }
  assert (S2 : candleSeriesOf (sinkCalls st2) =
               [ {| CandlestickData.time := convertToLocalTime h (Some 0);
                    CandlestickData.open := JS.ofZ 100;
                    CandlestickData.high := JS.ofZ 110;
                    CandlestickData.low := JS.ofZ 100;
                    CandlestickData.close := JS.ofZ 110 |} ]).
  { unfold st2.
    rewrite (onmessage_series
               h _ _ (updateCandle (newCandle 0 (JS.ofZ 100) 0)
                                   (JS.ofZ 110) 30))
      by (vm_compute; reflexivity).
    rewrite S1. rewrite upsertLast_one. cbn [CandlestickData.time].
    rewrite time_seq_local by reflexivity. reflexivity. }
  assert (C3 : currentCandleRef st3 =
               Some {| CandleAggregator.timestamp := 0;
                       CandleAggregator.open := JS.ofZ 100;
                       CandleAggregator.high := JS.ofZ 110;
                       CandleAggregator.low := JS.ofZ 90;
                       CandleAggregator.close := JS.ofZ 90;
                       CandleAggregator.lastUpdate := 59 |})
    by (vm_compute; reflexivity).
  assert (S3 : candleSeriesOf (sinkCalls st3) = [entry0]).
  { rewrite E3.
    rewrite E3 in C3.
    rewrite (onmessage_series h (Sample.tick 59 (JS.ofZ 90)) st2 _ eq_refl C3).
    rewrite S2. rewrite upsertLast_one. cbn [CandlestickData.time].
    rewrite time_seq_local by reflexivity. reflexivity. }
  assert (C4 : currentCandleRef st4 =
               Some {| CandleAggregator.timestamp := 60;
                       CandleAggregator.open := JS.ofZ 95;
                       CandleAggregator.high := JS.ofZ 95;
                       CandleAggregator.low := JS.ofZ 95;
                       CandleAggregator.close := JS.ofZ 95;
                       CandleAggregator.lastUpdate := 60 |})
    by (vm_compute; reflexivity).
  assert (S4 : candleSeriesOf (sinkCalls st4) = [entry0; entry60]).
  { unfold st4 at 1.
    rewrite (onmessage_series h (Sample.tick 60 (JS.ofZ 95)) st3 _ eq_refl C4).
    rewrite S3. rewrite upsertLast_one. unfold entry0.
    cbn [CandlestickData.time].
    rewrite time_seq_local by reflexivity. reflexivity. }
  assert (K1 : sinkCalls st1 =
               [CandleUpdate
                  {| CandlestickData.time := convertToLocalTime h (Some 0);
                     CandlestickData.open := JS.ofZ 100;
                     CandlestickData.high := JS.ofZ 100;
                     CandlestickData.low := JS.ofZ 100;
                     CandlestickData.close := JS.ofZ 100 |}]).
  { unfold st1.
    rewrite (onmessage_calls h (Sample.tick 0 (JS.ofZ 100)) initialState
                             (newCandle 0 (JS.ofZ 100) 0) eq_refl)
      by (vm_compute; reflexivity).
    reflexivity. }
  assert (K2 : sinkCalls st2 =
               sinkCalls st1 ++
               [CandleUpdate
                  {| CandlestickData.time := convertToLocalTime h (Some 0);
                     CandlestickData.open := JS.ofZ 100;
                     CandlestickData.high := JS.ofZ 110;
                     CandlestickData.low := JS.ofZ 100;
                     CandlestickData.close := JS.ofZ 110 |}]).
  { unfold st2 at 1.
    rewrite (onmessage_calls
               h (Sample.tick 30 (JS.ofZ 110)) st1
               (updateCandle (newCandle 0 (JS.ofZ 100) 0) (JS.ofZ 110) 30)
               eq_refl)
      by (vm_compute; reflexivity).
    reflexivity. }
  assert (K3 : sinkCalls st3 = sinkCalls st2 ++ [CandleUpdate entry0]).
  { rewrite E3 at 1. rewrite E3 in C3.
    rewrite (onmessage_calls h (Sample.tick 59 (JS.ofZ 90)) st2 _ eq_refl C3).
    reflexivity. }
  assert (K4 : sinkCalls st4 = sinkCalls st3 ++ [CandleUpdate entry60]).
  { unfold st4 at 1.
    rewrite (onmessage_calls h (Sample.tick 60 (JS.ofZ 95)) st3 _ eq_refl C4).
    reflexivity. }
  split; [exact C3|]. split; [exact S3|]. split; [exact C4|].
  split; [rewrite K4, K3, K2, K1; reflexivity|]. split; [exact S4|].
  intros t p Ht.
  assert (C5 : currentCandleRef (onmessage h (Sample.tick t p) st4) =
               Some {| CandleAggregator.timestamp := 60;
                       CandleAggregator.open := JS.ofZ 95;
                       CandleAggregator.high := JS.Math_max (JS.ofZ 95) p;
                       CandleAggregator.low := JS.Math_min (JS.ofZ 95) p;
                       CandleAggregator.close := p;
                       CandleAggregator.lastUpdate := t |}).
  { rewrite onmessage_candle by reflexivity. rewrite C4.
    simpl PriceEvent.timestamp. rewrite Ht. reflexivity. }
  rewrite (onmessage_series h (Sample.tick t p) st4 _ eq_refl C5).
  rewrite S4. rewrite upsertLast_two.
  simpl PriceEvent.timestamp. rewrite Ht. unfold entry60.
  cbn [CandlestickData.time]. rewrite time_seq_local by reflexivity. reflexivity.
Qed.

Lemma aggregation_scenario_witness :
  candleSeriesOf
    (sinkCalls
       (feed (Engine.host 0)
             (Sample.firstMinute
                ++ [Sample.tick 60 (JS.ofZ 95); Sample.tick 61 (JS.ofZ 97)])
             initialState))
  = [ {| CandlestickData.time := Some 0;
         CandlestickData.open := JS.ofZ 100;
         CandlestickData.high := JS.ofZ 110;
         CandlestickData.low := JS.ofZ 90;
         CandlestickData.close := JS.ofZ 90 |};
      {| CandlestickData.time := Some 60;
         CandlestickData.open := JS.ofZ 95;
         CandlestickData.high := JS.ofZ 97;
         CandlestickData.low := JS.ofZ 95;
         CandlestickData.close := JS.ofZ 97 |} ].
Proof.
  destruct (aggregation_scenario (Engine.host 0)) as (_ & _ & _ & _ & _ & H).
  exact (H 61 (JS.ofZ 97) eq_refl).
Defined.

(** ** Arrays: sorting by time and keeping first occurrences *)

Section ByTime.
Context {A : Type} (time : A -> JS.time).

Let sameTime (x : A) : A -> bool := fun y => JS.time_seq (time y) (time x).
Let timed (x : A) : Prop := time x <> None.

Lemma sort_insert_perm (cmp : A -> A -> JS.time) (x : A) (l : list A) :
  Permutation (JS.sort_insert cmp x l) (x :: l).
Proof.
  induction l as [|y l IH]; simpl.
  - apply Permutation_refl.
  - destruct (JS.negative (cmp y x)).
    + apply perm_trans with (y :: x :: l).
      * apply perm_skip, IH.
      * apply perm_swap.
    + apply Permutation_refl.
Qed.

Lemma sort_perm (cmp : A -> A -> JS.time) (l : list A) :
  Permutation (JS.sort cmp l) l.
Proof.
  induction l as [|x l IH]; simpl.
  - apply perm_nil.
  - apply perm_trans with (x :: JS.sort cmp l).
    + apply sort_insert_perm.
    + apply perm_skip, IH.
Qed.

Lemma negative_byTime (x y : A) (a b : Z) :
  time x = Some a -> time y = Some b ->
  JS.negative (byTime time x y) = (a <? b).
Proof.
  intros Hx Hy. unfold byTime. rewrite Hx, Hy.
  cbn [JS.time_sub JS.negative]. apply sub_negative.
Qed.

Lemma timed_Some (x : A) : timed x -> exists a, time x = Some a.
Proof.
  unfold timed. destruct (time x) as [a|]; [eauto | congruence].
Qed.

Lemma sort_insert_nondecreasing (x : A) (l : list A) :
  timed x -> Forall timed l -> nondecreasing time l ->
  nondecreasing time (JS.sort_insert (byTime time) x l).
Proof.
  intros Hx Hl Hs. induction Hs as [|y l Hs IH Hy]; simpl.
  - constructor; constructor.
  - inversion Hl as [|? ? Ty Tl]; subst.
    destruct (timed_Some x Hx) as [a Ha].
    destruct (timed_Some y Ty) as [b Hb].
    rewrite (negative_byTime y x b a Hb Ha).
    destruct (Z.ltb_spec b a) as [Hlt | Hge].
    + constructor; [apply IH; exact Tl|].
      apply (Permutation_Forall
               (Permutation_sym (sort_insert_perm (byTime time) x l))).
      constructor; [|exact Hy].
      unfold time_le. rewrite Ha, Hb. lia.
    + constructor; [constructor; assumption|].
      constructor.
      * unfold time_le. rewrite Ha, Hb. lia.
      * rewrite Forall_forall in Hy, Tl |- *. intros z Hz.
        specialize (Hy z Hz). destruct (timed_Some z (Tl z Hz)) as [c Hc].
        unfold time_le in *. rewrite Ha. rewrite Hb, Hc in Hy.
        rewrite Hc. lia.
Qed.

Lemma sort_nondecreasing (l : list A) :
  Forall timed l -> nondecreasing time (JS.sort (byTime time) l).
Proof.
  induction 1 as [|x l Hx Hl IH]; simpl.
  - constructor.
  - apply sort_insert_nondecreasing; [exact Hx | | exact IH].
    apply (Permutation_Forall (Permutation_sym (sort_perm (byTime time) l))).
    exact Hl.
Qed.

(** The sort is stable: the entries of one instant keep their order. *)
Lemma atTime_sort_insert (t : Z) (x : A) (l : list A) :
  atTime time t (JS.sort_insert (byTime time) x l) = atTime time t (x :: l).
Proof.
  induction l as [|y l IH]; [reflexivity|].
  simpl JS.sort_insert.
  destruct (JS.negative (byTime time y x)) eqn:E; [|reflexivity].
  unfold byTime in E. unfold atTime in *. cbn [List.filter] in *. rewrite IH.
  destruct (time x) as [a|], (time y) as [b|];
    cbn [JS.time_sub JS.negative] in E; simpl; try discriminate E.
  rewrite sub_negative in E.
  destruct (Z.eqb_spec a t), (Z.eqb_spec b t); try reflexivity.
  subst a b. apply Z.ltb_lt in E. lia.
Qed.

Lemma atTime_sort (t : Z) (l : list A) :
  atTime time t (JS.sort (byTime time) l) = atTime time t l.
Proof.
  induction l as [|x l IH]; [reflexivity|].
  simpl JS.sort. rewrite atTime_sort_insert.
  unfold atTime in *. simpl. rewrite IH. reflexivity.
Qed.

(** [findIndex], by what the prefix holds. *)
Lemma findIndex_from_range (p : A -> bool) (l : list A) (i : Z) :
  JS.findIndex_from p l i = -1
  \/ i <= JS.findIndex_from p l i < i + Z.of_nat (List.length l).
Proof.
  revert i. induction l as [|x l IH]; intros i; simpl; [left; reflexivity|].
  destruct (p x).
  - right. lia.
  - destruct (IH (i + 1)) as [-> | H]; [left; reflexivity | right; lia].
Qed.

Lemma findIndex_from_miss (p : A -> bool) (pre l : list A) (i : Z) :
  existsb p pre = false ->
  JS.findIndex_from p (pre ++ l) i =
  JS.findIndex_from p l (i + Z.of_nat (List.length pre)).
Proof.
  revert i. induction pre as [|y pre IH]; intros i; simpl.
  - intros _. f_equal. lia.
  - destruct (p y); simpl; [discriminate|].
    intros H. rewrite (IH _ H). f_equal. lia.
Qed.

Lemma findIndex_from_hit (p : A -> bool) (pre l : list A) (i : Z) :
  existsb p pre = true ->
  i <= JS.findIndex_from p (pre ++ l) i < i + Z.of_nat (List.length pre).
Proof.
  revert i. induction pre as [|y pre IH]; intros i; simpl.
  - discriminate.
  - destruct (p y); simpl.
    + intros _. lia.
    + intros H. specialize (IH (i + 1) H). lia.
Qed.

(** An entry passes the filter when it equals itself in time and nothing
    before it has its time. *)
Lemma firstOfItsTime_spec (pre post : list A) (x : A) :
  firstOfItsTime time x (Z.of_nat (List.length pre)) (pre ++ x :: post)
  = JS.time_seq (time x) (time x) && negb (existsb (sameTime x) pre).
Proof.
  unfold firstOfItsTime, JS.findIndex. fold (sameTime x).
  destruct (existsb (sameTime x) pre) eqn:E.
  - pose proof (findIndex_from_hit (sameTime x) pre (x :: post) 0 E) as H.
    rewrite andb_false_r. apply Z.eqb_neq. lia.
  - rewrite (findIndex_from_miss (sameTime x) pre (x :: post) 0 E).
    rewrite andb_true_r. simpl.
    unfold sameTime at 1.
    destruct (JS.time_seq (time x) (time x)).
    + apply Z.eqb_eq. lia.
    + apply Z.eqb_neq.
      match goal with
      | |- _ <> JS.findIndex_from ?p ?l ?i =>
          destruct (findIndex_from_range p l i) as [-> | H]; lia
      end.
Qed.

Lemma filter_from_dedupeAfter (pre l : list A) :
  JS.filter_from (firstOfItsTime time) (pre ++ l) l
                 (Z.of_nat (List.length pre))
  = dedupeAfter time pre l.
Proof.
  revert pre. induction l as [|x l IH]; intros pre; [reflexivity|].
  simpl. rewrite firstOfItsTime_spec. fold (sameTime x).
  specialize (IH (pre ++ [x])).
  rewrite <- app_assoc in IH. simpl in IH.
  rewrite length_app in IH. simpl in IH.
  replace (Z.of_nat (List.length pre + 1)) with (Z.of_nat (List.length pre) + 1)
    in IH by lia.
  rewrite IH. reflexivity.
Qed.

Lemma filter_dedupeAfter (l : list A) :
  JS.filter (firstOfItsTime time) l = dedupeAfter time [] l.
Proof. exact (filter_from_dedupeAfter [] l). Qed.

Lemma dedupeAfter_In (pre l : list A) (z : A) :
  In z (dedupeAfter time pre l) ->
  In z l /\ timed z /\ forall y, In y pre -> sameTime z y = false.
Proof.
  revert pre. induction l as [|x l IH]; intros pre; simpl; [intros []|].
  assert (K : In z (dedupeAfter time (pre ++ [x]) l) ->
              (x = z \/ In z l) /\ timed z
              /\ forall y, In y pre -> sameTime z y = false).
  { intros H. destruct (IH _ H) as (H1 & H2 & H3).
    repeat split; auto. intros y Hy. apply H3, in_or_app. auto. }
  destruct (JS.time_seq (time x) (time x)) eqn:Ex; simpl; [|exact K].
  destruct (existsb _ pre) eqn:Ep; simpl; [exact K|].
  intros [<- | H]; [|exact (K H)].
  repeat split; auto.
  - unfold timed. destruct (time x); [discriminate | discriminate Ex].
  - intros y Hy. unfold sameTime.
    destruct (JS.time_seq (time y) (time x)) eqn:E; [|reflexivity].
    rewrite <- Ep. symmetry. apply existsb_exists. eauto.
Qed.

Lemma dedupeAfter_increasing (pre l : list A) :
  nondecreasing time l -> increasing time (dedupeAfter time pre l).
Proof.
  intros Hs. revert pre.
  induction Hs as [|x l Hs IH Hx]; intros pre; simpl; [constructor|].
  destruct (_ && _); [|apply IH].
  constructor; [apply IH|].
  apply Forall_forall. intros z Hz.
  destruct (dedupeAfter_In _ _ _ Hz) as (Hin & _ & Hpre).
  rewrite Forall_forall in Hx. specialize (Hx z Hin).
  assert (Hlast : In x (pre ++ [x]))
    by (apply in_or_app; right; left; reflexivity).
  specialize (Hpre x Hlast).
  unfold sameTime in Hpre. unfold time_le in Hx. unfold time_lt.
  destruct (time x) as [a|], (time z) as [c|]; try contradiction.
  simpl in Hpre. apply Z.eqb_neq in Hpre. lia.
Qed.

(** Of the entries of one instant the filter keeps the first, and only
    it. *)
Lemma atTime_dedupeAfter (t : Z) (pre l : list A) :
  atTime time t (dedupeAfter time pre l) =
  if existsb (fun a => JS.time_seq (time a) (Some t)) pre then []
  else firstAtTime time t l.
Proof.
  revert pre. induction l as [|x l IH]; intros pre.
  - simpl. destruct (existsb _ pre); reflexivity.
  - simpl dedupeAfter. unfold firstAtTime. simpl find.
    destruct (JS.time_seq (time x) (Some t)) eqn:Ex.
    + assert (Hx : time x = Some t).
      { destruct (time x) as [a|]; [|discriminate].
        simpl in Ex. apply Z.eqb_eq in Ex. congruence. }
      rewrite Hx. simpl JS.time_seq at 1. rewrite Z.eqb_refl. simpl andb.
      destruct (existsb _ pre) eqn:Ep; simpl negb; cbv iota.
      * rewrite IH, existsb_app, Ep. reflexivity.
      * unfold atTime in *. simpl List.filter. rewrite Hx. simpl JS.time_seq.
        rewrite Z.eqb_refl. f_equal.
        rewrite IH, existsb_app. simpl. rewrite Hx. simpl.
        rewrite Z.eqb_refl, orb_true_r. reflexivity.
    + assert (IH' : atTime time t (dedupeAfter time (pre ++ [x]) l) =
                    if existsb (fun a => JS.time_seq (time a) (Some t)) pre
                    then [] else firstAtTime time t l).
      { rewrite IH, existsb_app. simpl. rewrite Ex, !orb_false_r.
        reflexivity. }
      destruct (_ && _); [|exact IH'].
      unfold atTime in *. simpl List.filter. rewrite Ex. exact IH'.
Qed.

Lemma sortAndDedupe_increasing (l : list A) :
  Forall timed l -> increasing time (sortAndDedupe time l).
Proof.
  intros H. unfold sortAndDedupe. rewrite filter_dedupeAfter.
  apply dedupeAfter_increasing, sort_nondecreasing, H.
Qed.

Lemma firstAtTime_atTime (t : Z) (l : list A) :
  firstAtTime time t l = firstn 1 (atTime time t l).
Proof.
  unfold firstAtTime, atTime. induction l as [|x l IH]; [reflexivity|].
  simpl. destruct (JS.time_seq (time x) (Some t)); [reflexivity | exact IH].
Qed.

Lemma atTime_sortAndDedupe (t : Z) (l : list A) :
  atTime time t (sortAndDedupe time l) = firstAtTime time t l.
Proof.
  unfold sortAndDedupe. rewrite filter_dedupeAfter, atTime_dedupeAfter.
  simpl. rewrite !firstAtTime_atTime, atTime_sort. reflexivity.
Qed.

Lemma sortAndDedupe_In (l : list A) (z : A) :
  In z (sortAndDedupe time l) -> In z l /\ time z <> None.
Proof.
  unfold sortAndDedupe. rewrite filter_dedupeAfter. intros H.
  destruct (dedupeAfter_In _ _ _ H) as (Hin & Ht & _). split; [|exact Ht].
  apply (Permutation_in _ (sort_perm (byTime time) l)), Hin.
Qed.

(** Whatever the order of the array, the filter leaves no time twice. *)
Lemma dedupeAfter_NoDup (pre l : list A) :
  NoDup (map time (dedupeAfter time pre l)).
Proof.
  revert pre. induction l as [|x l IH]; intros pre; simpl; [constructor|].
  destruct (JS.time_seq (time x) (time x)) eqn:Ex; simpl; [|apply IH].
  destruct (existsb _ pre); simpl; [apply IH|].
  constructor; [|apply IH].
  intros Hin. apply in_map_iff in Hin. destruct Hin as (z & Hz & Hin).
  destruct (dedupeAfter_In _ _ _ Hin) as (_ & _ & Hpre).
  assert (Hlast : In x (pre ++ [x]))
    by (apply in_or_app; right; left; reflexivity).
  specialize (Hpre x Hlast). unfold sameTime in Hpre.
  rewrite Hz, Ex in Hpre. discriminate Hpre.
Qed.

Lemma sortAndDedupe_NoDup (l : list A) :
  NoDup (map time (sortAndDedupe time l)).
Proof.
  unfold sortAndDedupe. rewrite filter_dedupeAfter. apply dedupeAfter_NoDup.
Qed.

End ByTime.

(** ** The historical loader *)

Lemma noValues_true (data : TimeSeries.t) :
  noValues data = true <->
  TimeSeries.values data = None \/ TimeSeries.values data = Some [].
Proof.
  unfold noValues. destruct (TimeSeries.values data) as [[|v vs]|]; split;
    try (intros [H | H]; discriminate H); try discriminate; auto.
Qed.

(** The state after a load whose body has no values. *)
Lemma loadHistoricalData_rejected (h : Host) (data : TimeSeries.t)
      (st : PageState) :
  noValues data = true ->
  loadHistoricalData h (Resolved data) st =
  {| currentCandleRef := currentCandleRef st;
     currentPrice := currentPrice st;
     isHistoricalLoaded := isHistoricalLoaded st;
     status := "Error";
     errorMessage := errorMsgOf data;
     sinkCalls := sinkCalls st |}.
Proof. intros H. unfold loadHistoricalData. rewrite H. reflexivity. Qed.

(** The state after a load whose body has values. *)
Lemma loadHistoricalData_accepted (h : Host) (data : TimeSeries.t)
      (st : PageState) (v : TwelveDataCandle.t) (vs : list TwelveDataCandle.t) :
  TimeSeries.values data = Some (v :: vs) ->
  let st' := loadHistoricalData h (Resolved data) st in
  status st' = "Connecting to live data..."%string
  /\ errorMessage st' = JS.Null
  /\ isHistoricalLoaded st' = true
  /\ currentCandleRef st' = currentCandleRef st
  /\ sinkCalls st' =
     sinkCalls st ++ [CandleSetData (normalizedCandles h (v :: vs))].
Proof.
  intros Hv. unfold loadHistoricalData, noValues. rewrite Hv. simpl.
  destruct (last _ _); repeat split.
Qed.

(** C5.  When the body of the historical response has no values array, or
    an empty one, or is an error payload, the series is not replaced: no
    call is made on it, so what it held stays; the page is in the error
    state, and the message shown is the upstream message when there is
    one, else the upstream code when there is one, else the fixed text.
    The load flag, the held candle and the price shown are untouched. *)
Theorem loadHistoricalData_no_values (h : Host) (data : TimeSeries.t)
        (st : PageState)
        (Hnone : TimeSeries.values data = None
                 \/ TimeSeries.values data = Some []
                 \/ errorPayload data) :
  let st' := loadHistoricalData h (Resolved data) st in
  sinkCalls st' = sinkCalls st
  /\ candleSeriesOf (sinkCalls st') = candleSeriesOf (sinkCalls st)
  /\ status st' = "Error"%string
  /\ (JS.truthy (TimeSeries.message data) = true ->
      errorMessage st' = TimeSeries.message data)
  /\ (JS.truthy (TimeSeries.message data) = false ->
      JS.truthy (TimeSeries.code data) = true ->
      errorMessage st' = TimeSeries.code data)
  /\ (JS.truthy (TimeSeries.message data) = false ->
      JS.truthy (TimeSeries.code data) = false ->
      errorMessage st' = JS.Str "No data available")
  /\ isHistoricalLoaded st' = isHistoricalLoaded st
  /\ currentCandleRef st' = currentCandleRef st
  /\ currentPrice st' = currentPrice st.
Proof.
  assert (H : noValues data = true).
  { apply noValues_true. destruct Hnone as [H | [H | [H _]]]; auto. }
  intros st'. unfold st'. rewrite (loadHistoricalData_rejected h data st H).
  simpl. unfold errorMsgOf, JS.or.
  repeat split.
  - intros Hm. rewrite Hm. cbv iota. rewrite Hm. reflexivity.
  - intros Hm Hc. rewrite Hm. cbv iota. rewrite Hc. reflexivity.
  - intros Hm Hc. rewrite Hm. cbv iota. rewrite Hc. reflexivity.
Qed.

Lemma loadHistoricalData_no_values_witness :
  let loaded :=
    loadHistoricalData
      (Engine.host 0)
      (Resolved (Sample.body [Sample.tenOClock; Sample.oneMinutePast]))
      initialState in
  let st' := loadHistoricalData (Engine.host 0) (Resolved Sample.badRequest)
                                loaded in
  sinkCalls st' = sinkCalls loaded
  /\ status st' = "Error"%string
  /\ errorMessage st' = JS.Str "400"
  /\ errorMessage
       (loadHistoricalData (Engine.host 0) (Resolved Sample.emptyValues)
                           loaded)
     = JS.Str "No data available".
Proof.
  intros loaded st'.
  destruct (loadHistoricalData_no_values
              (Engine.host 0) Sample.badRequest loaded)
    as (H1 & _ & H3 & _ & H5 & _).
  { right. right. split; [reflexivity | right; discriminate]. }
  destruct (loadHistoricalData_no_values
              (Engine.host 0) Sample.emptyValues loaded)
    as (_ & _ & _ & _ & _ & H6 & _).
  { right. left. reflexivity. }
  exact (conj H1 (conj H3 (conj (H5 eq_refl eq_refl) (H6 eq_refl eq_refl)))).
Defined.

Lemma toCandle_time (h : Host) (v : TwelveDataCandle.t) :
  CandlestickData.time (toCandle h v) = HistogramData.time (toVolume h v).
Proof. reflexivity. Qed.

Lemma toCandle_timed (h : Host) (v : TwelveDataCandle.t) :
  datetimeParses h v <-> CandlestickData.time (toCandle h v) <> None.
Proof.
  unfold datetimeParses. simpl. unfold convertToLocalTime, utcTimestampOf.
  destruct (Date_parse h _); simpl; split; congruence.
Qed.

Lemma candles_timed (h : Host) (values : list TwelveDataCandle.t) :
  Forall (datetimeParses h) values ->
  Forall (fun c => CandlestickData.time c <> None) (map (toCandle h) values).
Proof.
  intros H. apply Forall_map. revert H. apply Forall_impl.
  intros v. apply toCandle_timed.
Qed.

Lemma volumes_timed (h : Host) (values : list TwelveDataCandle.t) :
  Forall (datetimeParses h) values ->
  Forall (fun c => HistogramData.time c <> None) (map (toVolume h) values).
Proof.
  intros H. apply Forall_map. revert H. apply Forall_impl.
  intros v Hv. rewrite <- toCandle_time. apply toCandle_timed, Hv.
Qed.

Lemma firstAtTime_map {A B : Type} (time : B -> JS.time) (f : A -> B)
      (t : Z) (l : list A) :
  firstAtTime time t (map f l) =
  match find (fun a => JS.time_seq (time (f a)) (Some t)) l with
  | Some a => [f a]
  | None => []
  end.
Proof.
  unfold firstAtTime. induction l as [|x l IH]; [reflexivity|].
  simpl. destruct (JS.time_seq (time (f x)) (Some t)); [reflexivity | exact IH].
Qed.

(** The first entry that satisfies [p] sits at or before any entry that
    does. *)
Lemma find_first {A : Type} (p : A -> bool) (l : list A) (i : nat) (v : A) :
  nth_error l i = Some v -> p v = true ->
  exists k u,
    (k <= i)%nat /\ nth_error l k = Some u /\ p u = true
    /\ (forall k' u', (k' < k)%nat -> nth_error l k' = Some u' -> p u' = false)
    /\ find p l = Some u.
Proof.
  revert i. induction l as [|x l IH]; intros i Hi Hp.
  - destruct i; discriminate Hi.
  - destruct (p x) eqn:Ex.
    + exists 0%nat, x. simpl. rewrite Ex.
      repeat split; auto with arith. intros k' u' Hk. inversion Hk.
    + destruct i as [|i]; simpl in Hi.
      * injection Hi as ->. congruence.
      * destruct (IH i Hi Hp) as (k & u & Hk & Hn & Hu & Hfirst & Hfind).
        exists (S k), u. simpl. rewrite Ex.
        repeat split; auto with arith.
        intros [|k'] u' Hlt Hnth; simpl in Hnth.
        -- injection Hnth as <-. exact Ex.
        -- apply (Hfirst k' u'); auto with arith.
Qed.

(** C6, as amended.  For every batch, neither normalized sequence has a
    time twice, and neither holds an entry of a record whose datetime
    does not parse.  For every batch whose datetimes all parse, the
    candle and volume sequences are strictly increasing in time; and of
    two records with one datetime exactly one entry is retained at their
    instant in each sequence, the one of the record of lowest index in the
    batch at that instant, which is the earlier record or one before
    it. *)
Theorem normalized_increasing_dedupe
        (h : Host) (values : list TwelveDataCandle.t) :
  NoDup (map CandlestickData.time (normalizedCandles h values))
  /\ NoDup (map HistogramData.time (normalizedVolumes h values))
  /\ (forall c, In c (normalizedCandles h values) ->
                CandlestickData.time c <> None)
  /\ (forall b, In b (normalizedVolumes h values) ->
                HistogramData.time b <> None)
  /\ (Forall (datetimeParses h) values ->
      increasing CandlestickData.time (normalizedCandles h values)
      /\ increasing HistogramData.time (normalizedVolumes h values)
      /\ (forall i j v w,
             (i < j)%nat ->
             nth_error values i = Some v -> nth_error values j = Some w ->
             TwelveDataCandle.datetime v = TwelveDataCandle.datetime w ->
             exists t k u,
               CandlestickData.time (toCandle h v) = Some t
               /\ CandlestickData.time (toCandle h w) = Some t
               /\ (k <= i)%nat /\ nth_error values k = Some u
               /\ (forall k' u',
                      (k' < k)%nat -> nth_error values k' = Some u' ->
                      CandlestickData.time (toCandle h u') <> Some t)
               /\ atTime CandlestickData.time t (normalizedCandles h values)
                  = [toCandle h u]
               /\ atTime HistogramData.time t (normalizedVolumes h values)
                  = [toVolume h u])).
Proof.
  split; [apply sortAndDedupe_NoDup|]. split; [apply sortAndDedupe_NoDup|].
  split; [intros c Hc; apply (sortAndDedupe_In _ _ _ Hc)|].
  split; [intros b Hb; apply (sortAndDedupe_In _ _ _ Hb)|].
  intros Hparse.
  split; [apply sortAndDedupe_increasing, candles_timed, Hparse|].
  split; [apply sortAndDedupe_increasing, volumes_timed, Hparse|].
  intros i j v w Hij Hi Hj Hsame.
  assert (Hin : In v values) by (eapply nth_error_In; exact Hi).
  rewrite Forall_forall in Hparse.
  destruct (CandlestickData.time (toCandle h v)) as [t|] eqn:Ht;
    [|apply toCandle_timed in Ht; [contradiction | apply Hparse, Hin]].
  assert (Hw : CandlestickData.time (toCandle h w) = Some t).
  { rewrite <- Ht. simpl. unfold utcTimestampOf. rewrite Hsame. reflexivity. }
  set (p := fun r => JS.time_seq (CandlestickData.time (toCandle h r)) (Some t)).
  assert (Hp : p v = true) by (unfold p; rewrite Ht; apply Z.eqb_refl).
  destruct (find_first p values i v Hi Hp)
    as (k & u & Hk & Hn & Hu & Hfirst & Hfind).
  exists t, k, u. repeat split; auto.
  - intros k' u' Hlt Hnth Heq.
    specialize (Hfirst k' u' Hlt Hnth). unfold p in Hfirst.
    rewrite Heq in Hfirst. simpl in Hfirst. rewrite Z.eqb_refl in Hfirst.
    discriminate.
  - unfold normalizedCandles.
    rewrite atTime_sortAndDedupe, firstAtTime_map. fold p.
    rewrite Hfind. reflexivity.
  - unfold normalizedVolumes.
    rewrite atTime_sortAndDedupe, firstAtTime_map.
    change (fun a => JS.time_seq (HistogramData.time (toVolume h a)) (Some t))
      with p.
    rewrite Hfind. reflexivity.
Qed.

Lemma normalized_increasing_dedupe_witness :
  let values :=
    [Sample.oneMinutePast; Sample.tenOClock; Sample.tenOClockAgain] in
  increasing CandlestickData.time (normalizedCandles (Engine.host 0) values)
  /\ atTime CandlestickData.time 1704103200
            (normalizedCandles (Engine.host 0) values)
     = [toCandle (Engine.host 0) Sample.tenOClock].
Proof.
  intros values.
  assert (Hparse : Forall (datetimeParses (Engine.host 0)) values)
    by (repeat (apply Forall_cons; [discriminate|]); apply Forall_nil).
  destruct (normalized_increasing_dedupe (Engine.host 0) values)
    as (_ & _ & _ & _ & Hsorted).
  destruct (Hsorted Hparse) as (Hinc & _ & Hfirst).
  split; [exact Hinc|].
  destruct (Hfirst 1%nat 2%nat Sample.tenOClock Sample.tenOClockAgain
                   (le_n 2) eq_refl eq_refl eq_refl)
    as (t & k & u & Ht & _ & Hk & Hu & _ & Hc & _).
  vm_compute in Ht. injection Ht as <-.
  destruct k as [|[|k]]; simpl in Hu.
  - injection Hu as <-. vm_compute in Hc. discriminate Hc.
  - injection Hu as <-. exact Hc.
  - exfalso. apply (Nat.nle_succ_diag_l 1).
    apply Nat.le_trans with (S (S k)); [|exact Hk].
    apply le_n_S, le_n_S, Nat.le_0_l.
Defined.

(** Against C6 as stated for every batch: of two records with one
    datetime that does not parse none is retained, in either sequence. *)
Lemma identical_unparsable_datetimes_dropped :
  let values := [Sample.noDate; Sample.noDateAgain] in
  TwelveDataCandle.datetime Sample.noDate
  = TwelveDataCandle.datetime Sample.noDateAgain
  /\ normalizedCandles (Engine.host 0) values = []
  /\ normalizedVolumes (Engine.host 0) values = []
  /\ ~ (exists c, normalizedCandles (Engine.host 0) values = [c]).
Proof.
  repeat split. intros [c Hc]. discriminate Hc.
Qed.

(** With a datetime that does not parse in the batch the comparator
    answers NaN and the order of the sort is the engine's; on the
    insertion sort of this development, as on a sort that takes the
    batch for an ascending run, the outcome is not increasing. *)
Example unparsable_datetime_unsorted :
  map CandlestickData.time
      (normalizedCandles
         (Engine.host 0)
         [Sample.oneMinutePast; Sample.noDate; Sample.tenOClock])
  = [Some 1704103260; Some 1704103200].
Proof. reflexivity. Qed.

(** What reaches the chart of a batch, parsable or not. *)
Lemma normalizedCandles_In (h : Host) (values : list TwelveDataCandle.t)
      (c : CandlestickData.t) :
  In c (normalizedCandles h values) ->
  exists r, In r values /\ datetimeParses h r /\ c = toCandle h r.
Proof.
  intros H. apply sortAndDedupe_In in H. destruct H as [Hin Ht].
  apply in_map_iff in Hin. destruct Hin as (r & <- & Hr).
  exists r. repeat split; [exact Hr | apply toCandle_timed, Ht].
Qed.

Lemma normalizedCandles_keeps (h : Host) (values : list TwelveDataCandle.t)
      (r : TwelveDataCandle.t) :
  In r values -> datetimeParses h r ->
  exists c, In c (normalizedCandles h values)
            /\ CandlestickData.time c = CandlestickData.time (toCandle h r).
Proof.
  intros Hr Hp. apply toCandle_timed in Hp.
  destruct (CandlestickData.time (toCandle h r)) as [t|] eqn:Ht;
    [|congruence].
  pose proof (atTime_sortAndDedupe CandlestickData.time t
                                   (map (toCandle h) values)) as E.
  rewrite firstAtTime_map in E.
  destruct (find _ values) as [u|] eqn:Hfind.
  - exists (toCandle h u).
    assert (Hin : In (toCandle h u)
                     (atTime CandlestickData.time t
                             (normalizedCandles h values)))
      by (unfold normalizedCandles; rewrite E; left; reflexivity).
    apply filter_In in Hin. destruct Hin as [Hin Hu]. split; [exact Hin|].
    destruct (CandlestickData.time (toCandle h u)) as [t'|];
      [|discriminate Hu].
    simpl in Hu. apply Z.eqb_eq in Hu. congruence.
  - apply (find_none _ _ Hfind) in Hr. rewrite Ht in Hr. simpl in Hr.
    rewrite Z.eqb_refl in Hr. discriminate Hr.
Qed.

(** C4, as amended.  No parse failure fails the batch.  Whenever the body
    has values, the load completes: the status is the one that precedes
    the live connection, the error message is cleared, the flag is set
    and the candle series is replaced once.  A record whose datetime does
    not parse is left out of the replacement and every other record's
    instant is kept in it; each delivered candle carries the four prices
    as [parseFloat] returned them, NaN included. *)
Theorem loadHistoricalData_no_parse_error
        (h : Host) (data : TimeSeries.t) (st : PageState)
        (v : TwelveDataCandle.t) (vs : list TwelveDataCandle.t)
        (Hvalues : TimeSeries.values data = Some (v :: vs)) :
  let st' := loadHistoricalData h (Resolved data) st in
  let candles := normalizedCandles h (v :: vs) in
  status st' = "Connecting to live data..."%string
  /\ errorMessage st' = JS.Null
  /\ isHistoricalLoaded st' = true
  /\ sinkCalls st' = sinkCalls st ++ [CandleSetData candles]
  /\ (forall c, In c candles ->
                exists r, In r (v :: vs) /\ datetimeParses h r
                          /\ CandlestickData.time c
                             = convertToLocalTime h (utcTimestampOf h r)
                          /\ CandlestickData.open c
                             = parseFloat h (TwelveDataCandle.open r)
                          /\ CandlestickData.high c
                             = parseFloat h (TwelveDataCandle.high r)
                          /\ CandlestickData.low c
                             = parseFloat h (TwelveDataCandle.low r)
                          /\ CandlestickData.close c
                             = parseFloat h (TwelveDataCandle.close r))
  /\ (forall r, In r (v :: vs) -> datetimeParses h r ->
                exists c, In c candles
                          /\ CandlestickData.time c
                             = CandlestickData.time (toCandle h r)).
Proof.
  intros st' candles.
  destruct (loadHistoricalData_accepted h data st v vs Hvalues)
    as (H1 & H2 & H3 & _ & H5).
  repeat split; try assumption.
  - intros c Hc. destruct (normalizedCandles_In h _ c Hc) as (r & Hr & Hp & ->).
    exists r. repeat split; assumption.
  - intros r Hr Hp. apply normalizedCandles_keeps; assumption.
Qed.

Lemma loadHistoricalData_no_parse_error_witness :
  let st' :=
    loadHistoricalData (Engine.host 0)
                       (Resolved (Sample.body [Sample.noOpen]))
                       initialState in
  status st' = "Connecting to live data..."%string
  /\ sinkCalls st' =
     [CandleSetData
        [ {| CandlestickData.time := Some 1704103320;
             CandlestickData.open := JS.NaN;
             CandlestickData.high := JS.ofZ 42100;
             CandlestickData.low := Engine.parseFloat "41950.25";
             CandlestickData.close := JS.ofZ 42050 |} ]].
Proof.
  destruct (loadHistoricalData_no_parse_error
              (Engine.host 0) (Sample.body [Sample.noOpen]) initialState
              Sample.noOpen [] eq_refl)
    as (H1 & _ & _ & H4 & _).
  exact (conj H1 H4).
Defined.

(** Against C4 as stated: with a datetime that does not parse in the
    batch the load succeeds and the rest of the batch is shown; with a
    price that does not parse the load succeeds and the candle is shown
    with NaN. *)
Lemma unparsable_record_accepted :
  let h := Engine.host 0 in
  let st' :=
    loadHistoricalData
      h (Resolved (Sample.body [Sample.tenOClock; Sample.noDate]))
      initialState in
  let st'' :=
    loadHistoricalData h (Resolved (Sample.body [Sample.noOpen]))
                       initialState in
  Date_parse h (TwelveDataCandle.datetime Sample.noDate ++ "Z") = None
  /\ status st' = "Connecting to live data..."%string
  /\ errorMessage st' = JS.Null
  /\ sinkCalls st' = [CandleSetData [toCandle h Sample.tenOClock]]
  /\ parseFloat h (TwelveDataCandle.open Sample.noOpen) = JS.NaN
  /\ status st'' = "Connecting to live data..."%string
  /\ errorMessage st'' = JS.Null
  /\ sinkCalls st'' = [CandleSetData [toCandle h Sample.noOpen]].
Proof. repeat split. Qed.

(** The successful load, call by call. *)
Lemma volumeSeriesOf_snoc (calls : list SinkCall) (c : SinkCall) :
  volumeSeriesOf (calls ++ [c]) =
  match c with
  | VolumeSetData volumes => volumes
  | _ => volumeSeriesOf calls
  end.
Proof. unfold volumeSeriesOf. rewrite fold_left_app. reflexivity. Qed.

(** C8, as amended.  After a successful load the candle sequence, and
    only it, is handed to the sink, as a full replacement of the candle
    series.  The volume sequence is computed, sorted and deduplicated, and
    no call delivers it: the volume series stays as it was. *)
Theorem loadHistoricalData_delivers_candles
        (h : Host) (data : TimeSeries.t) (st : PageState)
        (v : TwelveDataCandle.t) (vs : list TwelveDataCandle.t)
        (Hvalues : TimeSeries.values data = Some (v :: vs)) :
  let st' := loadHistoricalData h (Resolved data) st in
  sinkCalls st' = sinkCalls st ++ [CandleSetData (normalizedCandles h (v :: vs))]
  /\ candleSeriesOf (sinkCalls st') = normalizedCandles h (v :: vs)
  /\ (forall volumes,
         In (VolumeSetData volumes) (sinkCalls st') ->
         In (VolumeSetData volumes) (sinkCalls st))
  /\ volumeSeriesOf (sinkCalls st') = volumeSeriesOf (sinkCalls st).
Proof.
  intros st'.
  destruct (loadHistoricalData_accepted h data st v vs Hvalues)
    as (_ & _ & _ & _ & H).
  fold st' in H. rewrite H. repeat split.
  - rewrite candleSeriesOf_snoc. reflexivity.
  - intros volumes Hin. apply in_app_or in Hin.
    destruct Hin as [Hin | [Hin | []]]; [exact Hin | discriminate Hin].
  - rewrite volumeSeriesOf_snoc. reflexivity.
Qed.

Lemma loadHistoricalData_delivers_candles_witness :
  let h := Engine.host 0 in
  let values := [Sample.oneMinutePast; Sample.tenOClock] in
  let st' := loadHistoricalData h (Resolved (Sample.body values))
                                initialState in
  candleSeriesOf (sinkCalls st')
  = [toCandle h Sample.tenOClock; toCandle h Sample.oneMinutePast]
  /\ volumeSeriesOf (sinkCalls st') = [].
Proof.
  destruct (loadHistoricalData_delivers_candles
              (Engine.host 0)
              (Sample.body [Sample.oneMinutePast; Sample.tenOClock])
              initialState Sample.oneMinutePast [Sample.tenOClock] eq_refl)
    as (_ & H2 & _ & H4).
  exact (conj H2 H4).
Defined.

(** Against C8 as stated: after a successful load the volume sequence is
    not empty and no call hands it to the sink. *)
Lemma volumes_not_delivered :
  let h := Engine.host 0 in
  let values := [Sample.oneMinutePast; Sample.tenOClock] in
  let st' := loadHistoricalData h (Resolved (Sample.body values))
                                initialState in
  status st' = "Connecting to live data..."%string
  /\ sinkCalls st' = [CandleSetData (normalizedCandles h values)]
  /\ normalizedVolumes h values
     = [toVolume h Sample.tenOClock; toVolume h Sample.oneMinutePast]
  /\ ~ In (VolumeSetData (normalizedVolumes h values)) (sinkCalls st')
  /\ volumeSeriesOf (sinkCalls st') <> normalizedVolumes h values.
Proof.
  intros h values st'.
  assert (Hcalls : sinkCalls st' = [CandleSetData (normalizedCandles h values)])
    by (vm_compute; reflexivity).
  assert (Hvolumes : normalizedVolumes h values
                     = [toVolume h Sample.tenOClock;
                        toVolume h Sample.oneMinutePast])
    by (vm_compute; reflexivity).
  split; [vm_compute; reflexivity|].
  split; [exact Hcalls|].
  split; [exact Hvolumes|].
  rewrite Hcalls, Hvolumes. split.
  - intros [H | []]. discriminate H.
  - unfold volumeSeriesOf. cbn [fold_left]. discriminate.
Qed.

(** * Further properties of the page *)

(** ** Buckets and local time *)

(** X1.  On the timestamps from 0 up to 2^52, bucketing is idempotent
    and monotone, moves by one interval when the timestamp does, and
    sends to one bucket exactly the timestamps of one minute: whatever
    lies from a bucket start up to the next has that bucket. *)
Theorem getCandleTimestamp_algebra (t u : Z)
        (Ht : exactSeconds t) (Hu : exactSeconds u) :
  getCandleTimestamp (getCandleTimestamp t) = getCandleTimestamp t
  /\ (t <= u -> getCandleTimestamp t <= getCandleTimestamp u)
  /\ (exactSeconds (t + CANDLE_INTERVAL) ->
      getCandleTimestamp (t + CANDLE_INTERVAL)
      = getCandleTimestamp t + CANDLE_INTERVAL)
  /\ (getCandleTimestamp u = getCandleTimestamp t
      <-> getCandleTimestamp t <= u < getCandleTimestamp t + CANDLE_INTERVAL).
Proof.
  rewrite (getCandleTimestamp_exact _ (getCandleTimestamp_range t Ht)).
  rewrite (getCandleTimestamp_exact t Ht), (getCandleTimestamp_exact u Hu).
  unfold bucketStart, CANDLE_INTERVAL.
  pose proof (Z.div_mod t 60) as Et. pose proof (Z.mod_pos_bound t 60) as Bt.
  pose proof (Z.div_mod u 60) as Eu. pose proof (Z.mod_pos_bound u 60) as Bu.
  split; [|split; [|split; [|split]]].
  - rewrite Z.div_mul by lia. reflexivity.
  - intros Htu. apply Z.mul_le_mono_nonneg_r; [lia|].
    apply Z.div_le_mono; lia.
  - intros Hn. rewrite (getCandleTimestamp_exact _ Hn).
    unfold bucketStart, CANDLE_INTERVAL.
    replace (t + 60) with (t + 1 * 60) by lia.
    rewrite Z.div_add by lia. lia.
  - lia.
  - intros [Hlo Hhi]. f_equal.
    assert (H1 : t / 60 <= u / 60).
    { rewrite <- (Z.div_mul (t / 60) 60) by lia.
      apply Z.div_le_mono; lia. }
    assert (H2 : u / 60 < t / 60 + 1).
    { apply Z.div_lt_upper_bound; lia. }
    lia.
Qed.

Lemma getCandleTimestamp_algebra_witness :
  getCandleTimestamp 1704103259 = getCandleTimestamp 1704103200
  /\ getCandleTimestamp 1704103200 <= getCandleTimestamp 1704103260.
Proof.
  destruct (getCandleTimestamp_algebra
              1704103200 1704103259
              (exactSeconds_check 1704103200 eq_refl)
              (exactSeconds_check 1704103259 eq_refl))
    as (_ & _ & _ & Hsame).
  destruct (getCandleTimestamp_algebra
              1704103200 1704103260
              (exactSeconds_check 1704103200 eq_refl)
              (exactSeconds_check 1704103260 eq_refl))
    as (_ & Hmono & _).
  split.
  - apply Hsame.
    assert (E : getCandleTimestamp 1704103200 = 1704103200)
      by (vm_compute; reflexivity).
    rewrite E. unfold CANDLE_INTERVAL. lia.
  - apply Hmono. lia.
Defined.

(** X2.  On times below 2^52 in magnitude the conversion to local time
    is a translation of the time line: it keeps strict order, equality
    and differences, so the comparator and the filter of the loader see
    local times as they would see UTC times; and it commutes with
    bucketing, the offset being whole minutes, where the local time is
    not negative.  It yields NaN on NaN only, whatever the time. *)
Theorem convertToLocalTime_translation (h : Host) (x y : Z)
        (Hx : Z.abs x < 2 ^ 52) (Hy : Z.abs y < 2 ^ 52) :
  (forall a, convertToLocalTime h a = None <-> a = None)
  /\ (time_lt (convertToLocalTime h (Some x)) (convertToLocalTime h (Some y))
      <-> x < y)
  /\ JS.time_seq (convertToLocalTime h (Some x)) (convertToLocalTime h (Some y))
     = (x =? y)
  /\ JS.time_sub (convertToLocalTime h (Some x)) (convertToLocalTime h (Some y))
     = JS.time_sub (Some x) (Some y)
  /\ (exactSeconds x -> exactSeconds (x - getTimezoneOffset h * 60) ->
      convertToLocalTime h (Some (getCandleTimestamp x))
      = Some (getCandleTimestamp (x - getTimezoneOffset h * 60))).
Proof.
  split; [|split; [|split; [|split]]].
  - intros a. unfold convertToLocalTime.
    destruct a; cbn [JS.time_sub]; split; congruence.
  - rewrite !convertToLocalTime_exact by assumption. unfold time_lt. lia.
  - apply time_seq_local; assumption.
  - rewrite !convertToLocalTime_exact by assumption.
    cbn [JS.time_sub]. unfold JS.sub. do 2 f_equal. lia.
  - intros Ex Elocal.
    destruct (getCandleTimestamp_range x Ex) as [R0 R1].
    rewrite convertToLocalTime_exact by (rewrite Z.abs_eq; assumption).
    rewrite (getCandleTimestamp_exact x Ex).
    rewrite (getCandleTimestamp_exact _ Elocal).
    f_equal. unfold bucketStart, CANDLE_INTERVAL.
    replace (x - getTimezoneOffset h * 60)
      with (x + (- getTimezoneOffset h) * 60) by lia.
    rewrite Z.div_add by lia. lia.
Qed.

Lemma convertToLocalTime_translation_witness :
  JS.time_seq (convertToLocalTime (Engine.host (-330)) (Some 1704103200))
              (convertToLocalTime (Engine.host (-330)) (Some 1704103260))
  = false
  /\ JS.time_sub (convertToLocalTime (Engine.host (-330)) (Some 1704103200))
                 (convertToLocalTime (Engine.host (-330)) (Some 1704103260))
     = Some (-60).
Proof.
  destruct (convertToLocalTime_translation
              (Engine.host (-330)) 1704103200 1704103260 eq_refl eq_refl)
    as (_ & _ & Hseq & Hsub & _).
  split.
  - rewrite Hseq. reflexivity.
  - rewrite Hsub. vm_compute. reflexivity.
Defined.

(** Above that range the conversion is no translation: one minute east
    of UTC, the times 2^55 and 2^55 + 8, eight seconds apart, have the
    same local time. *)
Example convertToLocalTime_collapses :
  convertToLocalTime (Engine.host (-1)) (Some (2 ^ 55)) = Some (2 ^ 55 + 64)
  /\ convertToLocalTime (Engine.host (-1)) (Some (2 ^ 55 + 8))
     = Some (2 ^ 55 + 64).
Proof. split; vm_compute; reflexivity. Qed.

(** ** The aggregator over runs of ticks *)

Lemma Math_max_NaN_l (y : JS.number) : JS.Math_max JS.NaN y = JS.NaN.
Proof. reflexivity. Qed.

Lemma Math_min_NaN_l (y : JS.number) : JS.Math_min JS.NaN y = JS.NaN.
Proof. reflexivity. Qed.

Lemma Math_max_self (x : JS.number) : JS.Math_max x x = x.
Proof.
  destruct x as [[|]|[|]| |s m e]; try reflexivity.
  unfold JS.Math_max. simpl.
  destruct (JS.lt _ _); reflexivity.
Qed.

Lemma Math_min_self (x : JS.number) : JS.Math_min x x = x.
Proof.
  destruct x as [[|]|[|]| |s m e]; try reflexivity.
  unfold JS.Math_min. simpl.
  destruct (JS.lt _ _); reflexivity.
Qed.

Lemma Math_max_NaN (x y : JS.number) :
  JS.isNaN x || JS.isNaN y = true -> JS.Math_max x y = JS.NaN.
Proof. unfold JS.Math_max. intros ->. reflexivity. Qed.

Lemma Math_min_NaN (x y : JS.number) :
  JS.isNaN x || JS.isNaN y = true -> JS.Math_min x y = JS.NaN.
Proof. unfold JS.Math_min. intros ->. reflexivity. Qed.

(** A price taken into the maximum a second time changes nothing. *)
Lemma Math_max_absorb (x y : JS.number) :
  JS.Math_max (JS.Math_max x y) y = JS.Math_max x y.
Proof.
  destruct (JS.isNaN x || JS.isNaN y) eqn:E.
  - rewrite (Math_max_NaN x y E). reflexivity.
  - apply orb_false_elim in E. destruct E as [Hx Hy].
    destruct (NumberFacts.max_spec x y Hx Hy) as (_ & _ & [H | H]).
    + rewrite H. exact H.
    + rewrite H. apply Math_max_self.
Qed.

Lemma Math_min_absorb (x y : JS.number) :
  JS.Math_min (JS.Math_min x y) y = JS.Math_min x y.
Proof.
  destruct (JS.isNaN x || JS.isNaN y) eqn:E.
  - rewrite (Math_min_NaN x y E). reflexivity.
  - apply orb_false_elim in E. destruct E as [Hx Hy].
    destruct (NumberFacts.min_spec x y Hx Hy) as (_ & _ & [H | H]).
    + rewrite H. exact H.
    + rewrite H. apply Math_min_self.
Qed.

(** An accepted tick, field by field. *)
Lemma onmessage_accepted (h : Host) (data : PriceEvent.t) (st : PageState) :
  accepted data = true ->
  forall c, currentCandleRef (onmessage h data st) = Some c ->
  onmessage h data st =
  {| currentCandleRef := Some c;
     currentPrice := Some (PriceEvent.price data);
     isHistoricalLoaded := isHistoricalLoaded st;
     status := status st;
     errorMessage := errorMessage st;
     sinkCalls :=
       sinkCalls st ++
       [CandleUpdate
          {| CandlestickData.time :=
               convertToLocalTime
                 h (Some (getCandleTimestamp (PriceEvent.timestamp data)));
             CandlestickData.open := CandleAggregator.open c;
             CandlestickData.high := CandleAggregator.high c;
             CandlestickData.low := CandleAggregator.low c;
             CandlestickData.close := CandleAggregator.close c |}] |}.
Proof.
  intros Hacc c. unfold onmessage. rewrite Hacc. simpl.
  intros Hc. injection Hc as <-. reflexivity.
Qed.

Lemma held_bucket (h : Host) (data : PriceEvent.t) (st : PageState)
      (c : CandleAggregator.t) :
  accepted data = true ->
  currentCandleRef (onmessage h data st) = Some c ->
  CandleAggregator.timestamp c = getCandleTimestamp (PriceEvent.timestamp data)
  /\ CandleAggregator.close c = PriceEvent.price data
  /\ CandleAggregator.lastUpdate c = PriceEvent.timestamp data.
Proof.
  intros Hacc. rewrite (onmessage_candle h data st Hacc).
  intros Hc. injection Hc as <-.
  destruct (currentCandleRef st) as [c0|]; [|repeat split].
  destruct (Z.eqb_spec (CandleAggregator.timestamp c0)
                       (getCandleTimestamp (PriceEvent.timestamp data)));
    simpl; repeat split. assumption.
Qed.

(** X3.  After every accepted tick the held candle is of the tick's
    bucket, closes at the tick's price and is stamped with the tick's
    time; the price shown is the tick's; and the one call made on the
    chart carries the held candle's four prices at the local time of its
    bucket, so the chart's last update always mirrors the held candle. *)
Theorem onmessage_latest (h : Host) (data : PriceEvent.t) (st : PageState)
        (Hacc : accepted data = true) :
  exists c,
    currentCandleRef (onmessage h data st) = Some c
    /\ CandleAggregator.timestamp c
       = getCandleTimestamp (PriceEvent.timestamp data)
    /\ CandleAggregator.close c = PriceEvent.price data
    /\ CandleAggregator.lastUpdate c = PriceEvent.timestamp data
    /\ currentPrice (onmessage h data st) = Some (PriceEvent.price data)
    /\ sinkCalls (onmessage h data st) =
       sinkCalls st ++
       [CandleUpdate
          {| CandlestickData.time :=
               convertToLocalTime h (Some (CandleAggregator.timestamp c));
             CandlestickData.open := CandleAggregator.open c;
             CandlestickData.high := CandleAggregator.high c;
             CandlestickData.low := CandleAggregator.low c;
             CandlestickData.close := CandleAggregator.close c |}].
Proof.
  destruct (onmessage_call h data st Hacc) as (c & Hc & Hcalls).
  destruct (held_bucket h data st c Hacc Hc) as (Hb & Hclose & Hlast).
  exists c. rewrite Hb. repeat split; try assumption.
  rewrite (onmessage_accepted h data st Hacc c Hc). reflexivity.
Qed.

Lemma onmessage_latest_witness :
  exists c,
    currentCandleRef
      (feed (Engine.host 0) Sample.firstMinute initialState) = Some c
    /\ CandleAggregator.timestamp c = 0
    /\ CandleAggregator.close c = JS.ofZ 90.
Proof.
  destruct (onmessage_latest
              (Engine.host 0) (Sample.tick 59 (JS.ofZ 90))
              (feed (Engine.host 0)
                    [Sample.tick 0 (JS.ofZ 100); Sample.tick 30 (JS.ofZ 110)]
                    initialState)
              eq_refl)
    as (c & Hc & Hb & Hclose & _).
  exists c. exact (conj Hc (conj Hb Hclose)).
Defined.

(** X4.  A tick delivered twice in a row leaves the aggregator as the
    first delivery left it: the held candle and the price shown are the
    same, and the second delivery only repeats the call the first one
    made. *)
Theorem onmessage_duplicate (h : Host) (data : PriceEvent.t) (st : PageState)
        (Hacc : accepted data = true) :
  exists candleData,
    sinkCalls (onmessage h data st) = sinkCalls st ++ [CandleUpdate candleData]
    /\ onmessage h data (onmessage h data st)
       = call (CandleUpdate candleData) (onmessage h data st).
Proof.
  destruct (onmessage_call h data st Hacc) as (c & Hc & Hcalls).
  destruct (held_bucket h data st c Hacc Hc) as (Hb & Hclose & Hlast).
  eexists. split; [exact Hcalls|].
  assert (Hc2 : currentCandleRef (onmessage h data (onmessage h data st))
                = Some c).
  { rewrite (onmessage_candle h data _ Hacc), Hc, Hb, Z.eqb_refl. simpl.
    f_equal. unfold updateCandle.
    destruct c as [ts o hi lo cl lu]. simpl in *. subst cl lu ts.
    f_equal.
    - revert Hc. rewrite (onmessage_candle h data st Hacc).
      intros Hc. injection Hc as Hc.
      destruct (currentCandleRef st) as [c0|].
      + destruct (negb _).
        * inversion Hc. apply Math_max_self.
        * inversion Hc. apply Math_max_absorb.
      + inversion Hc. apply Math_max_self.
    - revert Hc. rewrite (onmessage_candle h data st Hacc).
      intros Hc. injection Hc as Hc.
      destruct (currentCandleRef st) as [c0|].
      + destruct (negb _).
        * inversion Hc. apply Math_min_self.
        * inversion Hc. apply Math_min_absorb.
      + inversion Hc. apply Math_min_self. }
  rewrite (onmessage_accepted h data _ Hacc c Hc2).
  rewrite (onmessage_accepted h data st Hacc c Hc). reflexivity.
Qed.

Lemma onmessage_duplicate_witness :
  let h := Engine.host 0 in
  let st := feed h [Sample.tick 0 (JS.ofZ 100); Sample.tick 30 (JS.ofZ 110)]
                 initialState in
  let e := Sample.tick 59 (JS.ofZ 90) in
  currentCandleRef (onmessage h e (onmessage h e st))
  = currentCandleRef (onmessage h e st).
Proof.
  intros h st e.
  destruct (onmessage_duplicate h e st eq_refl) as (candleData & _ & H).
  rewrite H. reflexivity.
Defined.

Lemma feed_snoc (h : Host) (events : list PriceEvent.t) (e : PriceEvent.t)
      (st : PageState) :
  feed h (events ++ [e]) st = onmessage h e (feed h events st).
Proof. unfold feed. rewrite fold_left_app. reflexivity. Qed.

Lemma onmessage_frame (h : Host) (data : PriceEvent.t) (st : PageState) :
  status (onmessage h data st) = status st
  /\ errorMessage (onmessage h data st) = errorMessage st
  /\ isHistoricalLoaded (onmessage h data st) = isHistoricalLoaded st.
Proof.
  unfold onmessage. destruct (accepted data); repeat split.
Qed.

(** X5.  A run of the feed makes one call on the chart per accepted
    event and none for the others; each is an update, never a
    replacement; the calls made before the run stay, in order, ahead of
    them; and the run changes neither the status, nor the error message,
    nor the loaded flag. *)
Theorem feed_accounting (h : Host) (events : list PriceEvent.t)
        (st : PageState) :
  exists calls,
    sinkCalls (feed h events st) = sinkCalls st ++ calls
    /\ List.length calls = acceptedCount events
    /\ forallb isUpdate calls = true
    /\ status (feed h events st) = status st
    /\ errorMessage (feed h events st) = errorMessage st
    /\ isHistoricalLoaded (feed h events st) = isHistoricalLoaded st.
Proof.
  revert st. induction events as [|e events IH]; intros st.
  - exists []. simpl. rewrite app_nil_r. repeat split.
  - simpl feed. destruct (IH (onmessage h e st))
      as (calls & Hcalls & Hlen & Hup & Hs & Hm & Hl).
    destruct (onmessage_frame h e st) as (Fs & Fm & Fl).
    unfold feed in *. simpl fold_left.
    destruct (accepted e) eqn:E.
    + destruct (onmessage_call h e st E) as (c & _ & Hone).
      eexists (_ :: calls). rewrite Hcalls, Hone, <- app_assoc.
      split; [reflexivity|].
      unfold acceptedCount in *. simpl. rewrite E. simpl.
      rewrite Hlen, Hup. repeat split; congruence.
    + exists calls. rewrite Hcalls.
      unfold acceptedCount in *. simpl. rewrite E.
      assert (Hst : onmessage h e st = st)
        by (unfold onmessage; rewrite E; reflexivity).
      rewrite Hst in *. repeat split; assumption.
Qed.

(** The held candle after more ticks of its bucket. *)
Lemma feed_same_bucket (h : Host) (rest : list PriceEvent.t) :
  forall (st : PageState) (c : CandleAggregator.t),
    currentCandleRef st = Some c ->
    Forall (fun e => accepted e = true
                     /\ getCandleTimestamp (PriceEvent.timestamp e)
                        = CandleAggregator.timestamp c) rest ->
    currentCandleRef (feed h rest st) =
    Some {| CandleAggregator.timestamp := CandleAggregator.timestamp c;
            CandleAggregator.open := CandleAggregator.open c;
            CandleAggregator.high :=
              highest (CandleAggregator.high c) (map PriceEvent.price rest);
            CandleAggregator.low :=
              lowest (CandleAggregator.low c) (map PriceEvent.price rest);
            CandleAggregator.close :=
              last (map PriceEvent.price rest) (CandleAggregator.close c);
            CandleAggregator.lastUpdate :=
              last (map PriceEvent.timestamp rest)
                   (CandleAggregator.lastUpdate c) |}.
Proof.
  induction rest as [|e rest IH] using rev_ind; intros st c Hc Hall.
  - simpl. rewrite Hc. destruct c; reflexivity.
  - apply Forall_app in Hall. destruct Hall as [Hrest He].
    inversion He as [|? ? [Hacc Hb] _]; subst.
    rewrite feed_snoc, (onmessage_candle h e _ Hacc).
    rewrite (IH st c Hc Hrest). simpl CandleAggregator.timestamp.
    rewrite Hb, Z.eqb_refl. simpl negb. cbv iota.
    unfold updateCandle, highest, lowest.
    rewrite !map_app. cbn [map]. rewrite !fold_left_app, !last_last.
    reflexivity.
Qed.

Lemma highest_bounds (rest : list JS.number) :
  forall first,
    JS.isNaN first = false -> Forall (fun p => JS.isNaN p = false) rest ->
    JS.isNaN (highest first rest) = false
    /\ Forall (fun p => JS.le p (highest first rest) = true) (first :: rest)
    /\ In (highest first rest) (first :: rest).
Proof.
  unfold highest.
  induction rest as [|p rest IH]; intros first Hf Hall; simpl.
  - repeat split; auto. constructor; [apply NumberFacts.le_refl, Hf | constructor].
  - inversion Hall as [|? ? Hp Hrest]; subst.
    destruct (NumberFacts.max_spec first p Hf Hp) as (M1 & M2 & M3).
    destruct (NumberFacts.le_not_NaN _ _ M1) as [_ Hm].
    destruct (IH (JS.Math_max first p) Hm Hrest) as (N & B & I).
    inversion B as [|? ? B1 B2]; subst.
    repeat split; [exact N | | ].
    + constructor; [exact (NumberFacts.le_trans _ _ _ M1 B1)|].
      constructor; [exact (NumberFacts.le_trans _ _ _ M2 B1) | exact B2].
    + destruct I as [I | I]; [|right; right; exact I].
      rewrite <- I. destruct M3 as [-> | ->]; [left | right; left]; reflexivity.
Qed.

Lemma lowest_bounds (rest : list JS.number) :
  forall first,
    JS.isNaN first = false -> Forall (fun p => JS.isNaN p = false) rest ->
    JS.isNaN (lowest first rest) = false
    /\ Forall (fun p => JS.le (lowest first rest) p = true) (first :: rest)
    /\ In (lowest first rest) (first :: rest).
Proof.
  unfold lowest.
  induction rest as [|p rest IH]; intros first Hf Hall; simpl.
  - repeat split; auto. constructor; [apply NumberFacts.le_refl, Hf | constructor].
  - inversion Hall as [|? ? Hp Hrest]; subst.
    destruct (NumberFacts.min_spec first p Hf Hp) as (M1 & M2 & M3).
    destruct (NumberFacts.le_not_NaN _ _ M1) as [Hm _].
    destruct (IH (JS.Math_min first p) Hm Hrest) as (N & B & I).
    inversion B as [|? ? B1 B2]; subst.
    repeat split; [exact N | | ].
    + constructor; [exact (NumberFacts.le_trans _ _ _ B1 M1)|].
      constructor; [exact (NumberFacts.le_trans _ _ _ B1 M2) | exact B2].
    + destruct I as [I | I]; [|right; right; exact I].
      rewrite <- I. destruct M3 as [-> | ->]; [left | right; left]; reflexivity.
Qed.

(** X6.  The ticks of one bucket, however many, summarize to one candle:
    starting where no candle is held or the held one is of another
    bucket, a first tick and the ticks after it, all accepted and of the
    bucket [b], leave the candle of [b] whose open is the first price,
    whose close and stamp are the last tick's, and whose high and low are
    the running maximum and minimum of the prices.  When no price is NaN
    the high and the low are prices of the run and every price of the run
    lies between them. *)
Theorem bucket_summary (h : Host) (st : PageState) (b : Z)
        (first : PriceEvent.t) (rest : list PriceEvent.t)
        (Hopens : match currentCandleRef st with
                  | Some c => CandleAggregator.timestamp c <> b
                  | None => True
                  end)
        (Hrun : Forall (fun e => accepted e = true
                                 /\ getCandleTimestamp (PriceEvent.timestamp e)
                                    = b) (first :: rest)) :
  let prices := map PriceEvent.price rest in
  let high := highest (PriceEvent.price first) prices in
  let low := lowest (PriceEvent.price first) prices in
  currentCandleRef (feed h (first :: rest) st) =
  Some {| CandleAggregator.timestamp := b;
          CandleAggregator.open := PriceEvent.price first;
          CandleAggregator.high := high;
          CandleAggregator.low := low;
          CandleAggregator.close := last prices (PriceEvent.price first);
          CandleAggregator.lastUpdate :=
            last (map PriceEvent.timestamp rest) (PriceEvent.timestamp first) |}
  /\ (Forall jsonPrice (first :: rest) ->
      In high (PriceEvent.price first :: prices)
      /\ In low (PriceEvent.price first :: prices)
      /\ Forall (fun p => JS.le low p = true /\ JS.le p high = true)
                (PriceEvent.price first :: prices)).
Proof.
  intros prices high low.
  inversion Hrun as [|? ? [Hacc Hb] Hrest]; subst.
  set (b := getCandleTimestamp (PriceEvent.timestamp first)) in *.
  assert (H1 : currentCandleRef (onmessage h first st) =
               Some (newCandle b (PriceEvent.price first)
                               (PriceEvent.timestamp first))).
  { rewrite (onmessage_candle h first st Hacc). fold b.
    destruct (currentCandleRef st) as [c|]; [|reflexivity].
    destruct (Z.eqb_spec (CandleAggregator.timestamp c) b);
      [contradiction | reflexivity]. }
  split.
  - change (feed h (first :: rest) st)
      with (feed h rest (onmessage h first st)).
    rewrite (feed_same_bucket h rest _ _ H1 Hrest). reflexivity.
  - intros Hprices.
    inversion Hprices as [|? ? Hf Hr]; subst.
    assert (Hr' : Forall (fun p => JS.isNaN p = false) prices).
    { unfold prices. apply Forall_map. exact Hr. }
    destruct (highest_bounds prices _ Hf Hr') as (_ & HB & HI).
    destruct (lowest_bounds prices _ Hf Hr') as (_ & LB & LI).
    split; [exact HI|]. split; [exact LI|].
    rewrite Forall_forall in HB, LB |- *.
    intros p Hp. split; [apply LB | apply HB]; exact Hp.
Qed.

Lemma bucket_summary_witness :
  currentCandleRef (feed (Engine.host 0) Sample.firstMinute initialState) =
  Some {| CandleAggregator.timestamp := 0;
          CandleAggregator.open := JS.ofZ 100;
          CandleAggregator.high :=
            highest (JS.ofZ 100) [JS.ofZ 110; JS.ofZ 90];
          CandleAggregator.low :=
            lowest (JS.ofZ 100) [JS.ofZ 110; JS.ofZ 90];
          CandleAggregator.close := JS.ofZ 90;
          CandleAggregator.lastUpdate := 59 |}.
Proof.
  assert (Hrun : Forall (fun e => accepted e = true
                                  /\ getCandleTimestamp (PriceEvent.timestamp e)
                                     = 0) Sample.firstMinute)
    by (repeat (apply Forall_cons; [split; reflexivity|]); apply Forall_nil).
  destruct (bucket_summary (Engine.host 0) initialState 0
                           (Sample.tick 0 (JS.ofZ 100))
                           [Sample.tick 30 (JS.ofZ 110);
                            Sample.tick 59 (JS.ofZ 90)] I Hrun)
    as [H _].
  exact H.
Defined.

(** ** Sorting and filtering, further *)

Section Normalizing.
Context {A : Type} (time : A -> JS.time).

Lemma increasing_timed (l : list A) :
  increasing time l -> (2 <= List.length l)%nat ->
  Forall (fun a => time a <> None) l.
Proof.
  induction 1 as [|x l Hs IH Hx]; intros Hlen; [constructor|].
  destruct l as [|y l]; [simpl in Hlen; lia|].
  assert (Hy : time x <> None /\ time y <> None).
  { inversion Hx as [|? ? Hxy _]; subst. unfold time_lt in Hxy.
    destruct (time x), (time y); try contradiction. split; discriminate. }
  constructor; [apply Hy|].
  destruct l as [|z l].
  - constructor; [apply Hy | constructor].
  - apply IH. simpl. lia.
Qed.

Lemma increasing_NoDup (l : list A) :
  increasing time l -> NoDup (map time l).
Proof.
  induction 1 as [|x l Hs IH Hx]; simpl; constructor; [|exact IH].
  intros Hin. apply in_map_iff in Hin. destruct Hin as (z & Hz & Hin).
  rewrite Forall_forall in Hx. specialize (Hx z Hin).
  unfold time_lt in Hx. rewrite Hz in Hx.
  destruct (time x); [lia | contradiction].
Qed.

(** Where no time occurs twice the filter keeps every entry. *)
Lemma dedupeAfter_keeps_all (l : list A) :
  Forall (fun a => time a <> None) l -> NoDup (map time l) ->
  forall pre,
    (forall y x, In y pre -> In x l -> time y <> time x) ->
    dedupeAfter time pre l = l.
Proof.
  induction l as [|x l IH]; intros Ht Hnd pre Hpre; [reflexivity|].
  inversion Ht as [|? ? Hx Hl]; subst.
  inversion Hnd as [|? ? Hnotin Hnd']; subst.
  simpl.
  destruct (time x) as [a|] eqn:Ea; [|congruence].
  simpl JS.time_seq at 1. rewrite Z.eqb_refl. simpl andb.
  assert (Hnone : existsb (fun y => JS.time_seq (time y) (Some a)) pre = false).
  { destruct (existsb _ pre) eqn:E; [|reflexivity].
    apply existsb_exists in E. destruct E as (y & Hy & Hsame).
    exfalso. apply (Hpre y x Hy (or_introl eq_refl)).
    destruct (time y) as [b|]; [|discriminate Hsame].
    simpl in Hsame. apply Z.eqb_eq in Hsame. congruence. }
  rewrite Hnone. simpl. f_equal.
  apply IH; [exact Hl | exact Hnd'|].
  intros y z Hy Hz. apply in_app_or in Hy. destruct Hy as [Hy | [<- | []]].
  - apply Hpre; [exact Hy | right; exact Hz].
  - intros Heq. apply Hnotin. rewrite <- Ea, Heq. apply in_map, Hz.
Qed.

Lemma sortAndDedupe_perm (l : list A) :
  Forall (fun a => time a <> None) l -> NoDup (map time l) ->
  Permutation (sortAndDedupe time l) l.
Proof.
  intros Ht Hnd. unfold sortAndDedupe. rewrite filter_dedupeAfter.
  pose proof (sort_perm (byTime time) l) as P.
  rewrite dedupeAfter_keeps_all; [exact P | | | intros y x []].
  - apply (Permutation_Forall (Permutation_sym P)), Ht.
  - apply (Permutation_NoDup (Permutation_map time (Permutation_sym P))), Hnd.
Qed.

(** Two arrays of the same entries, each strictly increasing in time, are
    one array. *)
Lemma increasing_unique (l1 l2 : list A) :
  increasing time l1 -> increasing time l2 -> Permutation l1 l2 -> l1 = l2.
Proof.
  intros H1. revert l2. induction H1 as [|x l1 Hs1 IH Hx]; intros l2 H2 P.
  - apply Permutation_nil in P. congruence.
  - destruct l2 as [|y l2]; [apply Permutation_sym, Permutation_nil in P;
                              discriminate|].
    inversion H2 as [|? ? Hs2 Hy]; subst.
    assert (E : x = y).
    { assert (Hxin : In x (y :: l2))
        by (apply (Permutation_in _ P); left; reflexivity).
      assert (Hyin : In y (x :: l1))
        by (apply (Permutation_in _ (Permutation_sym P)); left; reflexivity).
      destruct Hxin as [-> | Hxin]; [reflexivity|].
      destruct Hyin as [-> | Hyin]; [reflexivity|].
      rewrite Forall_forall in Hx, Hy.
      specialize (Hx y Hyin). specialize (Hy x Hxin).
      unfold time_lt in *. destruct (time x), (time y); try contradiction.
      lia. }
    subst y. f_equal. apply IH; [exact Hs2|].
    apply Permutation_cons_inv with x. exact P.
Qed.

(** Sorting and filtering commute with a map that keeps the times. *)
Lemma sort_insert_map {B : Type} (f : B -> A) (x : B) (l : list B) :
  JS.sort_insert (byTime time) (f x) (map f l)
  = map f (JS.sort_insert (byTime (fun b => time (f b))) x l).
Proof.
  induction l as [|y l IH]; [reflexivity|].
  simpl. change (byTime time (f y) (f x))
    with (byTime (fun b => time (f b)) y x).
  destruct (JS.negative _); simpl; [rewrite IH|]; reflexivity.
Qed.

Lemma sort_map {B : Type} (f : B -> A) (l : list B) :
  JS.sort (byTime time) (map f l)
  = map f (JS.sort (byTime (fun b => time (f b))) l).
Proof.
  induction l as [|x l IH]; [reflexivity|].
  simpl. rewrite IH. apply sort_insert_map.
Qed.

Lemma existsb_over_map {B : Type} (f : B -> A) (p : A -> bool) (l : list B) :
  existsb p (map f l) = existsb (fun b => p (f b)) l.
Proof.
  induction l as [|x l IH]; [reflexivity|]. simpl. rewrite IH. reflexivity.
Qed.

Lemma dedupeAfter_map {B : Type} (f : B -> A) (pre l : list B) :
  dedupeAfter time (map f pre) (map f l)
  = map f (dedupeAfter (fun b => time (f b)) pre l).
Proof.
  revert pre. induction l as [|x l IH]; intros pre; [reflexivity|].
  simpl. rewrite existsb_over_map.
  specialize (IH (pre ++ [x])). rewrite map_app in IH. simpl in IH.
  rewrite IH. destruct (_ && _); reflexivity.
Qed.

Lemma sortAndDedupe_map {B : Type} (f : B -> A) (l : list B) :
  sortAndDedupe time (map f l)
  = map f (sortAndDedupe (fun b => time (f b)) l).
Proof.
  unfold sortAndDedupe. rewrite !filter_dedupeAfter, sort_map.
  exact (dedupeAfter_map f [] _).
Qed.

Lemma dedupeAfter_length (pre l : list A) :
  (List.length (dedupeAfter time pre l) <= List.length l)%nat.
Proof.
  revert pre. induction l as [|x l IH]; intros pre; simpl; [lia|].
  specialize (IH (pre ++ [x])). destruct (_ && _); simpl; lia.
Qed.

Lemma sortAndDedupe_length (l : list A) :
  (List.length (sortAndDedupe time l) <= List.length l)%nat.
Proof.
  unfold sortAndDedupe. rewrite filter_dedupeAfter.
  rewrite <- (Permutation_length (sort_perm (byTime time) l)).
  apply dedupeAfter_length.
Qed.

End Normalizing.

(** ** The historical loader, further *)

(** X7.  When the request or the decoding of its body throws, the page
    is in the error state with the message of the error, or with
    "Network error" when what was thrown is not an error; the chart
    receives no call, and the loaded flag, the held candle and the price
    shown stay as they were. *)
Theorem loadHistoricalData_thrown (h : Host) (fetched : Fetched)
        (st : PageState)
        (Hthrown : forall data, fetched <> Resolved data) :
  let st' := loadHistoricalData h fetched st in
  status st' = "Error"%string
  /\ errorMessage st' = match fetched with
                        | ThrownError message => JS.Str message
                        | _ => JS.Str "Network error"
                        end
  /\ sinkCalls st' = sinkCalls st
  /\ isHistoricalLoaded st' = isHistoricalLoaded st
  /\ currentCandleRef st' = currentCandleRef st
  /\ currentPrice st' = currentPrice st.
Proof.
  destruct fetched as [data|message|].
  - exfalso. apply (Hthrown data). reflexivity.
  - repeat split.
  - repeat split.
Qed.

Lemma loadHistoricalData_thrown_witness :
  let st' := loadHistoricalData (Engine.host 0) (ThrownError "Failed to fetch")
                                initialState in
  status st' = "Error"%string
  /\ errorMessage st' = JS.Str "Failed to fetch"
  /\ sinkCalls st' = [].
Proof.
  destruct (loadHistoricalData_thrown
              (Engine.host 0) (ThrownError "Failed to fetch") initialState)
    as (H1 & H2 & H3 & _).
  - intros data. discriminate.
  - exact (conj H1 (conj H2 H3)).
Defined.

Lemma errorMsgOf_truthy (data : TimeSeries.t) :
  JS.truthy (errorMsgOf data) = true.
Proof.
  unfold errorMsgOf, JS.or.
  destruct (JS.truthy (TimeSeries.message data)) eqn:Em.
  - rewrite Em. exact Em.
  - destruct (JS.truthy (TimeSeries.code data)) eqn:Ec.
    + exact Ec.
    + reflexivity.
Qed.

(** X8.  The error panel after a load.  A body without values always
    brings the panel up, with the upstream message, the upstream code or
    the fixed text, never with an empty one; a body with values takes it
    down; a thrown error brings it up with its message unless the message
    is the empty text, in which case the status says "Error" and no panel
    is shown. *)
Theorem errorOverlay_after_load (h : Host) (st : PageState) :
  (forall data, noValues data = true ->
                errorOverlay (loadHistoricalData h (Resolved data) st)
                = Some (errorMsgOf data)
                /\ errorMsgOf data <> JS.Str ""
                /\ errorMsgOf data <> JS.Null
                /\ errorMsgOf data <> JS.Undefined)
  /\ (forall data, noValues data = false ->
                   errorOverlay (loadHistoricalData h (Resolved data) st)
                   = None)
  /\ (forall message,
         errorOverlay (loadHistoricalData h (ThrownError message) st)
         = if (message =? "")%string then None else Some (JS.Str message))
  /\ errorOverlay (loadHistoricalData h ThrownOther st)
     = Some (JS.Str "Network error").
Proof.
  repeat split.
  - rewrite (loadHistoricalData_rejected h data st H).
    unfold errorOverlay. simpl. rewrite errorMsgOf_truthy. reflexivity.
  - intros E. pose proof (errorMsgOf_truthy data) as T.
    rewrite E in T. discriminate T.
  - intros E. pose proof (errorMsgOf_truthy data) as T.
    rewrite E in T. discriminate T.
  - intros E. pose proof (errorMsgOf_truthy data) as T.
    rewrite E in T. discriminate T.
  - intros data H. unfold noValues in H.
    destruct (TimeSeries.values data) as [[|v vs]|] eqn:Ev;
      try discriminate H.
    destruct (loadHistoricalData_accepted h data st v vs Ev)
      as (_ & Hm & _).
    unfold errorOverlay. rewrite Hm. reflexivity.
  - intros message. unfold errorOverlay. simpl.
    destruct (message =? "")%string; reflexivity.
Qed.

Lemma errorOverlay_after_load_witness :
  errorOverlay
    (loadHistoricalData (Engine.host 0) (Resolved Sample.badRequest)
                        initialState)
  = Some (JS.Str "400").
Proof.
  destruct (errorOverlay_after_load (Engine.host 0) initialState)
    as (H & _).
  destruct (H Sample.badRequest eq_refl) as (H1 & _).
  exact H1.
Defined.

Lemma last_Some_snoc {B : Type} (front : list B) (c : B) :
  last (map Some (front ++ [c])) None = Some c.
Proof. rewrite map_app. simpl. apply last_last. Qed.

Lemma increasing_snoc {B : Type} (time : B -> JS.time) (front : list B)
      (c : B) :
  increasing time (front ++ [c]) ->
  Forall (fun c' => time_lt (time c') (time c)) front.
Proof.
  unfold increasing. induction front as [|x front IH]; intros H;
    [constructor|].
  simpl in H. inversion H as [|? ? Hs Hx]; subst.
  constructor; [|apply IH, Hs].
  rewrite Forall_forall in Hx. apply Hx, in_or_app. right. left. reflexivity.
Qed.

Lemma loadHistoricalData_price (h : Host) (data : TimeSeries.t)
      (st : PageState) (v : TwelveDataCandle.t) (vs : list TwelveDataCandle.t) :
  TimeSeries.values data = Some (v :: vs) ->
  currentPrice (loadHistoricalData h (Resolved data) st) =
  match last (map Some (normalizedCandles h (v :: vs))) None with
  | Some c => Some (CandlestickData.close c)
  | None => currentPrice st
  end.
Proof.
  intros Hv. unfold loadHistoricalData, noValues. rewrite Hv. simpl.
  destruct (last _ _); reflexivity.
Qed.

(** X9.  After a successful load the price shown is the close of the last
    candle delivered to the chart, which, when every datetime of the
    batch parses, is the candle of the latest instant of the batch; when
    no candle is delivered the price shown stays as it was. *)
Theorem loadHistoricalData_currentPrice
        (h : Host) (data : TimeSeries.t) (st : PageState)
        (v : TwelveDataCandle.t) (vs : list TwelveDataCandle.t)
        (Hvalues : TimeSeries.values data = Some (v :: vs)) :
  let st' := loadHistoricalData h (Resolved data) st in
  let candles := normalizedCandles h (v :: vs) in
  (candles = [] -> currentPrice st' = currentPrice st)
  /\ (forall front c,
         candles = front ++ [c] ->
         currentPrice st' = Some (CandlestickData.close c)
         /\ (Forall (datetimeParses h) (v :: vs) ->
             Forall (fun c' => time_lt (CandlestickData.time c')
                                       (CandlestickData.time c)) front
             /\ forall r, In r (v :: vs) ->
                          time_le (CandlestickData.time (toCandle h r))
                                  (CandlestickData.time c))).
Proof.
  intros st' candles.
  pose proof (loadHistoricalData_price h data st v vs Hvalues) as P.
  fold st' candles in P. split.
  - intros E. rewrite P, E. reflexivity.
  - intros front c E. rewrite P, E, last_Some_snoc.
    split; [reflexivity|]. intros Hparse.
    assert (Hinc : increasing CandlestickData.time (front ++ [c])).
    { rewrite <- E. apply sortAndDedupe_increasing, candles_timed, Hparse. }
    pose proof (increasing_snoc _ _ _ Hinc) as Hfront.
    split; [exact Hfront|].
    intros r Hr. rewrite Forall_forall in Hparse.
    destruct (normalizedCandles_keeps h (v :: vs) r Hr (Hparse r Hr))
      as (c' & Hc' & Ht).
    fold candles in Hc'. rewrite E in Hc'. rewrite <- Ht.
    apply in_app_or in Hc'. destruct Hc' as [Hc' | [<- | []]].
    + rewrite Forall_forall in Hfront. specialize (Hfront c' Hc').
      unfold time_lt in Hfront. unfold time_le.
      destruct (CandlestickData.time c'), (CandlestickData.time c);
        try contradiction. lia.
    + assert (Hc : CandlestickData.time c <> None).
      { apply (sortAndDedupe_In CandlestickData.time
                                (map (toCandle h) (v :: vs)) c).
        fold (normalizedCandles h (v :: vs)). fold candles. rewrite E.
        apply in_or_app. right. left. reflexivity. }
      unfold time_le. destruct (CandlestickData.time c); [lia | congruence].
Qed.

Lemma loadHistoricalData_currentPrice_witness :
  currentPrice
    (loadHistoricalData
       (Engine.host 0)
       (Resolved (Sample.body [Sample.oneMinutePast; Sample.tenOClock]))
       initialState)
  = Some (JS.ofZ 42010).
Proof.
  destruct (loadHistoricalData_currentPrice
              (Engine.host 0)
              (Sample.body [Sample.oneMinutePast; Sample.tenOClock])
              initialState Sample.oneMinutePast [Sample.tenOClock] eq_refl)
    as (_ & H).
  destruct (H [toCandle (Engine.host 0) Sample.tenOClock]
              (toCandle (Engine.host 0) Sample.oneMinutePast))
    as (Hp & _).
  - vm_compute. reflexivity.
  - rewrite Hp. vm_compute. reflexivity.
Defined.

Lemma normalizedCandles_empty (h : Host) (values : list TwelveDataCandle.t) :
  normalizedCandles h values = []
  <-> Forall (fun r => ~ datetimeParses h r) values.
Proof.
  split.
  - intros E. apply Forall_forall. intros r Hr Hp.
    destruct (normalizedCandles_keeps h values r Hr Hp) as (c & Hc & _).
    rewrite E in Hc. exact Hc.
  - intros Hnone. rewrite Forall_forall in Hnone.
    destruct (normalizedCandles h values) as [|c l] eqn:E; [reflexivity|].
    destruct (normalizedCandles_In h values c) as (r & Hr & Hp & _).
    + rewrite E. left. reflexivity.
    + exfalso. exact (Hnone r Hr Hp).
Qed.

(** X10.  A batch delivers no candle exactly when none of its datetimes
    parses.  Such a batch, though not empty, is not an error: the candle
    series is replaced by the empty series, the price shown stays, and the
    page goes on to the live phase with the loaded flag set. *)
Theorem loadHistoricalData_nothing_parses
        (h : Host) (data : TimeSeries.t) (st : PageState)
        (v : TwelveDataCandle.t) (vs : list TwelveDataCandle.t)
        (Hvalues : TimeSeries.values data = Some (v :: vs)) :
  (normalizedCandles h (v :: vs) = []
   <-> Forall (fun r => ~ datetimeParses h r) (v :: vs))
  /\ (Forall (fun r => ~ datetimeParses h r) (v :: vs) ->
      let st' := loadHistoricalData h (Resolved data) st in
      sinkCalls st' = sinkCalls st ++ [CandleSetData []]
      /\ status st' = "Connecting to live data..."%string
      /\ errorMessage st' = JS.Null
      /\ isHistoricalLoaded st' = true
      /\ currentPrice st' = currentPrice st
      /\ attach st' <> None).
Proof.
  split; [apply normalizedCandles_empty|].
  intros Hnone st'. apply normalizedCandles_empty in Hnone.
  destruct (loadHistoricalData_accepted h data st v vs Hvalues)
    as (H1 & H2 & H3 & _ & H5).
  pose proof (loadHistoricalData_price h data st v vs Hvalues) as P.
  fold st' in H1, H2, H3, H5, P. rewrite Hnone in H5, P.
  repeat split; try assumption.
  unfold attach. rewrite H3. discriminate.
Qed.

Lemma loadHistoricalData_nothing_parses_witness :
  sinkCalls
    (loadHistoricalData
       (Engine.host 0)
       (Resolved (Sample.body [Sample.noDate; Sample.noDateAgain]))
       initialState)
  = [CandleSetData []].
Proof.
  destruct (loadHistoricalData_nothing_parses
              (Engine.host 0)
              (Sample.body [Sample.noDate; Sample.noDateAgain])
              initialState Sample.noDate [Sample.noDateAgain] eq_refl)
    as (_ & H).
  destruct H as (H1 & _).
  - repeat (apply Forall_cons; [intros Hp; apply Hp; reflexivity|]).
    apply Forall_nil.
  - exact H1.
Defined.

(** X11.  The candle sequence and the volume sequence come from the same
    records in the same order: there is one list of records of the batch,
    no longer than the batch, of which the candles are the candles and the
    volume bars the volume bars; so the two sequences have one length and,
    entry by entry, one time. *)
Theorem candles_volumes_aligned (h : Host)
        (values : list TwelveDataCandle.t) :
  exists records,
    normalizedCandles h values = map (toCandle h) records
    /\ normalizedVolumes h values = map (toVolume h) records
    /\ (forall r, In r records -> In r values)
    /\ (List.length records <= List.length values)%nat
    /\ map CandlestickData.time (normalizedCandles h values)
       = map HistogramData.time (normalizedVolumes h values).
Proof.
  exists (sortAndDedupe (fun r => CandlestickData.time (toCandle h r)) values).
  assert (Hc : normalizedCandles h values =
               map (toCandle h)
                   (sortAndDedupe
                      (fun r => CandlestickData.time (toCandle h r)) values))
    by apply sortAndDedupe_map.
  assert (Hv : normalizedVolumes h values =
               map (toVolume h)
                   (sortAndDedupe
                      (fun r => CandlestickData.time (toCandle h r)) values))
    by apply (sortAndDedupe_map HistogramData.time (toVolume h)).
  split; [exact Hc|]. split; [exact Hv|]. split; [|split].
  - intros r Hr. apply (sortAndDedupe_In _ _ _ Hr).
  - apply sortAndDedupe_length.
  - rewrite Hc, Hv, !map_map. reflexivity.
Qed.

(** X12.  The sort and the filter leave alone an array that is already
    strictly increasing in time; hence normalizing is idempotent on the
    candles of a batch whose datetimes all parse. *)
Theorem sortAndDedupe_fixed (h : Host) (candles : list CandlestickData.t)
        (Hinc : increasing CandlestickData.time candles)
        (Htimed : Forall (fun c => CandlestickData.time c <> None) candles) :
  sortAndDedupe CandlestickData.time candles = candles
  /\ (forall values,
         Forall (datetimeParses h) values ->
         sortAndDedupe CandlestickData.time (normalizedCandles h values)
         = normalizedCandles h values).
Proof.
  assert (K : forall l,
             increasing CandlestickData.time l ->
             Forall (fun c => CandlestickData.time c <> None) l ->
             sortAndDedupe CandlestickData.time l = l).
  { intros l Hl Ht. apply (increasing_unique CandlestickData.time).
    - apply sortAndDedupe_increasing, Ht.
    - exact Hl.
    - apply sortAndDedupe_perm; [exact Ht | apply increasing_NoDup, Hl]. }
  split; [apply K; assumption|].
  intros values Hparse. apply K.
  - apply sortAndDedupe_increasing, candles_timed, Hparse.
  - apply Forall_forall. intros c Hc.
    apply (sortAndDedupe_In _ _ _ Hc).
Qed.

Lemma sortAndDedupe_fixed_witness :
  let h := Engine.host 0 in
  let candles := [toCandle h Sample.tenOClock; toCandle h Sample.oneMinutePast] in
  sortAndDedupe CandlestickData.time candles = candles.
Proof.
  intros h candles.
  destruct (sortAndDedupe_fixed h candles) as [H _].
  - repeat constructor.
  - repeat constructor; discriminate.
  - exact H.
Defined.

(** X13.  When the datetimes of a batch all parse and no two records are
    of one instant, the order in which the response lists the records
    does not matter: every rearrangement of the batch normalizes to the
    same candles and the same volume bars, and none of the records is
    dropped. *)
Theorem normalized_order_independent
        (h : Host) (values values' : list TwelveDataCandle.t)
        (Hparse : Forall (datetimeParses h) values)
        (Hdistinct : NoDup (map (fun r => CandlestickData.time (toCandle h r))
                                values))
        (Hperm : Permutation values values') :
  normalizedCandles h values = normalizedCandles h values'
  /\ normalizedVolumes h values = normalizedVolumes h values'
  /\ Permutation (normalizedCandles h values) (map (toCandle h) values)
  /\ List.length (normalizedCandles h values) = List.length values.
Proof.
  assert (Hparse' : Forall (datetimeParses h) values')
    by (apply (Permutation_Forall Hperm), Hparse).
  assert (Hdistinct' : NoDup (map (fun r => CandlestickData.time (toCandle h r))
                                  values'))
    by (apply (Permutation_NoDup (Permutation_map _ Hperm)), Hdistinct).
  assert (Pc : forall vs,
             Forall (datetimeParses h) vs ->
             NoDup (map (fun r => CandlestickData.time (toCandle h r)) vs) ->
             Permutation (normalizedCandles h vs) (map (toCandle h) vs)).
  { intros vs Hp Hd. apply sortAndDedupe_perm; [apply candles_timed, Hp|].
    rewrite map_map. exact Hd. }
  assert (Pv : forall vs,
             Forall (datetimeParses h) vs ->
             NoDup (map (fun r => CandlestickData.time (toCandle h r)) vs) ->
             Permutation (normalizedVolumes h vs) (map (toVolume h) vs)).
  { intros vs Hp Hd. apply sortAndDedupe_perm; [apply volumes_timed, Hp|].
    rewrite map_map. exact Hd. }
  repeat split.
  - apply (increasing_unique CandlestickData.time).
    + apply sortAndDedupe_increasing, candles_timed, Hparse.
    + apply sortAndDedupe_increasing, candles_timed, Hparse'.
    + apply perm_trans with (map (toCandle h) values);
        [apply Pc; assumption|].
      apply perm_trans with (map (toCandle h) values');
        [apply Permutation_map, Hperm|].
      apply Permutation_sym, Pc; assumption.
  - apply (increasing_unique HistogramData.time).
    + apply sortAndDedupe_increasing, volumes_timed, Hparse.
    + apply sortAndDedupe_increasing, volumes_timed, Hparse'.
    + apply perm_trans with (map (toVolume h) values);
        [apply Pv; assumption|].
      apply perm_trans with (map (toVolume h) values');
        [apply Permutation_map, Hperm|].
      apply Permutation_sym, Pv; assumption.
  - apply Pc; assumption.
  - rewrite (Permutation_length (Pc values Hparse Hdistinct)).
    apply length_map.
Qed.

Lemma normalized_order_independent_witness :
  let h := Engine.host 0 in
  normalizedCandles h [Sample.oneMinutePast; Sample.tenOClock]
  = normalizedCandles h [Sample.tenOClock; Sample.oneMinutePast].
Proof.
  intros h.
  destruct (normalized_order_independent
              h [Sample.oneMinutePast; Sample.tenOClock]
              [Sample.tenOClock; Sample.oneMinutePast])
    as (H & _).
  - repeat (apply Forall_cons; [discriminate|]). apply Forall_nil.
  - vm_compute. repeat constructor; simpl; intuition discriminate.
  - apply perm_swap.
  - exact H.
Defined.

(** ** From the historical load to the live feed *)

(** X14.  The first live tick after a load, when it falls in the minute
    of a record of the batch, carries the tick's price alone as open,
    high, low and close: the aggregator starts the minute afresh and
    takes nothing from the historical candle.  The tick is converted to
    local time with the zone offset of its own run, [h'], the record was
    with the one of the load, [h]: the update goes to the record's time,
    where the load has put an entry, if the two offsets are the same;
    and if they differ, as across a change of daylight saving, it goes
    to another time, whatever tick of a timestamp from 0 up to 2^52 it
    is. *)
Theorem first_tick_meets_history
        (h h' : Host) (data : TimeSeries.t) (st : PageState)
        (v : TwelveDataCandle.t) (vs : list TwelveDataCandle.t)
        (r : TwelveDataCandle.t) (e : PriceEvent.t)
        (Hvalues : TimeSeries.values data = Some (v :: vs))
        (Hr : In r (v :: vs))
        (Hnone : currentCandleRef st = None)
        (Hacc : accepted e = true)
        (Hminute : utcTimestampOf h r
                   = Some (getCandleTimestamp (PriceEvent.timestamp e))) :
  let st' := onmessage h' e (loadHistoricalData h (Resolved data) st) in
  let sent :=
    convertToLocalTime h' (Some (getCandleTimestamp (PriceEvent.timestamp e)))
  in
  (exists c, In c (normalizedCandles h (v :: vs))
             /\ CandlestickData.time c = CandlestickData.time (toCandle h r))
  /\ sinkCalls st' =
     sinkCalls st ++
     [CandleSetData (normalizedCandles h (v :: vs));
      CandleUpdate
        {| CandlestickData.time := sent;
           CandlestickData.open := PriceEvent.price e;
           CandlestickData.high := PriceEvent.price e;
           CandlestickData.low := PriceEvent.price e;
           CandlestickData.close := PriceEvent.price e |}]
  /\ (getTimezoneOffset h' = getTimezoneOffset h ->
      sent = CandlestickData.time (toCandle h r))
  /\ (exactTick e -> getTimezoneOffset h' <> getTimezoneOffset h ->
      sent <> CandlestickData.time (toCandle h r)).
Proof.
  intros st' sent.
  assert (Hrecord : CandlestickData.time (toCandle h r)
                    = convertToLocalTime
                        h (Some (getCandleTimestamp (PriceEvent.timestamp e)))).
  { cbn [toCandle CandlestickData.time]. rewrite Hminute. reflexivity. }
  split; [|split; [|split]].
  - apply normalizedCandles_keeps; [exact Hr|].
    apply toCandle_timed. rewrite Hrecord.
    unfold convertToLocalTime. cbn [JS.time_sub]. discriminate.
  - destruct (loadHistoricalData_accepted h data st v vs Hvalues)
      as (_ & _ & _ & Hc & Hcalls).
    unfold st'.
    assert (Hheld : currentCandleRef
                      (onmessage h' e (loadHistoricalData h (Resolved data) st))
                    = Some (newCandle
                              (getCandleTimestamp (PriceEvent.timestamp e))
                              (PriceEvent.price e) (PriceEvent.timestamp e))).
    { rewrite (onmessage_candle h' e _ Hacc), Hc, Hnone. reflexivity. }
    rewrite (onmessage_accepted h' e _ Hacc _ Hheld). cbn [sinkCalls].
    rewrite Hcalls, <- app_assoc. reflexivity.
  - intros Hsame. rewrite Hrecord. unfold sent, convertToLocalTime.
    rewrite Hsame. reflexivity.
  - intros Hexact Hchanged. rewrite Hrecord. unfold sent.
    destruct (getCandleTimestamp_range _ Hexact) as [R0 R1].
    rewrite !convertToLocalTime_exact by (rewrite Z.abs_eq; assumption).
    intros H. injection H as H. lia.
Qed.

Lemma first_tick_meets_history_witness :
  let h := Engine.host 0 in
  let h' := Engine.host (-60) in
  let batch := [Sample.oneMinutePast; Sample.tenOClock] in
  let e := Sample.tick 1704103275 (JS.ofZ 42020) in
  CandlestickData.time (toCandle h Sample.oneMinutePast) = Some 1704103260
  /\ convertToLocalTime h (Some (getCandleTimestamp (PriceEvent.timestamp e)))
     = Some 1704103260
  /\ convertToLocalTime h' (Some (getCandleTimestamp (PriceEvent.timestamp e)))
     = Some 1704106860
  /\ sinkCalls
       (onmessage h' e
                  (loadHistoricalData h (Resolved (Sample.body batch))
                                      initialState))
     = [CandleSetData (normalizedCandles h batch);
        CandleUpdate
          {| CandlestickData.time :=
               convertToLocalTime
                 h' (Some (getCandleTimestamp (PriceEvent.timestamp e)));
             CandlestickData.open := JS.ofZ 42020;
             CandlestickData.high := JS.ofZ 42020;
             CandlestickData.low := JS.ofZ 42020;
             CandlestickData.close := JS.ofZ 42020 |}].
Proof.
  intros h h' batch e.
  assert (Hminute : utcTimestampOf h Sample.oneMinutePast
                    = Some (getCandleTimestamp (PriceEvent.timestamp e)))
    by (vm_compute; reflexivity).
  destruct (first_tick_meets_history
              h h (Sample.body batch) initialState
              Sample.oneMinutePast [Sample.tenOClock] Sample.oneMinutePast e
              eq_refl (or_introl eq_refl) eq_refl eq_refl Hminute)
    as (_ & _ & Hsame & _).
  destruct (first_tick_meets_history
              h h' (Sample.body batch) initialState
              Sample.oneMinutePast [Sample.tenOClock] Sample.oneMinutePast e
              eq_refl (or_introl eq_refl) eq_refl eq_refl Hminute)
    as (_ & Hcalls & _ & _).
  split; [vm_compute; reflexivity|].
  split; [rewrite (Hsame eq_refl); vm_compute; reflexivity|].
  split; [vm_compute; reflexivity|].
  exact Hcalls.
Defined.

(** X15.  The label beside "Current Price:" after an accepted tick shows
    the tick's price, unless the price is a zero or NaN: then the label
    falls back to "Loading..." although a candle is held.  An event that
    is not accepted leaves the label as it was. *)
Theorem priceLabel_after_tick (h : Host) (data : PriceEvent.t)
        (st : PageState) :
  (accepted data = true ->
   priceLabel (onmessage h data st)
   = (if numberTruthy (PriceEvent.price data)
      then Dollars (PriceEvent.price data) else LoadingLabel)
   /\ (priceLabel (onmessage h data st) = LoadingLabel
       <-> (exists s, PriceEvent.price data = S754_zero s)
           \/ PriceEvent.price data = JS.NaN)
   /\ currentCandleRef (onmessage h data st) <> None)
  /\ (accepted data = false ->
      priceLabel (onmessage h data st) = priceLabel st).
Proof.
  split.
  - intros Hacc.
    destruct (onmessage_call h data st Hacc) as (c & Hc & _).
    assert (Hp : currentPrice (onmessage h data st)
                 = Some (PriceEvent.price data))
      by (rewrite (onmessage_accepted h data st Hacc c Hc); reflexivity).
    unfold priceLabel. rewrite Hp, Hc.
    split; [reflexivity|]. split; [|discriminate].
    destruct (PriceEvent.price data) as [s|s| |s m e]; simpl; split;
      try discriminate; eauto;
      intros [[s' H] | H]; discriminate H.
  - intros Hacc. unfold onmessage. rewrite Hacc. reflexivity.
Qed.

Lemma priceLabel_after_tick_witness :
  priceLabel (onmessage (Engine.host 0) (Sample.tick 60 (JS.ofZ 0))
                        initialState)
  = LoadingLabel
  /\ priceLabel (onmessage (Engine.host 0) (Sample.tick 60 (JS.ofZ 95))
                           initialState)
     = Dollars (JS.ofZ 95).
Proof.
  destruct (priceLabel_after_tick (Engine.host 0)
                                  (Sample.tick 60 (JS.ofZ 0)) initialState)
    as [H0 _].
  destruct (priceLabel_after_tick (Engine.host 0)
                                  (Sample.tick 60 (JS.ofZ 95)) initialState)
    as [H95 _].
  destruct (H0 eq_refl) as (E0 & _). destruct (H95 eq_refl) as (E95 & _).
  exact (conj E0 E95).
Defined.

(** ** The live connection *)

(** X16.  The live connection is attached only after a successful load:
    from a page that has not loaded yet, the effect opens a socket
    exactly when the response carried values; after a body without
    values, or a thrown error, it returns at its guard.  The socket it
    opens is connecting, with nothing sent and no interval running. *)
Theorem attach_after_load (h : Host) (fetched : Fetched) (st : PageState)
        (Hfresh : isHistoricalLoaded st = false) :
  (attach (loadHistoricalData h fetched st) <> None
   <-> exists data v vs,
        fetched = Resolved data /\ TimeSeries.values data = Some (v :: vs))
  /\ (forall s, attach (loadHistoricalData h fetched st) = Some s ->
                page s = loadHistoricalData h fetched st
                /\ readyState s = CONNECTING
                /\ sent s = [] /\ intervals s = []
                /\ status (page s) = "Connecting to live data..."%string).
Proof.
  assert (K : isHistoricalLoaded (loadHistoricalData h fetched st) = true
              <-> exists data v vs,
                   fetched = Resolved data
                   /\ TimeSeries.values data = Some (v :: vs)).
  { destruct fetched as [data|m|].
    - destruct (TimeSeries.values data) as [[|v vs]|] eqn:Ev.
      + rewrite loadHistoricalData_rejected
          by (apply noValues_true; auto).
        simpl. rewrite Hfresh. split; [discriminate|].
        intros (d & v & vs & Hd & Hv). injection Hd as <-. congruence.
      + destruct (loadHistoricalData_accepted h data st v vs Ev)
          as (_ & _ & H3 & _).
        rewrite H3. split; [|reflexivity]. intros _. eauto.
      + rewrite loadHistoricalData_rejected
          by (apply noValues_true; auto).
        simpl. rewrite Hfresh. split; [discriminate|].
        intros (d & v & vs & Hd & Hv). injection Hd as <-. congruence.
    - simpl. rewrite Hfresh. split; [discriminate|].
      intros (d & v & vs & Hd & _). discriminate Hd.
    - simpl. rewrite Hfresh. split; [discriminate|].
      intros (d & v & vs & Hd & _). discriminate Hd. }
  split.
  - rewrite <- K. unfold attach.
    destruct (isHistoricalLoaded (loadHistoricalData h fetched st)); split.
    + reflexivity.
    + discriminate.
    + intros H. exfalso. apply H. reflexivity.
    + discriminate.
  - intros s. unfold attach.
    destruct (isHistoricalLoaded (loadHistoricalData h fetched st)) eqn:E;
      [|discriminate].
    intros Hs. injection Hs as <-. simpl. repeat split.
    destruct (proj1 K eq_refl) as (data & v & vs & -> & Hv).
    apply (loadHistoricalData_accepted h data st v vs Hv).
Qed.

Lemma attach_after_load_witness :
  attach (loadHistoricalData (Engine.host 0) (Resolved Sample.badRequest)
                             initialState) = None
  /\ attach (loadHistoricalData (Engine.host 0)
                                (Resolved (Sample.body [Sample.tenOClock]))
                                initialState) <> None.
Proof.
  destruct (attach_after_load (Engine.host 0) (Resolved Sample.badRequest)
                              initialState eq_refl) as [H1 _].
  destruct (attach_after_load (Engine.host 0)
                              (Resolved (Sample.body [Sample.tenOClock]))
                              initialState eq_refl) as [H2 _].
  split.
  - destruct (attach _) eqn:E; [|reflexivity].
    exfalso. assert (Hne : Some s <> None) by discriminate.
    apply H1 in Hne. destruct Hne as (d & v & vs & Hd & Hv).
    injection Hd as <-. discriminate Hv.
  - apply H2. exists (Sample.body [Sample.tenOClock]), Sample.tenOClock, [].
    split; reflexivity.
Defined.

Lemma attach_invariant (st : PageState) (s : Session) :
  attach st = Some s -> sessionInvariant s.
Proof.
  unfold attach. destruct (isHistoricalLoaded st); [|discriminate].
  intros H. injection H as <-. unfold sessionInvariant. simpl.
  repeat split; auto. left. split; [reflexivity | discriminate].
Qed.

Lemma clearHeartbeatInterval_stops (s : Session) :
  sessionInvariant s -> intervals (clearHeartbeatInterval s) = [].
Proof.
  intros (_ & [H | (id & Hi & Hv & _)] & _); unfold clearHeartbeatInterval.
  - destruct (heartbeatInterval s); simpl; rewrite H; reflexivity.
  - rewrite Hv. simpl. rewrite Hi. simpl. rewrite Pos.eqb_refl. reflexivity.
Qed.

Lemma clearHeartbeatInterval_frame (s : Session) :
  page (clearHeartbeatInterval s) = page s
  /\ readyState (clearHeartbeatInterval s) = readyState s
  /\ sent (clearHeartbeatInterval s) = sent s
  /\ heartbeatInterval (clearHeartbeatInterval s) = heartbeatInterval s.
Proof.
  unfold clearHeartbeatInterval. destruct (heartbeatInterval s) eqn:E;
    simpl; repeat split; auto.
Qed.

Lemma step_invariant (h : Host) (e : HostEvent) (s s' : Session) :
  sessionInvariant s -> step h e s = Some s' -> sessionInvariant s'.
Proof.
  intros Inv Hstep.
  pose proof (clearHeartbeatInterval_stops s Inv) as Hstop.
  destruct Inv as (I1 & I2 & I3).
  destruct e as [|data| | | |id|]; simpl in Hstep.
  - destruct (readyState s) eqn:R; try discriminate.
    injection Hstep as <-. destruct (I1 eq_refl) as (Hs & Hi & Hv).
    unfold sessionInvariant. simpl. rewrite Hs, Hi. simpl.
    split; [discriminate|]. split.
    + right. eexists. repeat split. left. reflexivity.
    + right. exists 0%nat. reflexivity.
  - destruct (readyState s) eqn:R; try discriminate.
    injection Hstep as <-. unfold sessionInvariant. simpl. rewrite R.
    split; [discriminate|]. split; [|exact I3].
    destruct I2 as [H | (i & ? & ? & ?)]; [left; exact H|].
    right. exists i. repeat split; auto.
  - destruct (readyState s) eqn:R; try discriminate;
      injection Hstep as <-; unfold sessionInvariant; simpl; rewrite R;
      (split; [exact I1|]); (split; [exact I2 | exact I3]).
  - destruct (readyState s) eqn:R; try discriminate.
    injection Hstep as <-. unfold sessionInvariant. simpl.
    split; [discriminate|]. split.
    + destruct I2 as [H | (i & ? & ? & ?)]; [left; exact H|].
      right. exists i. repeat split; auto.
    + destruct I3 as [[Hs Hn] | H]; [congruence | right; exact H].
  - assert (K : sessionInvariant
                  (onclose (setReadyState CLOSED s))).
    { unfold sessionInvariant, onclose. simpl.
      destruct (clearHeartbeatInterval_frame (setReadyState CLOSED s))
        as (_ & Fr & Fs & _).
      assert (Hstop' : intervals (clearHeartbeatInterval
                                    (setReadyState CLOSED s)) = []).
      { unfold clearHeartbeatInterval. simpl.
        destruct (heartbeatInterval s) eqn:Ev; simpl.
        - destruct I2 as [H | (i & Hi & Hv & _)].
          + rewrite H. reflexivity.
          + rewrite Hi. simpl. injection Hv as ->.
            rewrite Pos.eqb_refl. reflexivity.
        - destruct I2 as [H | (i & Hi & Hv & _)]; [exact H | discriminate Hv]. }
      rewrite Fr, Fs, Hstop'. simpl.
      split; [discriminate|]. split; [left; reflexivity|].
      destruct I3 as [[Hs _] | H]; [left; split; [exact Hs | discriminate]
                                   | right; exact H]. }
    destruct (readyState s); try discriminate;
      injection Hstep as <-; exact K.
  - destruct (existsb (Pos.eqb id) (intervals s)) eqn:E; [|discriminate].
    injection Hstep as <-.
    assert (D : readyState s = OPEN \/ heartbeat s = s)
      by (unfold heartbeat; destruct (readyState s); auto).
    destruct D as [R | D]; [|rewrite D; exact (conj I1 (conj I2 I3))].
    unfold heartbeat. rewrite R. unfold sessionInvariant, wsSend. simpl.
    split; [intros H; congruence|]. split; [exact I2|]. rewrite R.
    destruct I3 as [[_ Hn] | (n & Hn)]; [congruence|].
    right. exists (S n). rewrite Hn. simpl. f_equal.
    rewrite <- repeat_cons. reflexivity.
  - injection Hstep as <-. unfold cleanup, sessionInvariant, wsClose. simpl.
    destruct (clearHeartbeatInterval_frame s) as (_ & Fr & Fs & _).
    rewrite Fr, Fs, Hstop.
    split.
    + destruct (readyState s); discriminate.
    + split; [left; reflexivity|].
      destruct I3 as [[Hs _] | H]; [|right; exact H].
      left. split; [exact Hs|]. destruct (readyState s); discriminate.
Qed.

Lemma run_invariant (h : Host) (events : list HostEvent) :
  forall s s', sessionInvariant s -> run h events s = Some s' ->
               sessionInvariant s'.
Proof.
  induction events as [|e events IH]; intros s s' Inv Hrun; simpl in Hrun.
  - injection Hrun as <-. exact Inv.
  - destruct (step h e s) as [s1|] eqn:E; [|discriminate].
    apply (IH s1 s'); [|exact Hrun].
    apply (step_invariant h e s s1 Inv E).
Qed.

Lemma run_app (h : Host) (events1 events2 : list HostEvent) (s : Session) :
  run h (events1 ++ events2) s =
  match run h events1 s with
  | Some s1 => run h events2 s1
  | None => None
  end.
Proof.
  revert s. induction events1 as [|e events1 IH]; intros s; simpl;
    [reflexivity|].
  destruct (step h e s); [apply IH | reflexivity].
Qed.

Lemma step_sends (h : Host) (e : HostEvent) (s s' : Session) :
  step h e s = Some s' ->
  sent s' = sent s
  \/ (readyState s' = OPEN /\ exists c, sent s' = sent s ++ [c]).
Proof.
  destruct e as [|data| | | |id|]; simpl; intros Hstep.
  - destruct (readyState s); try discriminate. injection Hstep as <-.
    right. simpl. split; [reflexivity | eauto].
  - destruct (readyState s); try discriminate. injection Hstep as <-.
    left. reflexivity.
  - destruct (readyState s); try discriminate; injection Hstep as <-;
      left; reflexivity.
  - destruct (readyState s); try discriminate. injection Hstep as <-.
    left. reflexivity.
  - assert (K : sent (onclose (setReadyState CLOSED s)) = sent s).
    { unfold onclose. simpl.
      apply (clearHeartbeatInterval_frame (setReadyState CLOSED s)). }
    destruct (readyState s); try discriminate; injection Hstep as <-;
      left; exact K.
  - destruct (existsb _ _); [|discriminate]. injection Hstep as <-.
    unfold heartbeat. destruct (readyState s) eqn:R; auto.
    right. unfold wsSend. simpl. rewrite R. split; [reflexivity | eauto].
  - injection Hstep as <-. left. unfold cleanup, wsClose. simpl.
    apply (clearHeartbeatInterval_frame s).
Qed.

(** X17.  Whatever the host does to a session once attached, the page
    sends the subscription to "BTC/USD" once, as the first thing it
    sends, and after it heartbeats only; it sends only on an open socket;
    at most one interval runs, and only while the socket is open or
    closing; and while the socket is still connecting nothing has been
    sent and no interval runs. *)
Theorem session_commands (h : Host) (st : PageState) (s0 s : Session)
        (events : list HostEvent)
        (Hattach : attach st = Some s0)
        (Hrun : run h events s0 = Some s) :
  (sent s = [] \/ exists n, sent s = Subscribe "BTC/USD" :: repeat Heartbeat n)
  /\ (intervals s = []
      \/ exists id, intervals s = [id]
                    /\ (readyState s = OPEN \/ readyState s = CLOSING))
  /\ (readyState s = CONNECTING -> sent s = [] /\ intervals s = [])
  /\ (forall e s', step h e s = Some s' ->
                   sent s' = sent s
                   \/ (readyState s' = OPEN
                       /\ exists c, sent s' = sent s ++ [c])).
Proof.
  pose proof (run_invariant h events s0 s (attach_invariant st s0 Hattach) Hrun)
    as (I1 & I2 & I3).
  repeat split.
  - destruct I3 as [[H _] | H]; auto.
  - destruct I2 as [H | (id & H1 & _ & H3)]; eauto.
  - apply I1, H.
  - apply I1, H.
  - intros e s'. apply step_sends.
Qed.

Lemma session_commands_witness :
  let h := Engine.host 0 in
  let st := loadHistoricalData h (Resolved (Sample.body [Sample.tenOClock]))
                               initialState in
  match attach st with
  | Some s0 =>
      match run h [SocketOpens; IntervalFires 1;
                   SocketDelivers (Sample.tick 0 (JS.ofZ 100));
                   IntervalFires 1; SocketCloses] s0 with
      | Some s =>
          sent s = [Subscribe "BTC/USD"; Heartbeat; Heartbeat]
          /\ (sent s = []
              \/ exists n, sent s = Subscribe "BTC/USD" :: repeat Heartbeat n)
      | None => False
      end
  | None => False
  end.
Proof.
  intros h st.
  destruct (attach st) as [s0|] eqn:Ea; [|vm_compute in Ea; discriminate Ea].
  destruct (run h [SocketOpens; IntervalFires 1;
                   SocketDelivers (Sample.tick 0 (JS.ofZ 100));
                   IntervalFires 1; SocketCloses] s0) as [s|] eqn:Er;
    [|vm_compute in Ea; injection Ea as <-;
      vm_compute in Er; discriminate Er].
  destruct (session_commands h st s0 s _ Ea Er) as (H & _).
  split; [|exact H].
  vm_compute in Ea. injection Ea as <-.
  vm_compute in Er. injection Er as <-. reflexivity.
Defined.

Lemma step_quiet (h : Host) (e : HostEvent) (s s' : Session) :
  quiet s -> step h e s = Some s' ->
  quiet s' /\ sent s' = sent s /\ sameButStatus (page s') (page s).
Proof.
  intros [Hi Hr] Hstep.
  assert (Hclear : clearHeartbeatInterval s = s
                   \/ intervals (clearHeartbeatInterval s) = []).
  { right. unfold clearHeartbeatInterval.
    destruct (heartbeatInterval s); simpl; rewrite Hi; reflexivity. }
  assert (Hstop : intervals (clearHeartbeatInterval s) = [])
    by (destruct Hclear as [-> | H]; assumption).
  destruct (clearHeartbeatInterval_frame s) as (Fp & Fr & Fs & _).
  destruct e as [|data| | | |id|]; simpl in Hstep.
  - destruct Hr as [R | R]; rewrite R in Hstep; discriminate.
  - destruct Hr as [R | R]; rewrite R in Hstep; discriminate.
  - destruct Hr as [R | R]; rewrite R in Hstep; try discriminate.
    injection Hstep as <-. unfold quiet, sameButStatus. simpl.
    rewrite Hi, R. repeat split; auto.
  - destruct Hr as [R | R]; rewrite R in Hstep; discriminate.
  - destruct Hr as [R | R]; rewrite R in Hstep; try discriminate.
    injection Hstep as <-. unfold onclose, quiet, sameButStatus.
    destruct (clearHeartbeatInterval_frame (setReadyState CLOSED s))
      as (Gp & Gr & Gs & _).
    assert (Gi : intervals (clearHeartbeatInterval (setReadyState CLOSED s))
                 = []).
    { unfold clearHeartbeatInterval. simpl.
      destruct (heartbeatInterval s); simpl; rewrite Hi; reflexivity. }
    simpl. rewrite Gp, Gr, Gs, Gi. simpl. repeat split; auto.
  - rewrite Hi in Hstep. discriminate.
  - injection Hstep as <-. unfold cleanup, wsClose, quiet, sameButStatus.
    simpl. rewrite Fp, Fr, Fs, Hstop.
    repeat split; auto. destruct Hr as [-> | ->]; auto.
Qed.

Lemma run_quiet (h : Host) (events : list HostEvent) :
  forall s s', quiet s -> run h events s = Some s' ->
               quiet s' /\ sent s' = sent s
               /\ sameButStatus (page s') (page s)
               /\ delivered events = [].
Proof.
  induction events as [|e events IH]; intros s s' Q Hrun; simpl in Hrun.
  - injection Hrun as <-. unfold sameButStatus. repeat split; apply Q.
  - destruct (step h e s) as [s1|] eqn:E; [|discriminate].
    destruct (step_quiet h e s s1 Q E) as (Q1 & S1 & P1).
    destruct (IH s1 s' Q1 Hrun) as (Q' & S' & P' & D').
    split; [exact Q'|]. split; [congruence|]. split.
    + unfold sameButStatus in *. intuition congruence.
    + destruct e; simpl; try exact D'.
      destruct Q as [_ [R | R]]; simpl in E; rewrite R in E; discriminate E.
Qed.

Lemma cleanup_quiet (s : Session) :
  sessionInvariant s -> quiet (cleanup s).
Proof.
  intros Inv. unfold quiet, cleanup, wsClose. simpl.
  rewrite (clearHeartbeatInterval_stops s Inv).
  split; [reflexivity|].
  destruct (readyState (clearHeartbeatInterval s)); auto.
Qed.

Lemma closed_quiet (s : Session) :
  sessionInvariant s -> readyState s = CLOSED -> quiet s.
Proof.
  intros (_ & I2 & _) R. split; [|right; exact R].
  destruct I2 as [H | (id & _ & _ & [H | H])]; [exact H | congruence ..].
Qed.

(** X18.  Once the socket has closed, or the effect has been cleaned up,
    the session is quiet for good: whatever the host does next, no
    interval runs, nothing more is sent, no price event reaches the
    aggregator, and the held candle, the price shown and the calls made
    on the chart stay as they were. *)
Theorem session_quiet (h : Host) (st : PageState) (s0 s s' : Session)
        (events events' : list HostEvent)
        (Hattach : attach st = Some s0)
        (Hrun : run h events s0 = Some s)
        (Hover : readyState s = CLOSED \/ In EffectCleanedUp events)
        (Hnext : run h events' s = Some s') :
  intervals s = [] /\ intervals s' = []
  /\ sent s' = sent s
  /\ delivered events' = []
  /\ currentCandleRef (page s') = currentCandleRef (page s)
  /\ currentPrice (page s') = currentPrice (page s)
  /\ sinkCalls (page s') = sinkCalls (page s).
Proof.
  assert (Q : quiet s).
  { destruct Hover as [R | Hin].
    - apply closed_quiet; [|exact R].
      apply (run_invariant h events s0 s (attach_invariant st s0 Hattach) Hrun).
    - apply in_split in Hin. destruct Hin as (e1 & e2 & ->).
      rewrite run_app in Hrun.
      destruct (run h e1 s0) as [s1|] eqn:E1; [|discriminate].
      simpl in Hrun.
      apply (run_quiet h e2 (cleanup s1) s); [|exact Hrun].
      apply cleanup_quiet.
      apply (run_invariant h e1 s0 s1 (attach_invariant st s0 Hattach) E1). }
  destruct (run_quiet h events' s s' Q Hnext) as (Q' & S' & P' & D').
  destruct P' as (P1 & P2 & _ & _ & P5).
  repeat split; try assumption; [apply Q | apply Q'].
Qed.

Lemma session_quiet_witness :
  let h := Engine.host 0 in
  let st := loadHistoricalData h (Resolved (Sample.body [Sample.tenOClock]))
                               initialState in
  match attach st with
  | Some s0 =>
      match run h [SocketOpens; EffectCleanedUp] s0 with
      | Some s =>
          match run h [SocketFails; SocketCloses] s with
          | Some s' => sent s' = sent s /\ intervals s' = []
          | None => False
          end
      | None => False
      end
  | None => False
  end.
Proof.
  intros h st.
  destruct (attach st) as [s0|] eqn:Ea; [|vm_compute in Ea; discriminate Ea].
  destruct (run h [SocketOpens; EffectCleanedUp] s0) as [s|] eqn:Er;
    [|vm_compute in Ea; injection Ea as <-;
      vm_compute in Er; discriminate Er].
  destruct (run h [SocketFails; SocketCloses] s) as [s'|] eqn:En;
    [|vm_compute in Ea; injection Ea as <-;
      vm_compute in Er; injection Er as <-;
      vm_compute in En; discriminate En].
  destruct (session_quiet h st s0 s s' _ _ Ea Er
                          (or_intror (or_intror (or_introl eq_refl))) En)
    as (_ & Hi & Hs & _).
  exact (conj Hs Hi).
Defined.

Lemma onmessage_sameButStatus (h : Host) (data : PriceEvent.t)
      (a b : PageState) :
  sameButStatus a b ->
  sameButStatus (onmessage h data a) (onmessage h data b).
Proof.
  intros (H1 & H2 & H3 & H4 & H5). unfold onmessage, sameButStatus.
  destruct (accepted data); [|repeat split; assumption].
  simpl. rewrite H1, H3, H4, H5. repeat split.
Qed.

Lemma step_page (h : Host) (e : HostEvent) (s s' : Session) :
  step h e s = Some s' ->
  match e with
  | SocketDelivers data => page s' = onmessage h data (page s)
  | _ => sameButStatus (page s') (page s)
  end.
Proof.
  destruct (clearHeartbeatInterval_frame s) as (Fp & _).
  destruct (clearHeartbeatInterval_frame (setReadyState CLOSED s))
    as (Gp & _).
  destruct e as [|data| | | |id|]; simpl; intros Hstep.
  - destruct (readyState s); try discriminate. injection Hstep as <-.
    unfold sameButStatus. simpl. repeat split.
  - destruct (readyState s); try discriminate. injection Hstep as <-.
    reflexivity.
  - destruct (readyState s); try discriminate; injection Hstep as <-;
      unfold sameButStatus; simpl; repeat split.
  - destruct (readyState s); try discriminate. injection Hstep as <-.
    unfold sameButStatus. simpl. repeat split.
  - assert (K : sameButStatus (page (onclose (setReadyState CLOSED s)))
                              (page s)).
    { unfold onclose, sameButStatus. simpl. rewrite Gp. simpl.
      repeat split. }
    destruct (readyState s); try discriminate; injection Hstep as <-;
      exact K.
  - destruct (existsb _ _); [|discriminate]. injection Hstep as <-.
    unfold heartbeat, sameButStatus.
    destruct (readyState s); simpl; repeat split.
  - injection Hstep as <-. unfold cleanup, wsClose, sameButStatus. simpl.
    rewrite Fp. repeat split.
Qed.

Lemma sameButStatus_trans (a b c : PageState) :
  sameButStatus a b -> sameButStatus b c -> sameButStatus a c.
Proof. unfold sameButStatus. intuition congruence. Qed.

(** X19.  Of all the host does to a session, only the price events it
    delivers reach the aggregator and the chart: the held candle, the
    price shown, the error message, the loaded flag and the calls on the
    chart after a run are those of feeding the delivered events, in
    order, to the page the run started from.  Opening, failing, closing,
    heartbeats and cleanup change the status at most. *)
Theorem run_page_is_feed (h : Host) (events : list HostEvent)
        (s s' : Session)
        (Hrun : run h events s = Some s') :
  sameButStatus (page s') (feed h (delivered events) (page s)).
Proof.
  assert (G : forall evs s1 p,
             sameButStatus (page s1) p -> run h evs s1 = Some s' ->
             sameButStatus (page s') (feed h (delivered evs) p)).
  { induction evs as [|e evs IH]; intros s1 p Hp Hr; simpl in Hr.
    - injection Hr as <-. exact Hp.
    - destruct (step h e s1) as [s2|] eqn:E; [|discriminate].
      pose proof (step_page h e s1 s2 E) as P.
      destruct e as [|data| | | |id|]; simpl delivered;
        try (apply (IH s2 p); [|exact Hr];
             apply (sameButStatus_trans _ _ _ P Hp)).
      change (feed h (data :: delivered evs) p)
        with (feed h (delivered evs) (onmessage h data p)).
      apply (IH s2); [|exact Hr].
      rewrite P. apply onmessage_sameButStatus, Hp. }
  apply (G events s (page s)); [|exact Hrun].
  unfold sameButStatus. repeat split.
Qed.

Lemma run_page_is_feed_witness :
  let h := Engine.host 0 in
  let st := loadHistoricalData h (Resolved (Sample.body [Sample.tenOClock]))
                               initialState in
  match attach st with
  | Some s0 =>
      match run h [SocketOpens; SocketDelivers (Sample.tick 0 (JS.ofZ 100));
                   IntervalFires 1; SocketFails] s0 with
      | Some s =>
          sinkCalls (page s)
          = sinkCalls (onmessage h (Sample.tick 0 (JS.ofZ 100)) (page s0))
      | None => False
      end
  | None => False
  end.
Proof.
  intros h st.
  destruct (attach st) as [s0|] eqn:Ea; [|vm_compute in Ea; discriminate Ea].
  destruct (run h [SocketOpens; SocketDelivers (Sample.tick 0 (JS.ofZ 100));
                   IntervalFires 1; SocketFails] s0) as [s|] eqn:Er;
    [|vm_compute in Ea; injection Ea as <-;
      vm_compute in Er; discriminate Er].
  destruct (run_page_is_feed h _ s0 s Er) as (_ & _ & _ & _ & H).
  exact H.
Defined.

Lemma step_badge (h : Host) (e : HostEvent) (s s' : Session) :
  (status (page s) = "Live"%string ->
   (readyState s = OPEN \/ readyState s = CLOSING) /\ sent s <> []) ->
  step h e s = Some s' ->
  status (page s') = "Live"%string ->
  (readyState s' = OPEN \/ readyState s' = CLOSING) /\ sent s' <> [].
Proof.
  intros J Hstep.
  destruct (clearHeartbeatInterval_frame s) as (Fp & Fr & Fs & _).
  destruct e as [|data| | | |id|]; simpl in Hstep.
  - destruct (readyState s); try discriminate. injection Hstep as <-.
    simpl. intros _. split; [left; reflexivity|].
    intros H. apply app_eq_nil in H. destruct H as [_ H]. discriminate H.
  - destruct (readyState s) eqn:R; try discriminate. injection Hstep as <-.
    simpl. destruct (onmessage_frame h data (page s)) as (Hs & _).
    rewrite Hs, R. exact J.
  - destruct (readyState s); try discriminate; injection Hstep as <-;
      simpl; discriminate.
  - destruct (readyState s) eqn:R; try discriminate. injection Hstep as <-.
    simpl. intros L. split; [right; reflexivity | apply J, L].
  - assert (K : status (page (onclose (setReadyState CLOSED s)))
                = "Disconnected"%string) by reflexivity.
    destruct (readyState s); try discriminate; injection Hstep as <-;
      rewrite K; discriminate.
  - destruct (existsb _ _); [|discriminate]. injection Hstep as <-.
    assert (D : readyState s = OPEN \/ heartbeat s = s)
      by (unfold heartbeat; destruct (readyState s); auto).
    destruct D as [R | D]; [|rewrite D; exact J].
    unfold heartbeat. rewrite R. unfold wsSend. simpl. rewrite R.
    intros L. split; [left; reflexivity|].
    intros H. apply app_eq_nil in H. destruct H as [_ H]. discriminate H.
  - injection Hstep as <-. unfold cleanup, wsClose. simpl.
    rewrite Fp, Fr, Fs. intros L. destruct (J L) as ([R | R] & Hsent);
      rewrite R; split; auto.
Qed.

(** X20.  The badge is green only on a socket that has opened and has
    not closed: in a session attached to a page whose status is not
    "Live", whenever the status reads "Live" the socket is open or
    closing and the subscription has been sent.  After an error or a
    close the badge is never green again. *)
Theorem badge_live_only_open (h : Host) (st : PageState) (s0 s : Session)
        (events : list HostEvent)
        (Hattach : attach st = Some s0)
        (Hstatus : status st <> "Live"%string)
        (Hrun : run h events s0 = Some s)
        (Hbadge : badgeIsLive (page s) = true) :
  (readyState s = OPEN \/ readyState s = CLOSING)
  /\ sent s <> []
  /\ (forall events' s', run h events' s = Some s' ->
                         In SocketCloses events' ->
                         badgeIsLive (page s') = false).
Proof.
  assert (G : forall evs s1 s2,
             (status (page s1) = "Live"%string ->
              (readyState s1 = OPEN \/ readyState s1 = CLOSING)
              /\ sent s1 <> []) ->
             run h evs s1 = Some s2 ->
             status (page s2) = "Live"%string ->
             (readyState s2 = OPEN \/ readyState s2 = CLOSING)
             /\ sent s2 <> []).
  { induction evs as [|e evs IH]; intros s1 s2 J Hr; simpl in Hr.
    - injection Hr as <-. exact J.
    - destruct (step h e s1) as [s3|] eqn:E; [|discriminate].
      apply (IH s3 s2); [|exact Hr]. apply (step_badge h e s1 s3 J E). }
  assert (J0 : status (page s0) = "Live"%string ->
               (readyState s0 = OPEN \/ readyState s0 = CLOSING)
               /\ sent s0 <> []).
  { unfold attach in Hattach. destruct (isHistoricalLoaded st); [|discriminate].
    injection Hattach as <-. simpl. intros L. contradiction. }
  apply String.eqb_eq in Hbadge.
  destruct (G events s0 s J0 Hrun Hbadge) as [HR HS].
  split; [exact HR|]. split; [exact HS|].
  intros events' s' Hnext Hin.
  apply in_split in Hin. destruct Hin as (e1 & e2 & ->).
  rewrite run_app in Hnext.
  destruct (run h e1 s) as [s1|] eqn:E1; [|discriminate].
  change (run h (SocketCloses :: e2) s1)
    with (match step h SocketCloses s1 with
          | Some s2 => run h e2 s2
          | None => None
          end) in Hnext.
  destruct (step h SocketCloses s1) as [s2|] eqn:E2; [|discriminate].
  assert (Hclosed : readyState s2 = CLOSED
                    /\ status (page s2) = "Disconnected"%string).
  { simpl in E2. destruct (clearHeartbeatInterval_frame
                             (setReadyState CLOSED s1)) as (_ & Gr & _).
    destruct (readyState s1); try discriminate; injection E2 as <-;
      unfold onclose; simpl; rewrite Gr; split; reflexivity. }
  destruct (badgeIsLive (page s')) eqn:B; [|reflexivity].
  exfalso. apply String.eqb_eq in B.
  assert (J2 : status (page s2) = "Live"%string ->
               (readyState s2 = OPEN \/ readyState s2 = CLOSING)
               /\ sent s2 <> []).
  { destruct Hclosed as [_ Hd]. rewrite Hd. discriminate. }
  assert (Q : forall evs sa sb,
             readyState sa = CLOSED -> run h evs sa = Some sb ->
             readyState sb = CLOSED).
  { induction evs as [|e evs IH]; intros sa sb Ra Hr; simpl in Hr.
    - injection Hr as <-. exact Ra.
    - destruct (step h e sa) as [sc|] eqn:E; [|discriminate].
      apply (IH sc sb); [|exact Hr].
      destruct (clearHeartbeatInterval_frame sa) as (_ & Fr & _).
      destruct e; simpl in E; rewrite ?Ra in E; try discriminate.
      + destruct (existsb _ _); [|discriminate]. injection E as <-.
        unfold heartbeat. rewrite Ra. exact Ra.
      + injection E as <-. unfold cleanup, wsClose. simpl.
        rewrite Fr, Ra. reflexivity. }
  destruct (G e2 s2 s' J2 Hnext B) as ([R | R] & _);
    rewrite (Q e2 s2 s' (proj1 Hclosed) Hnext) in R; discriminate R.
Qed.

Lemma badge_live_only_open_witness :
  let h := Engine.host 0 in
  let st := loadHistoricalData h (Resolved (Sample.body [Sample.tenOClock]))
                               initialState in
  match attach st with
  | Some s0 =>
      match run h [SocketOpens; IntervalFires 1] s0 with
      | Some s => readyState s = OPEN \/ readyState s = CLOSING
      | None => False
      end
  | None => False
  end.
Proof.
  intros h st.
  destruct (attach st) as [s0|] eqn:Ea; [|vm_compute in Ea; discriminate Ea].
  pose proof Ea as Ea'. vm_compute in Ea'. injection Ea' as Es0.
  destruct (run h [SocketOpens; IntervalFires 1] s0) as [s|] eqn:Er;
    [|rewrite <- Es0 in Er; vm_compute in Er; discriminate Er].
  assert (Hb : badgeIsLive (page s) = true).
  { pose proof Er as Er'. rewrite <- Es0 in Er'.
    vm_compute in Er'. injection Er' as <-. reflexivity. }
  assert (Hst : status st <> "Live"%string) by (vm_compute; discriminate).
  destruct (badge_live_only_open h st s0 s _ Ea Hst Er Hb) as (H & _).
  exact H.
Defined.
